(** * LeadGraph: tiered website acquisition and pipeline orchestration

    A shallow embedding of the acquisition engine
    ([enrichment/websiteCrawler.js], [enrichment/simpleFetch.js],
    [enrichment/crawl4aiClient.js]), of the outreach generator
    ([ai/outreachDrafts.js]) and of the enrichment and generation phases of
    [main.js].

    Conventions.
    - A JavaScript string is a [string] of code units; the embedding covers
      the code units below 256, for which [toLowerCase], [trim] and the
      regular-expression class [\s] are written out in [Js].
    - Numbers that the code uses as lengths, delays and status codes are [N];
      the clock counts milliseconds.
    - An [async] function is a computation [IO A] over a [World] holding the
      clock and the trace of the effects performed so far, each stamped with
      the instant at which it was issued. A computation either completes
      normally or throws an [Error]; effects performed before a throw stay
      in the trace, and so do the assignments made to an object.
    - What the platform, the network and the modules outside this
      development answer is read from an [Env]. *)

From stdpp Require Import base strings list gmap pretty.
From Stdlib Require Import Ascii NArith Lia.

Open Scope string_scope.
Open Scope N_scope.

(** ** JavaScript string primitives *)

Module Js.

Definition code (c : ascii) : N := N_of_ascii c.

Definition LF : ascii := ascii_of_N 10.
Definition nl : string := String LF EmptyString.

(** White space of [String.prototype.trim] and of the class [\s]. *)
Definition isSpace (c : ascii) : bool :=
  let n := code c in
  ((9 <=? n) && (n <=? 13)) || (n =? 32) || (n =? 160).

Definition lowerChar (c : ascii) : ascii :=
  let n := code c in
  if ((65 <=? n) && (n <=? 90))
     || ((192 <=? n) && (n <=? 222) && negb (n =? 215))
  then ascii_of_N (n + 32) else c.

Fixpoint toLowerCase (s : string) : string :=
  match s with
  | EmptyString => EmptyString
  | String c r => String (lowerChar c) (toLowerCase r)
  end.

Definition startsWith (p s : string) : bool := String.prefix p s.

(** [hay.includes(needle)] *)
Fixpoint includes (needle hay : string) : bool :=
  String.prefix needle hay
  || match hay with
     | EmptyString => false
     | String _ r => includes needle r
     end.

Definition jsLength (s : string) : N := N.of_nat (String.length s).

Definition isEmpty (s : string) : bool :=
  match s with EmptyString => true | String _ _ => false end.

(** A string is truthy when it is not empty. *)
Definition truthyStr (s : string) : bool := negb (isEmpty s).

Fixpoint trimStart (s : string) : string :=
  match s with
  | EmptyString => EmptyString
  | String c r => if isSpace c then trimStart r else s
  end.

Fixpoint trimEnd (s : string) : string :=
  match s with
  | EmptyString => EmptyString
  | String c r =>
      let r' := trimEnd r in
      if isSpace c && isEmpty r' then EmptyString else String c r'
  end.

Definition trim (s : string) : string := trimStart (trimEnd s).

(** [s.split('\n')]: never empty, [""] splits into [[""]]. *)
Fixpoint splitLines (s : string) : list string :=
  match s with
  | EmptyString => [EmptyString]
  | String c r =>
      if Ascii.eqb c LF then EmptyString :: splitLines r
      else match splitLines r with
           | [] => [String c EmptyString]
           | l :: ls => String c l :: ls
           end
  end.

(** [lines[lines.length - 1]] of a split. *)
Definition lastOf (lines : list string) : string := List.last lines EmptyString.

Fixpoint hasChar (x : ascii) (s : string) : bool :=
  match s with
  | EmptyString => false
  | String c r => Ascii.eqb c x || hasChar x r
  end.

(** [s.replace(/<[^>]*>/g, ' ')]: a ["<"] opens a match exactly when some
    [">"] follows it, and the match runs to the first such [">"]. *)
Fixpoint stripTagsFrom (inTag : bool) (s : string) : string :=
  match s with
  | EmptyString => EmptyString
  | String c r =>
      if inTag then
        if Ascii.eqb c ">" then String " " (stripTagsFrom false r)
        else stripTagsFrom true r
      else if Ascii.eqb c "<" && hasChar ">" r then stripTagsFrom true r
      else String c (stripTagsFrom false r)
  end.

Definition stripTags (s : string) : string := stripTagsFrom false s.

(** [s.replace(/\s+/g, ' ')] *)
Fixpoint collapseFrom (afterSpace : bool) (s : string) : string :=
  match s with
  | EmptyString => EmptyString
  | String c r =>
      if isSpace c then
        if afterSpace then collapseFrom true r
        else String " " (collapseFrom true r)
      else String c (collapseFrom false r)
  end.

Definition collapseSpaces (s : string) : string := collapseFrom false s.

(** Case-insensitive prefix test, as the flag [i] gives it for a pattern
    of ASCII letters and punctuation. *)
Fixpoint prefixCI (p s : string) : bool :=
  match p, s with
  | EmptyString, _ => true
  | String _ _, EmptyString => false
  | String a p', String b s' =>
      Ascii.eqb (lowerChar a) (lowerChar b) && prefixCI p' s'
  end.

(** [span stop s]: the longest prefix of [s] free of [stop], and the rest. *)
Fixpoint span (stop : ascii) (s : string) : string * string :=
  match s with
  | EmptyString => (EmptyString, EmptyString)
  | String c r =>
      if Ascii.eqb c stop then (EmptyString, s)
      else let '(a, b) := span stop r in (String c a, b)
  end.

Fixpoint dropStr (n : nat) (s : string) : string :=
  match n, s with
  | O, _ => s
  | S n', String _ r => dropStr n' r
  | S _, EmptyString => EmptyString
  end.

(** [repeat c n]: the string of [n] copies of [c]. *)
Fixpoint replicate (n : nat) (c : ascii) : string :=
  match n with
  | O => EmptyString
  | S n' => String c (replicate n' c)
  end.

End Js.

(** ** Values, errors and results *)

(** The values a caller may pass where a URL string is expected. *)
Inductive JsVal :=
| JsUndefined
| JsNull
| JsBool (b : bool)
| JsNum (n : N)
| JsStr (s : string).

Definition truthy (v : JsVal) : bool :=
  match v with
  | JsUndefined | JsNull => false
  | JsBool b => b
  | JsNum n => negb (n =? 0)
  | JsStr s => Js.truthyStr s
  end.

(** A parsed JSON text. *)
#[local] Unset Elimination Schemes.
Inductive Json :=
| JNull
| JBool (b : bool)
| JNum (n : N)
| JStr (s : string)
| JArr (items : list Json)
| JObj (fields : list (string * Json)).
#[local] Set Elimination Schemes.

Record Error := mkError { message : string }.

Inductive Completion (A : Type) :=
| Normal (a : A)
| Throw (e : Error).
Arguments Normal {A} a.
Arguments Throw {A} e.

(** An awaited operation: how long it takes to settle and how it settles. *)
Record Timed (A : Type) := mkTimed { took : N; outcome : Completion A }.
Arguments mkTimed {A} took outcome.
Arguments took {A} t.
Arguments outcome {A} t.

Inductive Level := Debug | Info | Warning | Err.

(** The effects the code performs on the outside. *)
Inductive Event :=
| EvLog (lvl : Level) (msg : string) (detail : option string)
| EvFetch (url : string)
| EvAbort (url : string)
| EvLaunch
| EvNewContext
| EvNewPage
| EvGoto (url : string)
| EvWaitForTimeout (ms : N)
| EvContent
| EvTitle
| EvClose
| EvSpawn (command : string) (args : list string)
| EvStdinWrite (data : string)
| EvStdinEnd
| EvKill
| EvSetTimeout (ms : N)
| EvGenerate (index : nat).

Record World := mkWorld { now : N; trace : list (N * Event) }.

(** ** Acquisition results *)

Record Page := mkPage { p_url : string; p_title : string; p_html : string }.

Inductive MetaVal := MNum (n : N) | MBool (b : bool).

(** The object returned by [crawlWebsite]: [{ pages, metadata, htmlContent }].
    [metadata] is an object used as a map from keys to values. *)
Record CrawlResult := mkCrawlResult {
  pages : list Page;
  metadata : gmap string MetaVal;
  htmlContent : string
}.

(** [{ pages: [], metadata: {}, htmlContent: '' }] *)
Definition emptyResult : CrawlResult := mkCrawlResult [] ∅ "".

(** The object returned by [simpleFetch]; an absent key is [None]. *)
Record SimpleResult := mkSimpleResult {
  success : bool;
  html : option string;
  text : option string;
  error : option string
}.

(** A settled [fetch]: status line, and what reading the body gives. *)
Record Response := mkResponse {
  ok : bool;
  status : N;
  statusText : string;
  body : Timed string
}.

(** How the browser started for one target answers each call. *)
Record Browser := mkBrowser {
  b_launch : Timed unit;
  b_newContext : Timed unit;
  b_newPage : Timed unit;
  b_goto : Timed unit;
  b_settle : Completion unit;
  b_content : Timed string;
  b_title : Timed string;
  b_close : Timed unit
}.

(** A child process. [p_spawnError] is the error of a child that cannot be
    started, because its command is not found or may not be run: [spawn]
    still returns the child with its streams, and the error is emitted as the
    [error] event of the child on the next tick. For a child that starts:
    when its [close] event fires, if it ever does on its own, with which
    exit code ([None] when a signal ended it), and what it wrote in the
    meantime. *)
Record Process := mkProcess {
  p_spawnError : option Error;
  p_closes : option N;
  p_code : option N;
  p_stdout : string;
  p_stderr : string
}.

(** ** Records of the pipeline *)

Record EmailEntry := mkEmail { email : string }.
Record PhoneEntry := mkPhone { phone : string }.

Record WebsiteSignals := mkWebsiteSignals {
  ws_hasHttps : bool;
  ws_hasContactForm : bool;
  ws_hasBookingWidget : bool;
  ws_hasChatWidget : bool
}.

Record Outreach := mkOutreach { coldEmail : string; voicemail : string; sms : string }.

Record AiContent := mkAiContent {
  ai_coldEmail : string;
  ai_voicemail : string;
  ai_sms : string;
  ai_generatedAt : string
}.

(** The part of a lead that the enrichment and generation phases read or
    assign. Every lead carries [business.name], the arrays [contacts.emails]
    and [contacts.phones], and the objects [online] and [signals]:
    [cleanLeadForOutput] reads them on every lead without a guard. *)
Record Lead := mkLead {
  business_name : string;
  online_website : JsVal;
  online_domain : option string;
  contacts_emails : list EmailEntry;
  contacts_phones : list PhoneEntry;
  online_socials : option (gmap string string);
  signals_websiteSignals : option WebsiteSignals;
  signals_techSignals : option (gmap string bool);
  lead_ai : option AiContent
}.

Record Input := mkInput {
  enrichment_crawlWebsite : bool;
  enrichment_maxWebsitePages : option N;
  ai_enabled : bool;
  ai_openaiApiKey : option string;
  ai_model : option string
}.

(** [new Crawl4AIClient()] *)
Record Crawl4AIClient := mkClient {
  available : bool;
  pythonPath : string;
  wrapperPath : string
}.

(** What the platform, the network and the modules that are not part of
    this development answer. *)
Record Env := mkEnv {
  (** [new URL(s).hostname], which throws on a string that is no URL *)
  URL_hostname : string -> Completion string;
  (** [fetch(url, ...)] left to itself, without the abort signal *)
  net_fetch : string -> Timed Response;
  (** the browser that [chromium.launch] starts while [url] is crawled *)
  chromium : string -> Browser;
  (** how late after its delay a timer set at a given instant fires *)
  timer_lag : N -> N;
  JSON_parse : string -> Completion Json;
  JSON_stringify : Json -> string;
  (** [spawn(command, args)], fed [input] on its standard input *)
  child_process : string -> list string -> string -> Process;
  (** [enrichment/emailExtractor.js] and its siblings *)
  extractEmails : string -> option string -> Completion (list EmailEntry);
  extractPhones : string -> Completion (list PhoneEntry);
  extractSocials : string -> Completion (gmap string string);
  detectTechSignals : string -> Completion (gmap string bool);
  (** [process.env.OPENAI_API_KEY] *)
  OPENAI_API_KEY : option string;
  (** the completion service, asked at an instant with a key and a prompt *)
  openai : N -> string -> string -> Timed Response;
  (** the text [buildPrompt] assembles for a lead *)
  buildPrompt : Lead -> Input -> string;
  (** the sections that the four patterns of [parseOutreachResponse] find *)
  parseSections : string -> Outreach;
  (** [new Date().toISOString()] at an instant *)
  toISOString : N -> string;
  (** the message of the [RangeError] with which [AbortSignal.timeout]
      refuses a delay above 4294967295 *)
  delayOutOfRange : N -> string
}.

(** ** Computations *)

(** A computation over a state [S] that completes normally or throws. *)
Definition M (S A : Type) : Type := S -> Completion A * S.

Definition ret {S A} (a : A) : M S A := fun s => (Normal a, s).

Definition throw {S A} (e : Error) : M S A := fun s => (Throw e, s).

Definition settle {S A} (c : Completion A) : M S A := fun s => (c, s).

Definition bind {S A B} (m : M S A) (k : A -> M S B) : M S B :=
  fun s =>
    match m s with
    | (Normal a, s') => k a s'
    | (Throw e, s') => (Throw e, s')
    end.

Notation "'let*' x ':=' m 'in' k" := (bind m (fun x => k))
  (at level 10, x pattern, m at level 100, k at level 200).
Notation "m ';;' k" := (bind m (fun _ => k))
  (at level 100, k at level 200, right associativity).

(** [try { body } catch (e) { handler e }] *)
Definition try_catch {S A} (body : M S A) (handler : Error -> M S A) : M S A :=
  fun s =>
    match body s with
    | (Normal a, s') => (Normal a, s')
    | (Throw e, s') => handler e s'
    end.

(** [try { body } catch (e) { handler e } finally { final }]: [final] runs on
    every path, and what it throws replaces the completion reached so far. *)
Definition try_catch_finally {S A} (body : M S A) (handler : Error -> M S A)
    (final : M S unit) : M S A :=
  fun s =>
    let '(c, s1) := try_catch body handler s in
    match final s1 with
    | (Normal _, s2) => (c, s2)
    | (Throw e, s2) => (Throw e, s2)
    end.

Definition IO (A : Type) : Type := M World A.

Definition emit (ev : Event) : IO unit :=
  fun w => (Normal tt, mkWorld (now w) (trace w ++ [(now w, ev)])%list).

Definition elapse (d : N) : IO unit :=
  fun w => (Normal tt, mkWorld (now w + d) (trace w)).

(** [await op]: the clock moves to the instant at which [op] settles. *)
Definition await {A} (op : Timed A) : IO A :=
  fun w => (outcome op, mkWorld (now w + took op) (trace w)).

(** [await] of an operation abandoned after [limit] milliseconds: [onLimit]
    runs then and [e] is thrown. *)
Definition await_within {A} (limit : N) (op : Timed A) (onLimit : IO unit)
    (e : Error) : IO A :=
  if took op <? limit then await op
  else (elapse limit ;; onLimit ;; throw e).

Definition log (lvl : Level) (msg : string) : IO unit := emit (EvLog lvl msg None).

Definition log2 (lvl : Level) (msg detail : string) : IO unit :=
  emit (EvLog lvl msg (Some detail)).

(** The delay that [setTimeout] gives a timer: a delay below 1 or above
    2147483647 ms is set to 1 ms. *)
Definition timerDelay (ms : N) : N :=
  if (1 <=? ms) && (ms <=? 2147483647) then ms else 1.

(** [new Promise(resolve => setTimeout(resolve, ms))], awaited. *)
Definition sleep (env : Env) (ms : N) : IO unit :=
  emit (EvSetTimeout ms) ;;
  fun w => elapse (ms + timer_lag env (now w)) w.

(** ** Calls that may not come back *)

(** How a call into the external crawler ends. It settles; or it stays
    pending for ever, nothing being left that could settle it; or an error
    that nobody handles is thrown outside every [try], and the process of
    the run exits: no value is returned and nothing that would follow
    runs. *)
Inductive Fate (A : Type) : Type :=
| Settles (c : Completion A)
| Hangs
| Dies (e : Error).

Arguments Settles {A} c.
Arguments Hangs {A}.
Arguments Dies {A} e.

Definition Node (A : Type) : Type := World -> Fate A * World.

Definition fromIO {A} (m : IO A) : Node A :=
  fun w => let '(c, w') := m w in (Settles c, w').

(** [await m], then [k]: a call that does not come back ends what awaits
    it. *)
Definition nodeBind {A B} (m : Node A) (k : A -> Node B) : Node B :=
  fun w =>
    match m w with
    | (Settles (Normal a), w') => k a w'
    | (Settles (Throw e), w') => (Settles (Throw e), w')
    | (Hangs, w') => (Hangs, w')
    | (Dies e, w') => (Dies e, w')
    end.

(** [try { body } catch (e) { handler e }]: what the body throws is caught;
    an exit of the process is not. *)
Definition nodeCatch {A} (body : Node A) (handler : Error -> Node A) : Node A :=
  fun w =>
    match body w with
    | (Settles (Throw e), w') => handler e w'
    | (fate, w') => (fate, w')
    end.

(** ** [enrichment/simpleFetch.js] *)

Definition htmlToText (html : string) : string :=
  Js.trim (Js.collapseSpaces (Js.stripTags html)).

Definition simpleFetch (env : Env) (url : string) (timeout : N) : IO SimpleResult :=
  try_catch
    (emit (EvFetch url) ;;
     let* response :=
       await_within (timerDelay timeout) (net_fetch env url) (emit (EvAbort url))
         (mkError "This operation was aborted") in
     if negb (ok response) then
       ret (mkSimpleResult false None None
              (Some ("HTTP " +:+ pretty (status response) +:+ ": "
                     +:+ statusText response)))
     else
       let* html := await (body response) in
       ret (mkSimpleResult true (Some html) (Some (htmlToText html)) None))
    (fun error => ret (mkSimpleResult false None None (Some (message error)))).

(** ** [enrichment/websiteCrawler.js] *)

(** The first match of [/<title[^>]*>([^<]+)<\/title>/i] at the head of [s]:
    its first group. *)
Definition titleAt (s : string) : option string :=
  if Js.prefixCI "<title" s then
    match Js.span ">" (Js.dropStr 6 s) with
    | (_, String _ afterOpen) =>
        let '(inner, rest) := Js.span "<" afterOpen in
        if Js.truthyStr inner && Js.prefixCI "</title>" rest
        then Some inner else None
    | (_, EmptyString) => None
    end
  else None.

Fixpoint titleMatch (s : string) : option string :=
  match titleAt s with
  | Some t => Some t
  | None =>
      match s with
      | EmptyString => None
      | String _ r => titleMatch r
      end
  end.

Definition extractTitle (html : string) : string :=
  match titleMatch html with
  | Some t => Js.trim t
  | None => ""
  end.

Definition lowerIncludes (allHtml needle : string) : bool :=
  Js.includes needle (Js.toLowerCase allHtml).

Definition hasContactForm (allHtml : string) : bool :=
  lowerIncludes allHtml "contact"
  && (lowerIncludes allHtml "form" || lowerIncludes allHtml "submit").

Definition hasBookingWidget (allHtml : string) : bool :=
  lowerIncludes allHtml "book"
  && (lowerIncludes allHtml "appointment" || lowerIncludes allHtml "schedule").

Definition hasChatWidget (allHtml : string) : bool :=
  lowerIncludes allHtml "chat"
  || lowerIncludes allHtml "intercom"
  || lowerIncludes allHtml "drift".

Definition buildMetadata (crawledPages : list Page) (allHtml : string)
  : gmap string MetaVal :=
  <["pageCount" := MNum (N.of_nat (length crawledPages))]>
  (<["hasContactForm" := MBool (hasContactForm allHtml)]>
  (<["hasBookingWidget" := MBool (hasBookingWidget allHtml)]>
  (<["hasChatWidget" := MBool (hasChatWidget allHtml)]> ∅))).

Definition buildCrawlResult (crawledPages : list Page) (allHtml domain : string)
  : IO CrawlResult :=
  log Info ("Crawled " +:+ pretty (N.of_nat (length crawledPages))
            +:+ " page(s) from " +:+ domain) ;;
  ret (mkCrawlResult crawledPages (buildMetadata crawledPages allHtml) allHtml).

Definition crawlWithPlaywright (env : Env) (startUrl domain : string)
    (maxPages : N) (options : Input) : IO CrawlResult :=
  let br := chromium env startUrl in
  try_catch
    (emit EvLaunch ;;
     let* browser := await (b_launch br) in
     emit EvNewContext ;;
     let* context := await (b_newContext br) in
     emit EvNewPage ;;
     let* page := await (b_newPage br) in
     let* crawled :=
       try_catch_finally
         (emit (EvGoto startUrl) ;;
          await_within 15000 (b_goto br) (ret tt)
            (mkError "page.goto: Timeout 15000ms exceeded.") ;;
          emit (EvWaitForTimeout 2000) ;;
          elapse 2000 ;;
          settle (b_settle br) ;;
          emit EvContent ;;
          let* html := await (b_content br) in
          emit EvTitle ;;
          let* title := await (b_title br) in
          log Info ("Playwright successfully crawled " +:+ domain) ;;
          ret ([mkPage startUrl title html], html))
         (fun pageError =>
            log2 Warning ("Playwright page error for " +:+ domain +:+ ":")
              (message pageError) ;;
            ret ([], ""))
         (emit EvClose ;; await (b_close br)) in
     let '(crawledPages, allHtml) := crawled in
     if 0 <? N.of_nat (length crawledPages)
     then buildCrawlResult crawledPages allHtml domain
     else ret emptyResult)
    (fun error =>
       log2 Err ("Playwright error for " +:+ domain +:+ ":") (message error) ;;
       ret emptyResult).

(** The markers of a block page. *)
Definition hasBlockMarker (html : string) : bool :=
  Js.includes "403 Forbidden" html
  || Js.includes "Access Denied" html
  || Js.includes "captcha" html
  || Js.includes "Cloudflare" html.

(** The block test of the direct tier: a marker, or fewer than 5000 units. *)
Definition isBlocked (html : string) : bool :=
  hasBlockMarker html || (Js.jsLength html <? 5000).

(** [simpleResult.success && simpleResult.html && simpleResult.html.length > 1000] *)
Definition goodContent (r : SimpleResult) : option string :=
  if success r then
    match html r with
    | Some h => if Js.truthyStr h && (1000 <? Js.jsLength h) then Some h else None
    | None => None
    end
  else None.

(** A value inside a template literal; a number as its digits, which is
    how it is written below 10^21. *)
Definition describe (v : JsVal) : string :=
  match v with
  | JsUndefined => "undefined"
  | JsNull => "null"
  | JsBool true => "true"
  | JsBool false => "false"
  | JsNum n => pretty n
  | JsStr s => s
  end.

(** [websiteUrl.startsWith('http') ? websiteUrl : `https://${websiteUrl}`] *)
Definition startUrlOf (websiteUrl : string) : string :=
  if Js.startsWith "http" websiteUrl then websiteUrl else "https://" +:+ websiteUrl.

(** [options?.enrichment?.maxWebsitePages || 10] *)
Definition maxPagesOf (options : Input) : N :=
  match enrichment_maxWebsitePages options with
  | Some n => if n =? 0 then 10 else n
  | None => 10
  end.

Definition crawlWebsite (env : Env) (websiteUrl : JsVal) (options : Input)
  : IO CrawlResult :=
  if negb (truthy websiteUrl) then ret emptyResult
  else
    let maxPages := maxPagesOf options in
    try_catch
      (let* startUrl :=
         match websiteUrl with
         | JsStr s => ret (startUrlOf s)
         | _ => throw (mkError "websiteUrl.startsWith is not a function")
         end in
       let* domain := settle (URL_hostname env startUrl) in
       log Info ("Crawling website: " +:+ domain) ;;
       log Debug ("Trying simple fetch for " +:+ domain) ;;
       let* simpleResult := simpleFetch env startUrl 10000 in
       let* direct :=
         match goodContent simpleResult with
         | Some h =>
             if negb (isBlocked h) then
               log Info ("Simple fetch succeeded for " +:+ domain) ;;
               let crawledPages := [mkPage startUrl (extractTitle h) h] in
               let* allHtml :=
                 match text simpleResult with
                 | Some t => ret t
                 | None => throw (mkError "allHtml.toLowerCase is not a function")
                 end in
               let* r := buildCrawlResult crawledPages allHtml domain in
               ret (Some r)
             else
               log Info ("Simple fetch blocked for " +:+ domain
                         +:+ ", trying Playwright") ;;
               ret None
         | None =>
             log Debug ("Simple fetch failed for " +:+ domain +:+ ": "
                        +:+ match error simpleResult with
                            | Some e => if Js.truthyStr e then e else "No content"
                            | None => "No content"
                            end) ;;
             ret None
         end in
       match direct with
       | Some r => ret r
       | None =>
           log Info ("Using Playwright for " +:+ domain) ;;
           crawlWithPlaywright env startUrl domain maxPages options
       end)
      (fun error =>
         log2 Err ("Website crawl failed for " +:+ describe websiteUrl +:+ ":")
           (message error) ;;
         ret emptyResult).

(** ** [enrichment/crawl4aiClient.js] *)

Fixpoint field (k : string) (fields : list (string * Json)) : option Json :=
  match fields with
  | [] => None
  | (k', v) :: r => if String.eqb k k' then Some v else field k r
  end.

Definition jsonTruthy (j : Json) : bool :=
  match j with
  | JNull => false
  | JBool b => b
  | JNum n => negb (n =? 0)
  | JStr s => Js.truthyStr s
  | JArr _ | JObj _ => true
  end.

Definition optTruthy (o : option Json) : bool :=
  match o with Some j => jsonTruthy j | None => false end.

(** [v.k] for a key [k] that no string, number, boolean or array carries:
    a throw on [null], the field of an object, [undefined] otherwise. *)
Definition getProp (k : string) (v : Json) : Completion (option Json) :=
  match v with
  | JNull =>
      Throw (mkError ("Cannot read properties of null (reading '" +:+ k +:+ "')"))
  | JObj fs => Normal (field k fs)
  | _ => Normal None
  end.

(** [String(v)], as a template literal renders a value. *)
Fixpoint jsonToString (j : Json) : string :=
  match j with
  | JNull => "null"
  | JBool true => "true"
  | JBool false => "false"
  | JNum n => pretty n
  | JStr s => s
  | JObj _ => "[object Object]"
  | JArr items =>
      (fix join (l : list Json) : string :=
         match l with
         | [] => ""
         | x :: r =>
             match x with JNull => "" | _ => jsonToString x end
             +:+ match r with [] => "" | _ :: _ => "," +:+ join r end
         end) items
  end.

Definition showProp (o : option Json) : string :=
  match o with Some j => jsonToString j | None => "undefined" end.

(** [{ success: false, error: msg }] *)
Definition failureResult (msg : string) : Json :=
  JObj [("success", JBool false); ("error", JStr msg)].

(** [{ url: url, timeout: timeout }] *)
Definition crawlRequest (url : string) (timeout : N) : Json :=
  JObj [("url", JStr url); ("timeout", JNum timeout)].

(** The delay of the timer of [crawlUrl], in milliseconds. *)
Definition crawlDeadline (timeout : N) : N := (timeout + 5) * 1000.

(** The [close] handler of [crawlUrl]: it settles the promise. *)
Definition onClose (env : Env) (python : Process) : IO Json :=
  match p_code python with
  | Some N0 =>
      let output := p_stdout python in
      let lines := Js.splitLines (Js.trim output) in
      let jsonLine := Js.lastOf lines in
      match JSON_parse env jsonLine with
      | Normal v => ret v
      | Throw _ =>
          throw (mkError ("Failed to parse Python output: "
                          +:+ String.substring 0 200 output))
      end
  | _ =>
      throw (mkError (if Js.truthyStr (p_stderr python) then p_stderr python
                      else "Python script failed"))
  end.

(** The promise of [crawlUrl]: the child is started and fed, the timer is
    set, and whichever of [close] and the timer comes first settles it. The
    timer is never cleared; when [close] came first it still fires later,
    after [crawlUrl] has returned. Nothing listens to the [error] event of
    the child: when the child cannot be started, the event is thrown on the
    next tick and the process exits. *)
Definition crawlPromise (env : Env) (this : Crawl4AIClient) (input : string)
    (timeout : N) : Node Json :=
  fun w =>
    let python := child_process env (pythonPath this) [wrapperPath this] input in
    let w1 :=
      snd ((emit (EvSpawn (pythonPath this) [wrapperPath this]) ;;
            emit (EvStdinWrite input) ;;
            emit EvStdinEnd ;;
            emit (EvSetTimeout (crawlDeadline timeout))) w) in
    match p_spawnError python with
    | Some e => (Dies e, w1)
    | None =>
        let fires := timerDelay (crawlDeadline timeout) + timer_lag env (now w1) in
        let expire : IO Json :=
          elapse fires ;; emit EvKill ;; throw (mkError "Crawl timeout") in
        fromIO (match p_closes python with
                | Some t => if t <? fires then (elapse t ;; onClose env python) else expire
                | None => expire
                end) w1
    end.

Definition crawlUrl (env : Env) (this : Crawl4AIClient) (url : string)
    (timeout : option N) : Node Json :=
  let timeout := default 30 timeout in
  nodeCatch
    (let input := JSON_stringify env (crawlRequest url timeout) in
     nodeBind (crawlPromise env this input timeout) (fun result =>
       fromIO
         (let* ok := settle (getProp "success" result) in
          (if optTruthy ok then
             log Info ("Crawl4AI successfully crawled " +:+ url)
           else
             let* e := settle (getProp "error" result) in
             log Warning ("Crawl4AI failed for " +:+ url +:+ ": " +:+ showProp e)) ;;
          ret result)))
    (fun error =>
       fromIO
         (log2 Warning ("Crawl4AI crawl failed for " +:+ url +:+ ":") (message error) ;;
          ret (failureResult (message error)))).

(** ** [ai/outreachDrafts.js] *)

Definition emptyOutreach : Outreach := mkOutreach "" "" "".

(** [v[0]] *)
Definition first (v : Json) : option Json :=
  match v with
  | JArr items => head items
  | JObj fs => field "0" fs
  | JStr (String c _) => Some (JStr (String c EmptyString))
  | _ => None
  end.

(** [v?.k] *)
Definition optProp (k : string) (v : option Json) : Completion (option Json) :=
  match v with
  | None | Some JNull => Normal None
  | Some j => getProp k j
  end.

(** A [content] that is no string has no [match] method: the throw is caught
    inside and the empty draft is returned. *)
Definition parseOutreachResponse (env : Env) (content : Json) : IO Outreach :=
  match content with
  | JStr s => ret (parseSections env s)
  | _ =>
      log2 Warning "Failed to parse AI response:" "content.match is not a function" ;;
      ret emptyOutreach
  end.

Definition orElse (a b : option string) : option string :=
  match a with
  | Some s => if Js.truthyStr s then Some s else b
  | None => b
  end.

Definition generateOutreach (env : Env) (lead : Lead) (options : Input)
  : IO Outreach :=
  if negb (ai_enabled options) then ret emptyOutreach
  else
    match orElse (ai_openaiApiKey options) (OPENAI_API_KEY env) with
    | None | Some EmptyString =>
        log Warning "OpenAI API key not provided - skipping AI outreach generation" ;;
        ret emptyOutreach
    | Some apiKey =>
        try_catch
          (let businessName := business_name lead in
           let prompt := buildPrompt env lead options in
           emit (EvFetch "https://api.openai.com/v1/chat/completions") ;;
           let* response := (fun w => await (openai env (now w) apiKey prompt) w) in
           if negb (ok response) then
             log Err ("OpenAI API error: " +:+ pretty (status response) +:+ " "
                      +:+ statusText response) ;;
             ret emptyOutreach
           else
             let* bodyText := await (body response) in
             let* data := settle (JSON_parse env bodyText) in
             let* choices := settle (getProp "choices" data) in
             let* choice :=
               match choices with
               | None =>
                   throw (mkError "Cannot read properties of undefined (reading '0')")
               | Some JNull =>
                   throw (mkError "Cannot read properties of null (reading '0')")
               | Some c => ret (first c)
               end in
             let* msg := settle (optProp "message" choice) in
             let* found := settle (optProp "content" msg) in
             let content :=
               match found with
               | Some c => if jsonTruthy c then c else JStr ""
               | None => JStr ""
               end in
             let* outreach := parseOutreachResponse env content in
             log Info ("Generated AI outreach for " +:+ businessName) ;;
             ret outreach)
          (fun error =>
             log2 Err "AI outreach generation failed:" (message error) ;;
             ret emptyOutreach)
    end.

(** ** [main.js]: the enrichment phase *)

(** What one task of a phase owns: the lead it was handed, and the counter
    of the phase, which every task increments in one step. *)
Record UnitState := mkUnit { u_lead : Lead; u_count : N }.

Definition Task (A : Type) : Type := M (UnitState * World) A.

Definition liftIO {A} (m : IO A) : Task A :=
  fun '(u, w) => let '(c, w') := m w in (c, (u, w')).

Definition getLead : Task Lead := fun s => (Normal (u_lead (fst s)), s).

Definition assign (f : Lead -> Lead) : Task unit :=
  fun '(u, w) => (Normal tt, (mkUnit (f (u_lead u)) (u_count u), w)).

(** [enrichedCount++], [aiCount++] *)
Definition increment : Task unit :=
  fun '(u, w) => (Normal tt, (mkUnit (u_lead u) (u_count u + 1), w)).

Definition clock : Task N := fun s => (Normal (now (snd s)), s).

Definition set_emails (v : list EmailEntry) (l : Lead) : Lead :=
  mkLead (business_name l) (online_website l) (online_domain l) v
    (contacts_phones l) (online_socials l) (signals_websiteSignals l)
    (signals_techSignals l) (lead_ai l).

Definition set_phones (v : list PhoneEntry) (l : Lead) : Lead :=
  mkLead (business_name l) (online_website l) (online_domain l)
    (contacts_emails l) v (online_socials l) (signals_websiteSignals l)
    (signals_techSignals l) (lead_ai l).

Definition set_socials (v : gmap string string) (l : Lead) : Lead :=
  mkLead (business_name l) (online_website l) (online_domain l)
    (contacts_emails l) (contacts_phones l) (Some v) (signals_websiteSignals l)
    (signals_techSignals l) (lead_ai l).

Definition set_websiteSignals (v : WebsiteSignals) (l : Lead) : Lead :=
  mkLead (business_name l) (online_website l) (online_domain l)
    (contacts_emails l) (contacts_phones l) (online_socials l) (Some v)
    (signals_techSignals l) (lead_ai l).

Definition set_techSignals (v : gmap string bool) (l : Lead) : Lead :=
  mkLead (business_name l) (online_website l) (online_domain l)
    (contacts_emails l) (contacts_phones l) (online_socials l)
    (signals_websiteSignals l) (Some v) (lead_ai l).

Definition set_ai (v : AiContent) (l : Lead) : Lead :=
  mkLead (business_name l) (online_website l) (online_domain l)
    (contacts_emails l) (contacts_phones l) (online_socials l)
    (signals_websiteSignals l) (signals_techSignals l) (Some v).

(** [crawlResult.metadata.k || false], kept as a boolean *)
Definition flagOr (m : gmap string MetaVal) (k : string) : bool :=
  match m !! k with
  | Some (MBool b) => b
  | Some (MNum n) => negb (n =? 0)
  | None => false
  end.

(** [Object.values(socials).some(s => s)] *)
Definition someSocial (socials : gmap string string) : bool :=
  existsb Js.truthyStr (snd <$> map_to_list socials).

Definition nonEmpty {A} (l : list A) : bool :=
  match l with [] => false | _ :: _ => true end.

(** The body of the task that [batch.map] starts for one lead. *)
Definition enrichLead (env : Env) (input : Input) : Task unit :=
  try_catch
    (let* lead := getLead in
     liftIO (log Info ("Enriching: " +:+ business_name lead)) ;;
     let* crawlResult := liftIO (crawlWebsite env (online_website lead) input) in
     if Js.truthyStr (htmlContent crawlResult) then
       let content := htmlContent crawlResult in
       let* emails := settle (extractEmails env content (online_domain lead)) in
       let* phones := settle (extractPhones env content) in
       let* socials := settle (extractSocials env content) in
       let* techSignals := settle (detectTechSignals env content) in
       (if nonEmpty emails
        then assign (fun l => set_emails (contacts_emails l ++ emails)%list l)
        else ret tt) ;;
       (if nonEmpty phones
        then assign (fun l => set_phones (contacts_phones l ++ phones)%list l)
        else ret tt) ;;
       assign (set_socials socials) ;;
       let* hasHttps :=
         match online_website lead with
         | JsStr s => ret (Js.startsWith "https" s)
         | _ => throw (mkError "lead.online.website.startsWith is not a function")
         end in
       assign (set_websiteSignals
                 (mkWebsiteSignals hasHttps
                    (flagOr (metadata crawlResult) "hasContactForm")
                    (flagOr (metadata crawlResult) "hasBookingWidget")
                    (flagOr (metadata crawlResult) "hasChatWidget"))) ;;
       assign (set_techSignals techSignals) ;;
       if nonEmpty emails || nonEmpty phones || someSocial socials
       then increment else ret tt
     else ret tt)
    (fun error =>
       let* lead := getLead in
       liftIO (log2 Warning ("Enrichment failed for " +:+ business_name lead +:+ ":")
                 (message error))).

(** One task of a batch, as it settled: its index in [leadsToEnrich], the
    instants at which it started and ended, its completion and the lead it
    left. *)
Record Settled := mkSettled {
  s_index : nat;
  s_start : N;
  s_end : N;
  s_completion : Completion unit;
  s_lead : Lead
}.

Definition batchSize : nat := 2.

(** [batch.map(async (lead) => ...)]: every task of the batch is started at
    the instant [t0], before any of them is awaited; each runs on its own
    lead. Their effects are gathered in the trace task after task, the
    stamps telling how they interleave. *)
Fixpoint startAll (env : Env) (input : Input) (t0 : N) (i : nat)
    (batch : list Lead) (count : N) (tr : list (N * Event))
  : list Settled * N * list (N * Event) :=
  match batch with
  | [] => ([], count, tr)
  | lead :: rest =>
      let '(c, (u, w)) := enrichLead env input (mkUnit lead count, mkWorld t0 tr) in
      let '(ss, count', tr') := startAll env input t0 (S i) rest (u_count u) (trace w) in
      (mkSettled i t0 (now w) c (u_lead u) :: ss, count', tr')
  end.

(** The earliest rejection among settled tasks. *)
Fixpoint firstRejection (ss : list Settled) : option (N * Error) :=
  match ss with
  | [] => None
  | s :: r =>
      match s_completion s, firstRejection r with
      | Throw e, Some (t, e') => if s_end s <=? t then Some (s_end s, e) else Some (t, e')
      | Throw e, None => Some (s_end s, e)
      | Normal _, o => o
      end
  end.

(** [await Promise.all(tasks)]: fulfilled when the last task has, rejected
    as soon as one task is. *)
Definition awaitAll (t0 : N) (ss : list Settled) : Completion unit * N :=
  match firstRejection ss with
  | Some (t, e) => (Throw e, t)
  | None => (Normal tt, foldr N.max t0 (s_end <$> ss))
  end.

(** The state of the enrichment loop: [leadsToEnrich], [enrichedCount],
    and the batches run so far. The code keeps no list of batches;
    [ph_schedule] records them for the statements about the loop. *)
Record PhaseState := mkPhase {
  ph_leads : list Lead;
  ph_count : N;
  ph_schedule : list (list Settled)
}.

Definition batchBanner (i len batchLen : nat) : string :=
  "Enriching batch " +:+ pretty (i `div` batchSize + 1)%nat +:+ "/"
  +:+ pretty ((len + batchSize - 1) `div` batchSize)%nat +:+ " ("
  +:+ pretty batchLen +:+ " leads in parallel)".

(** [for (let i = 0; i < leadsToEnrich.length; i += batchSize) { ... }],
    entered at index [i]; [fuel] bounds the number of turns. *)
Fixpoint enrichFrom (fuel : nat) (env : Env) (input : Input) (i : nat)
    (st : PhaseState) (w : World)
  : option (Completion unit * PhaseState * World) :=
  match fuel with
  | O => None
  | S fuel' =>
      let leads := ph_leads st in
      if (i <? length leads)%nat then
        let batch := take batchSize (drop i leads) in
        let w1 := snd (log Info (batchBanner i (length leads) (length batch)) w) in
        let '(settled, count', tr') :=
          startAll env input (now w1) i batch (ph_count st) (trace w1) in
        let leads' :=
          (take i leads ++ (s_lead <$> settled) ++ drop (i + batchSize) leads)%list in
        let st' := mkPhase leads' count' (ph_schedule st ++ [settled])%list in
        match awaitAll (now w1) settled with
        | (Throw e, t) => Some (Throw e, st', mkWorld t tr')
        | (Normal _, t) =>
            let w2 := mkWorld t tr' in
            let w3 :=
              if (i + batchSize <? length leads)%nat
              then snd (sleep env 500 w2) else w2 in
            enrichFrom fuel' env input (i + batchSize) st' w3
        end
      else Some (Normal tt, st, w)
  end.

(** The loop over all of [leadsToEnrich]. *)
Definition enrichAll (env : Env) (input : Input) (leadsToEnrich : list Lead)
    (w : World) : option (Completion unit * PhaseState * World) :=
  enrichFrom (S (length leadsToEnrich)) env input 0 (mkPhase leadsToEnrich 0 []) w.

(** [mergedLeads.filter(lead => lead.online?.website)] *)
Definition leadsToEnrich (mergedLeads : list Lead) : list Lead :=
  List.filter (fun lead => truthy (online_website lead)) mergedLeads.

(** ** [main.js]: the generation phase *)

Definition someDraft (o : Outreach) : bool :=
  Js.truthyStr (coldEmail o) || Js.truthyStr (voicemail o) || Js.truthyStr (sms o).

(** One turn of [for (let i = 0; i < mergedLeads.length; i++)], for the lead
    at index [i] of [len]. [EvGenerate i] marks in the trace the instant at
    which [generateOutreach] is called; it is no effect of the code. *)
Definition generateFor (env : Env) (input : Input) (len i : nat) : Task unit :=
  try_catch
    (let* lead := getLead in
     liftIO (emit (EvGenerate i)) ;;
     let* outreach := liftIO (generateOutreach env lead input) in
     (if someDraft outreach then
        let* t := clock in
        assign (set_ai (mkAiContent (coldEmail outreach) (voicemail outreach)
                          (sms outreach) (toISOString env t))) ;;
        increment
      else ret tt) ;;
     if (i <? len - 1)%nat then liftIO (sleep env 1000) else ret tt)
    (fun error =>
       let* lead := getLead in
       liftIO (log2 Warning ("AI generation failed for " +:+ business_name lead +:+ ":")
                 (message error))).

(** The turns from index [i] on, over the leads not yet visited. A turn
    cannot end the loop: its body is one [try] whose handler only logs. *)
Fixpoint generateFrom (env : Env) (input : Input) (len i : nat)
    (rest : list Lead) (aiCount : N) (w : World) : list Lead * N * World :=
  match rest with
  | [] => ([], aiCount, w)
  | lead :: rest' =>
      let '(_, (u, w')) := generateFor env input len i (mkUnit lead aiCount, w) in
      let '(leads', n, w'') := generateFrom env input len (S i) rest' (u_count u) w' in
      (u_lead u :: leads', n, w'')
  end.

Definition generateAll (env : Env) (input : Input) (mergedLeads : list Lead)
    (w : World) : list Lead * N * World :=
  generateFrom env input (length mergedLeads) 0 mergedLeads 0 w.
(** The double quote character. *)
Definition doubleQuote : string := String (ascii_of_N 34) EmptyString.

(** The message of Node for a delay that is no unsigned 32-bit integer. *)
Definition outOfRange (delay : N) : string :=
  "The value of " +:+ doubleQuote +:+ "delay" +:+ doubleQuote
  +:+ " is out of range. It must be >= 0 && <= 4294967295. Received "
  +:+ pretty delay.


(** * Vocabulary of the statements *)

(** The world in which [crawlWebsite] calls the direct tier: its two entry
    lines have been logged. *)
Definition entered (domain : string) (w : World) : World :=
  snd ((log Info ("Crawling website: " +:+ domain) ;;
        log Debug ("Trying simple fetch for " +:+ domain)) w).

(** The result built from the content [h] fetched at [startUrl], and from
    nothing else. *)
Definition singlePage (startUrl h : string) : CrawlResult :=
  let crawledPages := [mkPage startUrl (extractTitle h) h] in
  mkCrawlResult crawledPages (buildMetadata crawledPages (htmlToText h)) (htmlToText h).

Definition isBrowserEvent (ev : Event) : bool :=
  match ev with
  | EvLaunch | EvNewContext | EvNewPage | EvGoto _ | EvWaitForTimeout _
  | EvContent | EvTitle | EvClose => true
  | _ => false
  end.

(** The calls made to the browser, in a trace. *)
Definition browserEvents (tr : list (N * Event)) : list (N * Event) :=
  List.filter (fun te => isBrowserEvent (snd te)) tr.

Definition isLaunch (ev : Event) : bool :=
  match ev with EvLaunch => true | _ => false end.

Definition isClose (ev : Event) : bool :=
  match ev with EvClose => true | _ => false end.

(** How many times a trace starts a browser, and how many times it closes
    one. *)
Definition launches (tr : list (N * Event)) : nat :=
  length (List.filter (fun te => isLaunch (snd te)) tr).

Definition closes (tr : list (N * Event)) : nat :=
  length (List.filter (fun te => isClose (snd te)) tr).

(** The world in which [crawlWebsite] falls back to the browser after the
    direct tier gave up at its time limit. *)
Definition timedOut (startUrl domain : string) (w : World) : World :=
  snd ((elapse 10000 ;;
        emit (EvAbort startUrl) ;;
        log Debug ("Simple fetch failed for " +:+ domain +:+ ": "
                   +:+ "This operation was aborted") ;;
        log Info ("Using Playwright for " +:+ domain))
         (snd (emit (EvFetch startUrl) (entered domain w)))).

Definition isNormal {A} (c : Completion A) : bool :=
  match c with Normal _ => true | Throw _ => false end.

(** Every call to the browser succeeds, and navigation ends within its
    15000 ms. *)
Definition browserOk (br : Browser) : bool :=
  isNormal (outcome (b_launch br))
  && isNormal (outcome (b_newContext br))
  && isNormal (outcome (b_newPage br))
  && (took (b_goto br) <? 15000)
  && isNormal (outcome (b_goto br))
  && isNormal (b_settle br)
  && isNormal (outcome (b_content br))
  && isNormal (outcome (b_title br))
  && isNormal (outcome (b_close br)).

(** The three feature flags are present in a metadata object and all set
    to [false]. *)
Definition flagsAllFalse (m : gmap string MetaVal) : Prop :=
  m !! "hasContactForm" = Some (MBool false)
  /\ m !! "hasBookingWidget" = Some (MBool false)
  /\ m !! "hasChatWidget" = Some (MBool false).

(** A populated result: one page, and the metadata computed from the
    content it carries. *)
Definition populated (r : CrawlResult) : Prop :=
  exists p, pages r = [p] /\ metadata r = buildMetadata [p] (htmlContent r).

(** * Scenarios *)

Module Scenario.

(** A browser that renders [h] under the title [t] without a fault. *)
Definition steadyBrowser (h t : string) : Browser :=
  mkBrowser (mkTimed 100 (Normal tt)) (mkTimed 10 (Normal tt))
    (mkTimed 10 (Normal tt)) (mkTimed 500 (Normal tt)) (Normal tt)
    (mkTimed 5 (Normal h)) (mkTimed 5 (Normal t)) (mkTimed 20 (Normal tt)).

(** A response [200 OK] carrying [h], its header after [t] milliseconds. *)
Definition served (t : N) (h : string) : Timed Response :=
  mkTimed t (Normal (mkResponse true 200 "OK" (mkTimed 5 (Normal h)))).

(** An environment in which every URL is well formed, the network answers
    [resp], the browser is [br], timers are punctual, and the modules
    around the engine find nothing. *)
Definition world (resp : Timed Response) (br : Browser) : Env :=
  mkEnv (fun _ => Normal "shop.example") (fun _ => resp) (fun _ => br)
    (fun _ => 0)
    (fun _ => Throw (mkError "Unexpected token")) (fun _ => "{}")
    (fun _ _ _ => mkProcess None None None "" "")
    (fun _ _ => Normal []) (fun _ => Normal []) (fun _ => Normal ∅)
    (fun _ => Normal ∅)
    None (fun _ _ _ => mkTimed 0 (Throw (mkError "fetch failed")))
    (fun _ _ => "") (fun _ => emptyOutreach) (fun _ => "") outOfRange.

Definition input : Input := mkInput true None true None None.

Definition start : World := mkWorld 0 [].

(** A page of exactly 8000 units whose markup holds a contact form, with
    the words "contact" and "submit" inside its tags only. *)
Definition formMarkup : string :=
  "<title>Shop</title><form action=/contact><input type=submit></form>".

Definition formPage : string :=
  formMarkup +:+ Js.replicate (N.to_nat (8000 - Js.jsLength formMarkup)) "x".

(** A page of exactly 3000 units that says "Access Denied". *)
Definition deniedPage : string :=
  "Access Denied" +:+ Js.replicate (N.to_nat (3000 - 13)) ".".

(** A page of 6000 units made of tags alone: its text is empty. *)
Fixpoint tags (n : nat) : string :=
  match n with O => EmptyString | S n' => "<p>" +:+ tags n' end.

Definition hollowPage : string := tags 2000.

(** The direct tier answers with the form page after 50 ms. *)
Definition formEnv : Env := world (served 50 formPage) (steadyBrowser "" "").

(** The direct tier is still waiting when its ten seconds are over; the
    browser then renders a short page. *)
Definition slowEnv : Env :=
  world (served 20000 formPage) (steadyBrowser "<html>contact form</html>" "Shop").

(** A browser whose navigation is still pending after 15000 ms. *)
Definition stalledBrowser : Browser :=
  mkBrowser (mkTimed 100 (Normal tt)) (mkTimed 10 (Normal tt))
    (mkTimed 10 (Normal tt)) (mkTimed 60000 (Normal tt)) (Normal tt)
    (mkTimed 5 (Normal "")) (mkTimed 5 (Normal "")) (mkTimed 20 (Normal tt)).

(** The direct tier gets the 3000-unit denial page; navigation stalls. *)
Definition deniedEnv : Env := world (served 50 deniedPage) stalledBrowser.

(** A browser that starts, and then fails to open a context. *)
Definition crashingBrowser : Browser :=
  mkBrowser (mkTimed 100 (Normal tt))
    (mkTimed 10 (Throw (mkError "browser.newContext: Target closed")))
    (mkTimed 10 (Normal tt)) (mkTimed 500 (Normal tt)) (Normal tt)
    (mkTimed 5 (Normal "")) (mkTimed 5 (Normal "")) (mkTimed 20 (Normal tt)).

Definition crashEnv : Env := world (served 50 deniedPage) crashingBrowser.

End Scenario.

(** * Vocabulary of the external crawler *)

Definition isStdinEvent (ev : Event) : bool :=
  match ev with EvStdinWrite _ | EvStdinEnd => true | _ => false end.

(** What a trace sends to the standard input of a child. *)
Definition stdinEvents (tr : list (N * Event)) : list (N * Event) :=
  List.filter (fun te => isStdinEvent (snd te)) tr.

Definition isKill (ev : Event) : bool :=
  match ev with EvKill => true | _ => false end.

Definition kills (tr : list (N * Event)) : nat :=
  length (List.filter (fun te => isKill (snd te)) tr).

(** The child closes before the timer set for it fires. *)
Definition respondsInTime (python : Process) (fires : N) : bool :=
  match p_closes python with
  | Some t => t <? fires
  | None => false
  end.

(** The line that the [close] handler hands to [JSON.parse]. *)
Definition lastLine (output : string) : string :=
  Js.lastOf (Js.splitLines (Js.trim output)).

(** The digit of a value below 16, in lower case. *)
Definition hexDigit (n : N) : ascii :=
  ascii_of_N (if n <? 10 then 48 + n else 87 + n).

(** A character as [JSON.stringify] writes it inside a string. *)
Definition jsonChar (c : ascii) : string :=
  let n := N_of_ascii c in
  if n =? 34 then String "\" doubleQuote
  else if n =? 92 then "\\"
  else if n =? 8 then "\b"
  else if n =? 9 then "\t"
  else if n =? 10 then "\n"
  else if n =? 12 then "\f"
  else if n =? 13 then "\r"
  else if n <? 32 then "\u00" +:+ String (hexDigit (n / 16)) (String (hexDigit (n mod 16)) "")
  else String c "".

Fixpoint jsonChars (s : string) : string :=
  match s with
  | EmptyString => EmptyString
  | String c r => jsonChar c +:+ jsonChars r
  end.

Definition jsonQuote (s : string) : string := doubleQuote +:+ jsonChars s +:+ doubleQuote.

(** [JSON.stringify(j)], for numbers below 10^21. *)
Fixpoint stringify (j : Json) : string :=
  match j with
  | JNull => "null"
  | JBool true => "true"
  | JBool false => "false"
  | JNum n => pretty n
  | JStr s => jsonQuote s
  | JArr items =>
      "["
      +:+ (fix join (l : list Json) : string :=
             match l with
             | [] => ""
             | x :: r =>
                 stringify x +:+ match r with [] => "" | _ :: _ => "," +:+ join r end
             end) items
      +:+ "]"
  | JObj fields =>
      "{"
      +:+ (fix join (l : list (string * Json)) : string :=
             match l with
             | [] => ""
             | (k, v) :: r =>
                 jsonQuote k +:+ ":" +:+ stringify v
                 +:+ match r with [] => "" | _ :: _ => "," +:+ join r end
             end) fields
      +:+ "}"
  end.

Module CrawlerScenario.

Definition client : Crawl4AIClient :=
  mkClient false "python3" "/app/src/enrichment/crawl4ai_wrapper.py".

(** The line that the wrapper prints for a page it could read. *)
Definition answer : string :=
  "{" +:+ doubleQuote +:+ "success" +:+ doubleQuote +:+ ": true, "
  +:+ doubleQuote +:+ "content" +:+ doubleQuote +:+ ": "
  +:+ doubleQuote +:+ "ok" +:+ doubleQuote +:+ "}".

Definition response : Json := JObj [("success", JBool true); ("content", JStr "ok")].

(** The child logs two lines, then prints its answer and a line feed. *)
Definition stdout : string :=
  "[INIT] crawler ready" +:+ Js.nl +:+ "[FETCH] https://shop.example"
  +:+ Js.nl +:+ answer +:+ Js.nl.

(** What [JSON.parse] gives on the texts of the scenario: the answer is
    parsed, a line of the log is refused. *)
Definition parse (s : string) : Completion Json :=
  if String.eqb s answer then Normal response
  else Throw (mkError "Unexpected token").

(** An environment around the child [python]. *)
Definition around (python : Process) : Env :=
  mkEnv (fun _ => Normal "shop.example")
    (fun _ => mkTimed 0 (Throw (mkError "fetch failed")))
    (fun _ => Scenario.stalledBrowser) (fun _ => 0)
    parse stringify
    (fun _ _ _ => python)
    (fun _ _ => Normal []) (fun _ => Normal []) (fun _ => Normal ∅)
    (fun _ => Normal ∅)
    None (fun _ _ _ => mkTimed 0 (Throw (mkError "fetch failed")))
    (fun _ _ => "") (fun _ => emptyOutreach) (fun _ => "") outOfRange.

(** The child closes after 1200 ms with exit code 0. *)
Definition env : Env :=
  around (mkProcess None (Some 1200) (Some 0) stdout "[LOG] progress").

(** No [python3] is installed: the child cannot be started. *)
Definition missingEnv : Env :=
  around (mkProcess (Some (mkError "spawn python3 ENOENT")) None None "" "").

End CrawlerScenario.

(** * Vocabulary of the enrichment phase *)

(** The world in which a task calls [crawlWebsite]: its entry line has been
    logged. *)
Definition announced (lead : Lead) (w : World) : World :=
  snd (log Info ("Enriching: " +:+ business_name lead) w).

Definition addEmails (emails : list EmailEntry) (l : Lead) : Lead :=
  if nonEmpty emails then set_emails (contacts_emails l ++ emails)%list l else l.

Definition addPhones (phones : list PhoneEntry) (l : Lead) : Lead :=
  if nonEmpty phones then set_phones (contacts_phones l ++ phones)%list l else l.

(** The lead with all five signals of one acquisition result merged in. *)
Definition mergeSignals (r : CrawlResult) (hasHttps : bool)
    (emails : list EmailEntry) (phones : list PhoneEntry)
    (socials : gmap string string) (techSignals : gmap string bool)
    (l : Lead) : Lead :=
  set_techSignals techSignals
    (set_websiteSignals
       (mkWebsiteSignals hasHttps
          (flagOr (metadata r) "hasContactForm")
          (flagOr (metadata r) "hasBookingWidget")
          (flagOr (metadata r) "hasChatWidget"))
       (set_socials socials (addPhones phones (addEmails emails l)))).

(** The four extractors, run on one content: their results, or the first
    throw. *)
Definition extractAll (env : Env) (content : string) (domain : option string)
  : Completion (list EmailEntry * list PhoneEntry * gmap string string
                * gmap string bool) :=
  match extractEmails env content domain with
  | Throw e => Throw e
  | Normal emails =>
      match extractPhones env content with
      | Throw e => Throw e
      | Normal phones =>
          match extractSocials env content with
          | Throw e => Throw e
          | Normal socials =>
              match detectTechSignals env content with
              | Throw e => Throw e
              | Normal techSignals => Normal (emails, phones, socials, techSignals)
              end
          end
      end
  end.

Definition isAlert (ev : Event) : bool :=
  match ev with EvLog Warning _ _ | EvLog Err _ _ => true | _ => false end.

(** The warnings and the errors logged in a trace. *)
Definition alerts (tr : list (N * Event)) : list (N * Event) :=
  List.filter (fun te => isAlert (snd te)) tr.

Module UnitScenario.

Definition lead : Lead :=
  mkLead "Corner Shop" (JsStr "shop.example") (Some "shop.example")
    [mkEmail "owner@shop.example"] [] None None None None.

(** The direct tier gets a page of 6000 units made of tags alone. *)
Definition hollowEnv : Env :=
  Scenario.world (Scenario.served 50 Scenario.hollowPage)
    (Scenario.steadyBrowser "" "").

(** The browser renders a page with a form; the extractors find an address,
    a telephone number and a profile. *)
Definition richEnv : Env :=
  mkEnv (fun _ => Normal "shop.example")
    (fun _ => mkTimed 20000 (Throw (mkError "fetch failed")))
    (fun _ => Scenario.steadyBrowser "<html>contact form</html>" "Shop")
    (fun _ => 0)
    (fun _ => Throw (mkError "Unexpected token")) (fun _ => "{}")
    (fun _ _ _ => mkProcess None None None "" "")
    (fun _ _ => Normal [mkEmail "hello@shop.example"])
    (fun _ => Normal [mkPhone "555-0100"])
    (fun _ => Normal {["facebook" := "https://facebook.com/shop"]})
    (fun _ => Normal {["googleAnalytics" := true]})
    None (fun _ _ _ => mkTimed 0 (Throw (mkError "fetch failed")))
    (fun _ _ => "") (fun _ => emptyOutreach) (fun _ => "") outOfRange.

End UnitScenario.

(** What a task makes of a lead: the lead it leaves, run from the origin. *)
Definition enriched (env : Env) (input : Input) (lead : Lead) : Lead :=
  u_lead (fst (snd (enrichLead env input (mkUnit lead 0, mkWorld 0 [])))).

(** The latest end among the tasks of a batch started at [t0]. *)
Definition batchEnd (t0 : N) (b : list Settled) : N := foldr N.max t0 (s_end <$> b).

(** Batches that follow one another from the instant [t] on: the tasks of a
    batch start together, each of them ends, fulfilled, and the next batch
    starts no sooner than 500 ms after the last of them has ended. *)
Fixpoint paced (t : N) (bs : list (list Settled)) : Prop :=
  match bs with
  | [] => True
  | b :: rest =>
      exists t0,
        t <= t0
        /\ Forall (fun u => s_start u = t0 /\ t0 <= s_end u
                            /\ s_completion u = Normal tt) b
        /\ paced (batchEnd t0 b + 500) rest
  end.

(** A computation whose completion does not depend on the world it starts
    from, and which never sets the clock back. *)
Definition steady {A} (m : IO A) : Prop :=
  (forall w1 w2, fst (m w1) = fst (m w2))
  /\ (forall w, now w <= now (snd (m w))).

(** * Vocabulary of the generation phase *)

(** The calls to [generateOutreach] marked in a trace: instant and index. *)
Fixpoint marks (tr : list (N * Event)) : list (N * nat) :=
  match tr with
  | [] => []
  | (t, EvGenerate i) :: r => (t, i) :: marks r
  | _ :: r => marks r
  end.

(** The completion service, asked at the instant [t], fails: the request is
    rejected, the status is an error, the body cannot be read, or it is no
    JSON. *)
Definition serviceFails (env : Env) (t : N) (apiKey prompt : string) : bool :=
  match outcome (openai env t apiKey prompt) with
  | Throw _ => true
  | Normal response =>
      negb (ok response)
      || match outcome (body response) with
         | Throw _ => true
         | Normal bodyText => negb (isNormal (JSON_parse env bodyText))
         end
  end.

(** The call for [lead] issued at the instant [t] fails: no key is
    configured, or the service fails. *)
Definition callFails (env : Env) (input : Input) (lead : Lead) (t : N) : bool :=
  match orElse (ai_openaiApiKey input) (OPENAI_API_KEY env) with
  | None | Some EmptyString => true
  | Some apiKey => serviceFails env t apiKey (buildPrompt env lead input)
  end.

(** The world in which the call for the lead at index [i] is issued. *)
Definition marked (i : nat) (w : World) : World := snd (emit (EvGenerate i) w).

Module GenerationScenario.

Definition named (name : string) : Lead :=
  mkLead name (JsStr "shop.example") None [] [] None None None None.

Definition leads : list Lead := [named "A"; named "B"; named "C"].

Definition draft : Outreach := mkOutreach "Subject: Hello" "Hi, this is" "Hi".

Definition reply : Json :=
  JObj [("choices", JArr [JObj [("message", JObj [("content", JStr "draft")])]])].

(** The service answers within 800 ms, except for lead B, whose request is
    rejected. *)
Definition env : Env :=
  mkEnv (fun _ => Normal "shop.example")
    (fun _ => mkTimed 0 (Throw (mkError "fetch failed")))
    (fun _ => Scenario.stalledBrowser) (fun _ => 0)
    (fun _ => Normal reply) (fun _ => "{}")
    (fun _ _ _ => mkProcess None None None "" "")
    (fun _ _ => Normal []) (fun _ => Normal []) (fun _ => Normal ∅)
    (fun _ => Normal ∅)
    (Some "sk-key")
    (fun _ _ prompt =>
       if String.eqb prompt "B" then mkTimed 300 (Throw (mkError "fetch failed"))
       else mkTimed 800 (Normal (mkResponse true 200 "OK" (mkTimed 10 (Normal "{}")))))
    (fun lead _ => business_name lead) (fun _ => draft) (fun _ => "2024-01-01")
    outOfRange.

End GenerationScenario.

(** Instants at least 1000 ms apart, each from the one before. *)
Definition spaced (ts : list N) : Prop :=
  forall k t t', ts !! k = Some t -> ts !! S k = Some t' -> t + 1000 <= t'.

(** What the generation phase may do to a lead: nothing, or set its [ai]
    field. *)
Definition aiOnly (lead lead' : Lead) : Prop :=
  lead' = lead \/ exists a, lead' = set_ai a lead.

(** * Further vocabulary *)

Definition isFetch (ev : Event) : bool :=
  match ev with EvFetch _ => true | _ => false end.

(** How many requests a trace sends. *)
Definition fetches (tr : list (N * Event)) : nat :=
  length (List.filter (fun te => isFetch (snd te)) tr).

(** The events by which a tier begins: the request of the direct tier and
    the start of a browser. *)
Definition isTierEvent (ev : Event) : bool :=
  match ev with EvFetch _ | EvLaunch => true | _ => false end.

(** The tiers that a trace begins, in the order in which it begins them. *)
Definition tierEvents (tr : list (N * Event)) : list Event :=
  snd <$> List.filter (fun te => isTierEvent (snd te)) tr.

(** The direct tier's result is not taken: the fetch failed, or its content
    has fewer than 5000 units, or it holds a block marker. *)
Definition unusable (r : SimpleResult) : Prop :=
  success r = false
  \/ exists h, html r = Some h /\ (Js.jsLength h < 5000 \/ hasBlockMarker h = true).

(** How long the browser tier takes when every call succeeds. *)
Definition renderTime (br : Browser) : N :=
  took (b_launch br) + took (b_newContext br) + took (b_newPage br)
  + took (b_goto br) + 2000 + took (b_content br) + took (b_title br)
  + took (b_close br).

(** Generation is enabled and a non-empty key is configured, in the input
    or in the environment. *)
Definition keyed (env : Env) (options : Input) : bool :=
  ai_enabled options
  && match orElse (ai_openaiApiKey options) (OPENAI_API_KEY env) with
     | Some (String _ _) => true
     | _ => false
     end.

(** [lead.ai?.coldEmail || lead.ai?.voicemail || lead.ai?.sms], as the run
    summary of [main.js] counts the leads with generated content. *)
Definition hasAiContent (lead : Lead) : bool :=
  match lead_ai lead with
  | Some a =>
      Js.truthyStr (ai_coldEmail a) || Js.truthyStr (ai_voicemail a)
      || Js.truthyStr (ai_sms a)
  | None => false
  end.

(** The [aiCount] of the run summary:
    [mergedLeads.filter(lead => ...).length]. *)
Definition summaryAiCount (mergedLeads : list Lead) : N :=
  N.of_nat (length (List.filter hasAiContent mergedLeads)).

(** * Vocabulary of texts *)

(** Every white-space character of the string is a plain space, and no two
    of them are adjacent; [afterSpace] tells whether a space precedes. *)
Fixpoint singleSpaced (afterSpace : bool) (s : string) : bool :=
  match s with
  | EmptyString => true
  | String c r =>
      if Js.isSpace c
      then Ascii.eqb c " " && negb afterSpace && singleSpaced true r
      else singleSpaced false r
  end.

(** No ["<"] of the string is followed, anywhere after it, by a [">"]. *)
Fixpoint tagFree (s : string) : bool :=
  match s with
  | EmptyString => true
  | String c r => negb (Ascii.eqb c "<" && Js.hasChar ">" r) && tagFree r
  end.

(** The string holds no plain space. *)
Definition spaceFree (s : string) : bool := negb (Js.hasChar " " s).

(** * [enrichment/crawl4aiClient.js], the rest of the client *)

(** [urls.indexOf(url)]: the first index at which [url] occurs, or [-1]. *)
Fixpoint indexOfFrom (i : Z) (url : string) (urls : list string) : Z :=
  match urls with
  | [] => (-1)%Z
  | u :: rest => if String.eqb u url then i else indexOfFrom (i + 1)%Z url rest
  end.

Definition indexOf (url : string) (urls : list string) : Z := indexOfFrom 0 url urls.

(** The loop of [crawlMultiple], with [todo] still to visit and [results]
    pushed so far. *)
Fixpoint crawlEach (env : Env) (this : Crawl4AIClient) (urls : list string)
    (options : option N) (todo : list string) (results : list Json)
  : Node (list Json) :=
  match todo with
  | [] => fromIO (ret results)
  | url :: todo' =>
      nodeBind (crawlUrl env this url options) (fun result =>
        let results := (results ++ [result])%list in
        nodeBind
          (fromIO (if (indexOf url urls <? Z.of_nat (length urls) - 1)%Z
                   then sleep env 500 else ret tt))
          (fun _ => crawlEach env this urls options todo' results))
  end.

Definition crawlMultiple (env : Env) (this : Crawl4AIClient) (urls : list string)
    (options : option N) : Node (list Json) :=
  crawlEach env this urls options urls [].

(** The timers of 500 ms that a trace sets. *)
Definition isPause (ev : Event) : bool :=
  match ev with EvSetTimeout ms => ms =? 500 | _ => false end.

Definition pauses (tr : list (N * Event)) : nat :=
  length (List.filter (fun te => isPause (snd te)) tr).

(** The requests written to a child and the timers of 500 ms. *)
Definition isPaceEvent (ev : Event) : bool :=
  match ev with
  | EvStdinWrite _ => true
  | EvSetTimeout ms => ms =? 500
  | _ => false
  end.

(** The requests and the pauses of a trace, in the order of the trace. *)
Definition requestsAndPauses (tr : list (N * Event)) : list Event :=
  snd <$> List.filter (fun te => isPaceEvent (snd te)) tr.

(** Requests with a pause of 500 ms after each of them but the last, and
    after the last one too when [lastToo] holds. *)
Fixpoint withPauses (requests : list Event) (lastToo : bool) : list Event :=
  match requests with
  | [] => []
  | [r] => r :: (if lastToo then [EvSetTimeout 500] else [])
  | r :: rest => r :: EvSetTimeout 500 :: withPauses rest lastToo
  end.

(** The child that [crawlUrl] starts for [url] can be started. *)
Definition starts (env : Env) (this : Crawl4AIClient) (options : option N)
    (url : string) : bool :=
  match p_spawnError
          (child_process env (pythonPath this) [wrapperPath this]
             (JSON_stringify env
                (JObj [("url", JStr url); ("timeout", JNum (default 30 options))])))
  with
  | None => true
  | Some _ => false
  end.

(** The last element of the list occurs earlier in it too. *)
Definition lastRepeated (urls : list string) : bool :=
  match rev urls with
  | [] => false
  | u :: before => existsb (fun v => String.eqb v u) before
  end.

(** [runPythonCommand]: the child is started with [-c command] and nothing
    is written to it; the promise settles when the child closes, and no
    timer is set. No listener waits for the [error] event of a child that
    cannot be started. *)
Definition runPythonCommand (env : Env) (this : Crawl4AIClient) (command : string)
  : Node string :=
  fun w =>
    let w1 := snd (emit (EvSpawn (pythonPath this) ["-c"; command]) w) in
    let python := child_process env (pythonPath this) ["-c"; command] "" in
    match p_spawnError python with
    | Some e => (Dies e, w1)
    | None =>
        match p_closes python with
        | None => (Hangs, w1)
        | Some t =>
            fromIO (elapse t ;;
                    match p_code python with
                    | Some N0 => ret (p_stdout python)
                    | _ =>
                        throw (mkError (if Js.truthyStr (p_stderr python)
                                        then p_stderr python
                                        else "Python command failed"))
                    end) w1
        end
    end.

Definition set_available (b : bool) (this : Crawl4AIClient) : Crawl4AIClient :=
  mkClient b (pythonPath this) (wrapperPath this).

(** The command of [checkAvailability]. *)
Definition probe : string :=
  "import crawl4ai; print(" +:+ doubleQuote +:+ "OK" +:+ doubleQuote +:+ ")".

(** [checkAvailability]: how the call ends, and the client as it leaves
    it. *)
Definition checkAvailability (env : Env) (this : Crawl4AIClient)
  : World -> Fate bool * Crawl4AIClient * World :=
  fun w =>
    match runPythonCommand env this probe w with
    | (Settles (Normal result), w') =>
        let ok := String.eqb (Js.trim result) "OK" in
        (Settles (Normal ok), set_available ok this, w')
    | (Settles (Throw _), w') => (Settles (Normal false), set_available false this, w')
    | (Hangs, w') => (Hangs, this, w')
    | (Dies e, w') => (Dies e, this, w')
    end.

Module Crawl4ai.

(** The object returned by the [simpleFetch] of [crawl4aiClient.js]. *)
Record Result := mkResult {
  success : bool;
  url : option string;
  html : option string;
  text : option string;
  error : option string
}.

(** The fallback of [crawl4aiClient.js]. Its signal is
    [AbortSignal.timeout(timeout)], which refuses a delay above 4294967295
    before anything is fetched; nothing disarms its timer once the header
    has arrived, so that it bounds the reading of the body too. *)
Definition simpleFetch (env : Env) (target : string) (timeout : N) : IO Result :=
  try_catch
    ((if 4294967295 <? timeout then throw (mkError (delayOutOfRange env timeout))
      else ret tt) ;;
     emit (EvFetch target) ;;
     let expired := mkError "The operation was aborted due to timeout" in
     let header := net_fetch env target in
     let* response :=
       await_within (timerDelay timeout) header (emit (EvAbort target)) expired in
     if negb (ok response) then
       throw (mkError ("HTTP " +:+ pretty (status response)))
     else
       let* markup :=
         await_within (timerDelay timeout - took header) (body response)
           (emit (EvAbort target)) expired in
       ret (mkResult true (Some target) (Some markup) (Some (htmlToText markup)) None))
    (fun e => ret (mkResult false None None None (Some (message e)))).

End Crawl4ai.

(** * [utils/cleanOutput.js] *)

Definition CR : ascii := ascii_of_N 13.

(** The characters that [.] does not match when the flag [s] is not set. *)
Definition isLineTerminator (c : ascii) : bool :=
  Ascii.eqb c Js.LF || Ascii.eqb c CR.

(** [(?:\n|$)] at the head of [s]. *)
Definition atLineEnd (s : string) : bool :=
  match s with
  | EmptyString => true
  | String c _ => Ascii.eqb c Js.LF
  end.

(** [(.+?)(?:\n|$)] at the head of [s]: the group takes one character that
    is no line terminator, and one more each time what follows it does not
    match. *)
Fixpoint lazyLine (s : string) : option string :=
  match s with
  | EmptyString => None
  | String c r =>
      if isLineTerminator c then None
      else if atLineEnd r then Some (String c EmptyString)
      else String c <$> lazyLine r
  end.

(** [\s*(.+?)(?:\n|$)] at the head of [s]: the white space is taken
    greedily and given back one character at a time. *)
Fixpoint subjectAt (s : string) : option string :=
  match s with
  | EmptyString => None
  | String c r =>
      if Js.isSpace c then
        match subjectAt r with
        | Some g => Some g
        | None => lazyLine s
        end
      else lazyLine s
  end.

(** [lead.ai?.coldEmail] is a string or [undefined]. *)
Definition extractEmailSubject (coldEmail : option string) : string :=
  match coldEmail with
  | None | Some EmptyString => ""
  | Some s =>
      if Js.startsWith "Subject:" s then
        match subjectAt (Js.dropStr 8 s) with
        | Some g => Js.trim g
        | None => ""
        end
      else ""
  end.

(** [\n\n(.+)$], with the flag [s], at the head of [s]. *)
Definition afterBlankLine (s : string) : option string :=
  match s with
  | String a (String b (String g rest)) =>
      if Ascii.eqb a Js.LF && Ascii.eqb b Js.LF then Some (String g rest) else None
  | _ => None
  end.

(** [.*?\n\n(.+)$], with the flag [s], at the head of [s]. *)
Fixpoint bodyAt (s : string) : option string :=
  match afterBlankLine s with
  | Some g => Some g
  | None =>
      match s with
      | EmptyString => None
      | String _ r => bodyAt r
      end
  end.

(** The first match of [/Subject:.*?\n\n(.+)$/s] in [s]: its group. *)
Fixpoint emailBodyMatch (s : string) : option string :=
  match (if Js.startsWith "Subject:" s then bodyAt (Js.dropStr 8 s) else None) with
  | Some g => Some g
  | None =>
      match s with
      | EmptyString => None
      | String _ r => emailBodyMatch r
      end
  end.

Definition extractEmailBody (coldEmail : option string) : string :=
  match coldEmail with
  | None | Some EmptyString => ""
  | Some s =>
      match emailBodyMatch s with
      | Some g => Js.trim g
      | None => s
      end
  end.

(** The cold email as [parseOutreachResponse] assembles it:
    [`Subject: ${subject}\n\n${body}`]. *)
Definition coldEmailOf (subject body : string) : string :=
  "Subject: " +:+ subject +:+ Js.nl +:+ Js.nl +:+ body.

(** No character of the string is a line terminator. *)
Fixpoint lineFree (s : string) : bool :=
  match s with
  | EmptyString => true
  | String c r => negb (isLineTerminator c) && lineFree r
  end.

(** Every character of the string is white space. *)
Fixpoint allSpace (s : string) : bool :=
  match s with
  | EmptyString => true
  | String c r => Js.isSpace c && allSpace r
  end.

(** * The patterns of [parseOutreachResponse] *)

(** A blank line: [\n\n]. *)
Definition blank : string := String Js.LF (String Js.LF EmptyString).

(** What ends the group of a pattern: the look-ahead [(?=\n\n|marker)], or
    [$] for the last pattern. *)
Inductive Stop :=
| Before (marker : string)
| AtEnd.

Definition stopAt (stop : Stop) (s : string) : bool :=
  match stop with
  | Before marker => Js.startsWith blank s || Js.startsWith marker s
  | AtEnd => Js.isEmpty s
  end.

(** [(.+?)], with the flag [s], followed by [stop], at the head of [s]: the
    group takes one character, and one more each time [stop] does not
    match after it. *)
Fixpoint lazyUntil (stop : Stop) (s : string) : option string :=
  match s with
  | EmptyString => None
  | String c r =>
      if stopAt stop r then Some (String c EmptyString)
      else String c <$> lazyUntil stop r
  end.

(** [\s*\n(.+?)] followed by [stop], at the head of [s]: the white space is
    taken greedily and given back one character at a time, until the
    character given back is the line feed that the pattern asks for. *)
Fixpoint sectionAt (stop : Stop) (s : string) : option string :=
  match s with
  | EmptyString => None
  | String c r =>
      if Js.isSpace c then
        match sectionAt stop r with
        | Some g => Some g
        | None => if Ascii.eqb c Js.LF then lazyUntil stop r else None
        end
      else None
  end.

(** The first match of [label\s*\n(.+?)] followed by [stop] in [s]: its
    group. *)
Fixpoint sectionMatch (label : string) (stop : Stop) (s : string) : option string :=
  match (if Js.startsWith label s
         then sectionAt stop (Js.dropStr (String.length label) s)
         else None) with
  | Some g => Some g
  | None =>
      match s with
      | EmptyString => None
      | String _ r => sectionMatch label stop r
      end
  end.

(** The body of [parseOutreachResponse] on a string. *)
Definition sections (content : string) : Outreach :=
  let subjectMatch :=
    sectionMatch "COLD_EMAIL_SUBJECT:" (Before "COLD_EMAIL_BODY:") content in
  let bodyMatch := sectionMatch "COLD_EMAIL_BODY:" (Before "VOICEMAIL:") content in
  let voicemailMatch := sectionMatch "VOICEMAIL:" (Before "SMS:") content in
  let smsMatch := sectionMatch "SMS:" AtEnd content in
  mkOutreach
    (match subjectMatch, bodyMatch with
     | Some subject, Some body => coldEmailOf (Js.trim subject) (Js.trim body)
     | _, _ => ""
     end)
    (match voicemailMatch with Some g => Js.trim g | None => "" end)
    (match smsMatch with Some g => Js.trim g | None => "" end).

(** A reply in the format that the prompt of [buildPrompt] asks for. *)
Definition reply (subject body voicemailScript smsMessage : string) : string :=
  "COLD_EMAIL_SUBJECT:" +:+ Js.nl +:+ subject +:+ blank
  +:+ "COLD_EMAIL_BODY:" +:+ Js.nl +:+ body +:+ blank
  +:+ "VOICEMAIL:" +:+ Js.nl +:+ voicemailScript +:+ blank
  +:+ "SMS:" +:+ Js.nl +:+ smsMessage.

(** A text that can stand in a section of the reply: it is not empty, has
    no white space at either end, holds no blank line and none of the
    [labels]. *)
Definition paragraph (labels : list string) (x : string) : bool :=
  Js.truthyStr x
  && String.eqb (Js.trim x) x
  && negb (Js.includes blank x)
  && forallb (fun label => negb (Js.includes label x)) labels.

(** * The run summary of [main.js] *)

(** [sourceCoverage[source] = (sourceCoverage[source] || 0) + 1] *)
Definition countSource (coverage : gmap string N) (source : string) : gmap string N :=
  <[source := default 0 (coverage !! source) + 1]> coverage.

(** [for (const source in lead.sources)]: one step for every key of the
    object, whatever its value. *)
Definition countSources (coverage : gmap string N) (sources : gmap string bool)
  : gmap string N :=
  foldl countSource coverage (map_to_list sources).*1.

(** The [sourceCoverage] of the summary, from the [sources] of the raw
    leads. *)
Definition sourceCoverage (rawLeads : list (gmap string bool)) : gmap string N :=
  foldl countSources ∅ rawLeads.

(** The leads whose [sources] have the key [source]. *)
Definition listed (source : string) (rawLeads : list (gmap string bool)) : N :=
  N.of_nat (length (List.filter (fun sources => bool_decide (is_Some (sources !! source)))
                                rawLeads)).

(** * The discovery phase of [main.js] *)

(** The modules of [discovery/], called with a keyword and a location. *)
Record Scrapers := mkScrapers {
  scrapeGoogleMaps : string -> string -> Timed (list Lead);
  scrapeGoogleMapsApi : string -> string -> Timed (list Lead);
  scrapeYelp : string -> string -> Timed (list Lead);
  scrapeYelpApi : string -> string -> Timed (list Lead);
  scrapeBBB : string -> string -> Timed (list Lead);
  scrapeSERP : string -> string -> Timed (list Lead)
}.

(** What the discovery phase reads of the input. *)
Record Search := mkSearch {
  in_keywords : option (list string);
  in_locations : option (list string);
  in_sources : option (list string);
  in_useApis : bool;
  in_maxTotalResults : option N
}.

(** [sources.includes(name)] *)
Definition listIncludes (name : string) (names : list string) : bool :=
  existsb (String.eqb name) names.

(** [input.sources || ['googleMaps', 'yelp']] *)
Definition sourcesOf (input : Search) : list string :=
  default ["googleMaps"; "yelp"] (in_sources input).

(** [input.maxTotalResults || 500] *)
Definition maxTotal (input : Search) : N :=
  match in_maxTotalResults input with
  | Some n => if n =? 0 then 500 else n
  | None => 500
  end.

(** [rawLeads.length >= (input.maxTotalResults || 500)] *)
Definition full (input : Search) (rawLeads : list Lead) : bool :=
  maxTotal input <=? N.of_nat (length rawLeads).

(** One [try { ... } catch] of the loop: the leads of a source are pushed
    and counted in the log, or its failure is logged. *)
Definition scrapeInto (label failure : string) (op : Timed (list Lead))
    (rawLeads : list Lead) : IO (list Lead) :=
  try_catch
    (let* leads := await op in
     let rawLeads := (rawLeads ++ leads)%list in
     log Info (label +:+ ": " +:+ pretty (N.of_nat (length leads)) +:+ " leads found") ;;
     ret rawLeads)
    (fun error => log2 Err failure (message error) ;; ret rawLeads).

(** The body of the inner loop, up to the test of the total. *)
Definition discoverPair (sc : Scrapers) (input : Search) (location keyword : string)
    (rawLeads : list Lead) : IO (list Lead) :=
  let sources := sourcesOf input in
  log Info ("Processing: " +:+ keyword +:+ " in " +:+ location) ;;
  let* rawLeads :=
    if listIncludes "googleMaps" sources then
      scrapeInto "Google Maps" "Google Maps scraping failed"
        (if in_useApis input then scrapeGoogleMapsApi sc keyword location
         else scrapeGoogleMaps sc keyword location) rawLeads
    else ret rawLeads in
  let* rawLeads :=
    if listIncludes "yelp" sources then
      scrapeInto "Yelp" "Yelp scraping failed"
        (if in_useApis input then scrapeYelpApi sc keyword location
         else scrapeYelp sc keyword location) rawLeads
    else ret rawLeads in
  let* rawLeads :=
    if listIncludes "bbb" sources then
      scrapeInto "BBB" "BBB scraping failed" (scrapeBBB sc keyword location) rawLeads
    else ret rawLeads in
  if listIncludes "serp" sources then
    scrapeInto "SERP" "SERP scraping failed" (scrapeSERP sc keyword location) rawLeads
  else ret rawLeads.

(** [for (const keyword of keywords)], with its [break]. *)
Fixpoint overKeywords (sc : Scrapers) (input : Search) (location : string)
    (keywords : list string) (rawLeads : list Lead) : IO (list Lead) :=
  match keywords with
  | [] => ret rawLeads
  | keyword :: rest =>
      let* rawLeads := discoverPair sc input location keyword rawLeads in
      if full input rawLeads then
        log Info "Max total results reached, stopping discovery" ;;
        ret rawLeads
      else overKeywords sc input location rest rawLeads
  end.

(** [for (const location of locations)], with its [break]. *)
Fixpoint overLocations (sc : Scrapers) (input : Search) (locations : list string)
    (rawLeads : list Lead) : IO (list Lead) :=
  match locations with
  | [] => ret rawLeads
  | location :: rest =>
      let* rawLeads :=
        overKeywords sc input location (default [] (in_keywords input)) rawLeads in
      if full input rawLeads then ret rawLeads
      else overLocations sc input rest rawLeads
  end.

(** The discovery phase: the raw leads it collects. *)
Definition discover (sc : Scrapers) (input : Search) : IO (list Lead) :=
  overLocations sc input (default [] (in_locations input)) [].

(** The leads that an operation gives: none when it fails. *)
Definition gives (op : Timed (list Lead)) : list Lead :=
  match outcome op with
  | Normal leads => leads
  | Throw _ => []
  end.

(** The leads that the sources asked for give for one location and one
    keyword. *)
Definition found (sc : Scrapers) (input : Search) (pair : string * string)
  : list Lead :=
  let '(location, keyword) := pair in
  let sources := sourcesOf input in
  ((if listIncludes "googleMaps" sources then
      gives (if in_useApis input then scrapeGoogleMapsApi sc keyword location
             else scrapeGoogleMaps sc keyword location)
    else [])
   ++ (if listIncludes "yelp" sources then
         gives (if in_useApis input then scrapeYelpApi sc keyword location
                else scrapeYelp sc keyword location)
       else [])
   ++ (if listIncludes "bbb" sources then gives (scrapeBBB sc keyword location) else [])
   ++ (if listIncludes "serp" sources then gives (scrapeSERP sc keyword location) else []))%list.

(** The searches in the order of the loops: every keyword for the first
    location, then for the next. *)
Definition searches (input : Search) : list (string * string) :=
  location ← default [] (in_locations input);
  keyword ← default [] (in_keywords input);
  [(location, keyword)].

(** The leads of the first [k] searches. *)
Definition foundIn (sc : Scrapers) (input : Search) (k : nat) : list Lead :=
  concat (found sc input <$> take k (searches input)).

(** * Deduplication and filters of [main.js] *)

Section Filters.

(** The numbers of the ratings and of the thresholds, read through their
    truthiness and through [<] alone. *)
Variable Num : Type.
Variable zero : Num.
Variable numTruthy : Num -> bool.
Variable numLt : Num -> Num -> bool.

(** What the filters read of a lead: [signals?.reviews?.rating],
    [signals?.reviews?.reviewCount] and [online?.website]. *)
Record Rated := mkRated {
  rated_lead : Lead;
  rating : option Num;
  reviewCount : option Num
}.

(** What this part of the run reads of the input. *)
Record Selection := mkSelection {
  dedupe_enabled : option bool;
  filters_minRating : option Num;
  filters_minReviews : option Num;
  filters_requireWebsite : bool
}.

(** [input.dedupe?.enabled !== false] *)
Definition dedupeOn (input : Selection) : bool :=
  match dedupe_enabled input with
  | Some false => false
  | _ => true
  end.

Definition optNumTruthy (n : option Num) : bool :=
  match n with
  | Some v => numTruthy v
  | None => false
  end.

(** [n || 0] *)
Definition orZero (n : option Num) : Num :=
  match n with
  | Some v => if numTruthy v then v else zero
  | None => zero
  end.

(** [threshold && (value || 0) < threshold] *)
Definition below (threshold value : option Num) : bool :=
  match threshold with
  | Some t => numTruthy t && numLt (orZero value) t
  | None => false
  end.

(** [input.filters?.minRating || input.filters?.minReviews ||
    input.filters?.requireWebsite] *)
Definition filtersAsked (input : Selection) : bool :=
  optNumTruthy (filters_minRating input)
  || optNumTruthy (filters_minReviews input)
  || filters_requireWebsite input.

(** The callback of [mergedLeads.filter]. *)
Definition keeps (input : Selection) (lead : Rated) : bool :=
  if below (filters_minRating input) (rating lead) then false
  else if below (filters_minReviews input) (reviewCount lead) then false
  else if filters_requireWebsite input && negb (truthy (online_website (rated_lead lead)))
  then false
  else true.

(** The arrays of leads, by identity: two names may hold the same array. *)
Definition Arrays : Type := gmap nat (list Rated).

Definition Phase (A : Type) : Type := M (Arrays * World) A.

Definition say (msg : string) : Phase unit :=
  fun '(arrays, w) => let '(c, w') := log Info msg w in (c, (arrays, w')).

(** The elements of the array [ref]. *)
Definition elementsOf (ref : nat) : Phase (list Rated) :=
  fun s => (Normal (default [] (fst s !! ref)), s).

(** [array.length = 0; array.push(...items)] *)
Definition refill (ref : nat) (items : list Rated) : Phase unit :=
  fun '(arrays, w) => (Normal tt, (<[ref := items]> arrays, w)).

(** [processing/merge.js], which is handed an array and returns one: what
    it does to the arrays is left open. *)
Variable mergeLeads : nat -> M Arrays nat.

Definition callMergeLeads (ref : nat) : Phase nat :=
  fun '(arrays, w) => let '(c, arrays') := mergeLeads ref arrays in (c, (arrays', w)).

(** From the choice of [mergedLeads] to the end of the filters: the array
    that [mergedLeads] names from then on. *)
Definition dedupeAndFilter (input : Selection) (rawLeads : nat) : Phase nat :=
  let* mergedLeads :=
    if dedupeOn input then callMergeLeads rawLeads else ret rawLeads in
  let* merged := elementsOf mergedLeads in
  let* raw := elementsOf rawLeads in
  say ("After dedupe: " +:+ pretty (N.of_nat (length merged)) +:+ " unique leads ("
       +:+ pretty (Z.of_nat (length raw) - Z.of_nat (length merged))%Z
       +:+ " duplicates removed)") ;;
  (if filtersAsked input then
     say "Applying filters" ;;
     let* merged := elementsOf mergedLeads in
     let beforeFilter := length merged in
     let filtered := List.filter (keeps input) merged in
     say ("Filters applied: " +:+ pretty (N.of_nat beforeFilter) +:+ " → "
          +:+ pretty (N.of_nat (length filtered)) +:+ " leads") ;;
     refill mergedLeads filtered
   else ret tt) ;;
  ret mergedLeads.

End Filters.

Arguments mkRated {Num}.
Arguments rated_lead {Num}.
Arguments rating {Num}.
Arguments reviewCount {Num}.
Arguments mkSelection {Num}.
Arguments dedupe_enabled {Num}.
Arguments filters_minRating {Num}.
Arguments filters_minReviews {Num}.
Arguments filters_requireWebsite {Num}.
Arguments dedupeOn {Num}.
Arguments filtersAsked {Num}.
Arguments keeps {Num}.
Arguments elementsOf {Num}.
Arguments dedupeAndFilter {Num}.

(** * Properties *)

(** Symbolic execution of a computation, one branch at a time. *)
Ltac io_unfold :=
  unfold try_catch_finally, try_catch, bind, ret, throw, settle, log, log2, emit,
    elapse, await, await_within in *.

Ltac io_step :=
  match goal with
  | |- context [match outcome ?x with _ => _ end] => destruct (outcome x) eqn:?
  | |- context [match ?x with Normal _ => _ | Throw _ => _ end] => destruct x eqn:?
  | |- context [if ?b then _ else _] => destruct b eqn:?
  | |- context [let '(_, _) := ?x in _] => destruct x eqn:?
  end.

Ltac io_run := io_unfold; simpl; repeat (io_step; simpl).

(** ** Timers *)

Arguments timerDelay : simpl never.

(** The limit of the direct tier is within the range of a timer. *)
Lemma timerDelay_10000 : timerDelay 10000 = 10000.
Proof. reflexivity. Qed.

(** A delay within the range is kept. *)
Lemma timerDelay_in_range ms : 1 <= ms -> ms <= 2147483647 -> timerDelay ms = ms.
Proof.
  intros H1 H2. unfold timerDelay.
  destruct (N.leb_spec 1 ms); [|lia].
  destruct (N.leb_spec ms 2147483647); [reflexivity|lia].
Qed.

(** A timer never waits longer than a delay of 1 ms or more asks. *)
Lemma timerDelay_le ms : 1 <= ms -> timerDelay ms <= ms.
Proof.
  intros H. unfold timerDelay.
  destruct ((1 <=? ms) && (ms <=? 2147483647)); lia.
Qed.


(** ** Traces *)

Arguments browserEvents : simpl never.
Arguments launches : simpl never.
Arguments closes : simpl never.

Lemma browserEvents_app tr1 tr2 :
  browserEvents (tr1 ++ tr2) = (browserEvents tr1 ++ browserEvents tr2)%list.
Proof. unfold browserEvents. apply List.filter_app. Qed.

Lemma launches_app tr1 tr2 : launches (tr1 ++ tr2) = (launches tr1 + launches tr2)%nat.
Proof. unfold launches. rewrite List.filter_app. apply length_app. Qed.

Lemma closes_app tr1 tr2 : closes (tr1 ++ tr2) = (closes tr1 + closes tr2)%nat.
Proof. unfold closes. rewrite List.filter_app. apply length_app. Qed.

(** ** The direct tier *)

Lemma jsLength_pos s : 0 < Js.jsLength s -> Js.truthyStr s = true.
Proof. destruct s; [unfold Js.jsLength; simpl; lia | reflexivity]. Qed.

(** A successful direct fetch carries the markup and its text rendering. *)
Lemma simpleFetch_success env url timeout w r w' :
  simpleFetch env url timeout w = (Normal r, w') ->
  success r = true ->
  exists h, html r = Some h /\ text r = Some (htmlToText h).
Proof.
  unfold simpleFetch. io_run; intros H; inversion H; subst; simpl; intros Hs;
    try discriminate; eauto.
Qed.

(** The direct tier never throws. *)
Lemma simpleFetch_total env url timeout w :
  exists r w', simpleFetch env url timeout w = (Normal r, w').
Proof. unfold simpleFetch. io_run; eauto. Qed.

(** The direct tier makes no call to the browser. *)
Lemma simpleFetch_browser_free env url timeout w :
  browserEvents (trace (snd (simpleFetch env url timeout w))) = browserEvents (trace w).
Proof.
  unfold simpleFetch. io_run; rewrite ?browserEvents_app; simpl;
    rewrite ?app_nil_r; reflexivity.
Qed.

(** ** C10 *)

(** C10. For a falsy website URL (missing, null, empty, zero or false),
    [crawlWebsite] returns the empty result at once: the world is left as it
    was, so no tier ran, nothing was fetched, no browser and no process was
    started, and no time passed. *)
Theorem crawlWebsite_falsy_url (env : Env) (websiteUrl : JsVal) (options : Input)
    (w : World) :
  truthy websiteUrl = false ->
  crawlWebsite env websiteUrl options w
  = (Normal (mkCrawlResult [] ∅ ""), w).
Proof. intros H. unfold crawlWebsite. rewrite H. reflexivity. Qed.

Lemma crawlWebsite_falsy_url_witness :
  crawlWebsite (Scenario.world (Scenario.served 50 "") (Scenario.steadyBrowser "" ""))
    (JsStr "") Scenario.input Scenario.start
  = (Normal (mkCrawlResult [] ∅ ""), Scenario.start).
Proof. apply (crawlWebsite_falsy_url _ (JsStr "")). reflexivity. Defined.

(** ** C1 *)

(** C1. When the direct tier returns [success = true] with a content of at
    least 5000 units that holds no block marker, [crawlWebsite] returns the
    one-page result built from that content alone, and its trace holds no
    call to the browser beyond those already there. *)
Theorem crawlWebsite_direct_only (env : Env) (s : string) (options : Input)
    (w : World) (domain : string) (r : SimpleResult) (w2 : World) (h : string) :
  Js.truthyStr s = true ->
  URL_hostname env (startUrlOf s) = Normal domain ->
  simpleFetch env (startUrlOf s) 10000 (entered domain w) = (Normal r, w2) ->
  success r = true ->
  html r = Some h ->
  5000 <= Js.jsLength h ->
  hasBlockMarker h = false ->
  exists w',
    crawlWebsite env (JsStr s) options w = (Normal (singlePage (startUrlOf s) h), w')
    /\ pages (singlePage (startUrlOf s) h) = [mkPage (startUrlOf s) (extractTitle h) h]
    /\ browserEvents (trace w') = browserEvents (trace w).
Proof.
  intros Hs Hd Hf Hok Hh Hlen Hmark.
  destruct (simpleFetch_success _ _ _ _ _ _ Hf Hok) as (h' & Hh' & Ht).
  rewrite Hh in Hh'. inversion Hh'; subst h'.
  pose proof (simpleFetch_browser_free env (startUrlOf s) 10000 (entered domain w)) as Hb.
  rewrite Hf in Hb. simpl in Hb.
  assert (Hgood : goodContent r = Some h).
  { unfold goodContent. rewrite Hok, Hh.
    rewrite (jsLength_pos h) by lia.
    replace (1000 <? Js.jsLength h) with true by (symmetry; apply N.ltb_lt; lia).
    reflexivity. }
  assert (Hblk : isBlocked h = false).
  { unfold isBlocked. rewrite Hmark. simpl. apply N.ltb_ge. lia. }
  unfold crawlWebsite. simpl. rewrite Hs. simpl.
  unfold entered in Hf, Hb. unfold buildCrawlResult.
  io_unfold. simpl in *. rewrite Hd. simpl. rewrite Hf. rewrite Hgood, Hblk. simpl.
  rewrite Ht. simpl.
  eexists. split; [reflexivity|]. split; [reflexivity|]. simpl.
  rewrite !browserEvents_app. rewrite Hb, !browserEvents_app.
  unfold browserEvents. simpl. rewrite !app_nil_r. reflexivity.
Qed.

Lemma crawlWebsite_direct_only_witness :
  exists w',
    crawlWebsite Scenario.formEnv (JsStr "shop.example") Scenario.input Scenario.start
    = (Normal (singlePage "https://shop.example" Scenario.formPage), w')
    /\ pages (singlePage "https://shop.example" Scenario.formPage)
       = [mkPage "https://shop.example" (extractTitle Scenario.formPage) Scenario.formPage]
    /\ browserEvents (trace w') = browserEvents (trace Scenario.start).
Proof.
  pose (x := simpleFetch Scenario.formEnv "https://shop.example" 10000
               (entered "shop.example" Scenario.start)).
  apply (crawlWebsite_direct_only Scenario.formEnv "shop.example" Scenario.input
           Scenario.start "shop.example"
           (match fst x with Normal r => r | Throw _ => mkSimpleResult false None None None end)
           (snd x) Scenario.formPage).
  - reflexivity.
  - reflexivity.
  - vm_compute. reflexivity.
  - vm_compute. reflexivity.
  - vm_compute. reflexivity.
  - apply N.leb_le. vm_compute. reflexivity.
  - vm_compute. reflexivity.
Defined.

(** ** The browser tier *)

(** The browser tier never throws. *)
Lemma crawlWithPlaywright_total env startUrl domain maxPages options w :
  exists r w', crawlWithPlaywright env startUrl domain maxPages options w = (Normal r, w').
Proof. unfold crawlWithPlaywright, buildCrawlResult. io_run; eauto. Qed.

(** The browser tier asks for a browser once. *)
Lemma crawlWithPlaywright_launches env startUrl domain maxPages options w :
  launches (trace (snd (crawlWithPlaywright env startUrl domain maxPages options w)))
  = S (launches (trace w)).
Proof.
  unfold crawlWithPlaywright, buildCrawlResult.
  io_run; rewrite ?launches_app; unfold launches; simpl; lia.
Qed.

(** ** C2 *)

(** C2. When the fetch of the direct tier is still pending at its limit of
    10000 ms, the direct tier returns [success = false] with the abort as
    its reason, and [crawlWebsite] then runs the browser tier and returns
    what that tier returns, empty or not; the browser is asked for exactly
    once. *)
Theorem crawlWebsite_fetch_timeout (env : Env) (s : string) (options : Input)
    (w : World) (domain : string) :
  Js.truthyStr s = true ->
  URL_hostname env (startUrlOf s) = Normal domain ->
  10000 <= took (net_fetch env (startUrlOf s)) ->
  fst (simpleFetch env (startUrlOf s) 10000 (entered domain w))
  = Normal (mkSimpleResult false None None (Some "This operation was aborted"))
  /\ crawlWebsite env (JsStr s) options w
     = crawlWithPlaywright env (startUrlOf s) domain (maxPagesOf options) options
         (timedOut (startUrlOf s) domain w)
  /\ launches (trace (snd (crawlWebsite env (JsStr s) options w)))
     = S (launches (trace w)).
Proof.
  intros Hs Hd Hslow.
  assert (Hlt : (took (net_fetch env (startUrlOf s)) <? 10000) = false)
    by (apply N.ltb_ge; lia).
  assert (Hcrawl : crawlWebsite env (JsStr s) options w
     = crawlWithPlaywright env (startUrlOf s) domain (maxPagesOf options) options
         (timedOut (startUrlOf s) domain w)).
  { unfold crawlWebsite. simpl. rewrite Hs. simpl.
    destruct (crawlWithPlaywright_total env (startUrlOf s) domain (maxPagesOf options)
                options (timedOut (startUrlOf s) domain w)) as (r & w' & Hr).
    rewrite Hr. unfold timedOut, entered in Hr. unfold simpleFetch.
    rewrite timerDelay_10000.
    io_unfold. simpl in *. rewrite Hd. simpl. rewrite Hlt. simpl.
    unfold goodContent. simpl. rewrite Hr. reflexivity. }
  split; [|split].
  - unfold simpleFetch. rewrite timerDelay_10000. io_unfold. simpl.
    rewrite Hlt. reflexivity.
  - exact Hcrawl.
  - rewrite Hcrawl, crawlWithPlaywright_launches.
    unfold timedOut, entered. io_unfold. simpl.
    rewrite !launches_app. unfold launches. simpl. lia.
Qed.

Lemma crawlWebsite_fetch_timeout_witness :
  fst (simpleFetch Scenario.slowEnv "https://shop.example" 10000
         (entered "shop.example" Scenario.start))
  = Normal (mkSimpleResult false None None (Some "This operation was aborted"))
  /\ crawlWebsite Scenario.slowEnv (JsStr "shop.example") Scenario.input Scenario.start
     = crawlWithPlaywright Scenario.slowEnv "https://shop.example" "shop.example" 10
         Scenario.input (timedOut "https://shop.example" "shop.example" Scenario.start)
  /\ launches (trace (snd (crawlWebsite Scenario.slowEnv (JsStr "shop.example")
                             Scenario.input Scenario.start)))
     = S (launches (trace Scenario.start)).
Proof.
  apply (crawlWebsite_fetch_timeout Scenario.slowEnv "shop.example" Scenario.input
           Scenario.start "shop.example").
  - reflexivity.
  - reflexivity.
  - apply N.leb_le. vm_compute. reflexivity.
Defined.

(** ** C6 *)

(** Once a page exists, the browser is closed exactly once on every path:
    navigation failure, a fault while reading the page, success. *)
Lemma crawlWithPlaywright_closes_after_page env startUrl domain maxPages options w :
  let br := chromium env startUrl in
  isNormal (outcome (b_launch br)) = true ->
  isNormal (outcome (b_newContext br)) = true ->
  isNormal (outcome (b_newPage br)) = true ->
  closes (trace (snd (crawlWithPlaywright env startUrl domain maxPages options w)))
  = S (closes (trace w)).
Proof.
  unfold crawlWithPlaywright, buildCrawlResult.
  io_run; intros; try discriminate; rewrite ?closes_app; unfold closes; simpl; lia.
Qed.

(** C6, at the failing input. The browser starts and [newContext] then
    rejects: the tier returns the empty result having launched one browser
    and closed none. The calls [newContext] and [newPage] stand outside the
    [try] whose [finally] closes the browser. *)
Theorem crawlWithPlaywright_leaks_browser :
  let run := crawlWithPlaywright Scenario.crashEnv "https://shop.example"
               "shop.example" 10 Scenario.input Scenario.start in
  fst run = Normal emptyResult
  /\ launches (trace (snd run)) = 1%nat
  /\ closes (trace (snd run)) = 0%nat.
Proof. vm_compute. auto. Qed.

(** ** C3 *)

Lemma simpleFetch_launches env url timeout w :
  launches (trace (snd (simpleFetch env url timeout w))) = launches (trace w).
Proof.
  unfold simpleFetch. io_run; rewrite ?launches_app; unfold launches; simpl; lia.
Qed.

(** What the browser tier returns: the empty result, or one page with its
    metadata; the empty result whenever one of its calls fails. *)
Lemma crawlWithPlaywright_shape env startUrl domain maxPages options w :
  exists r w',
    crawlWithPlaywright env startUrl domain maxPages options w = (Normal r, w')
    /\ (r = emptyResult \/ populated r)
    /\ (browserOk (chromium env startUrl) = false -> r = emptyResult).
Proof.
  unfold crawlWithPlaywright, buildCrawlResult, browserOk.
  io_run; do 2 eexists; (split; [reflexivity|]); split; auto;
    try (right; eexists; split; reflexivity);
    repeat match goal with H : _ = _ |- _ => rewrite H end; simpl;
    intros; try discriminate; auto.
Qed.

(** The paths of [crawlWebsite] for a non-empty string: the URL is
    refused; the direct tier suffices; the browser tier takes over. *)
Lemma crawlWebsite_cases env s options w :
  Js.truthyStr s = true ->
  let run := crawlWebsite env (JsStr s) options w in
  (fst run = Normal emptyResult /\ launches (trace (snd run)) = launches (trace w))
  \/ (exists domain r1 w1 h,
        URL_hostname env (startUrlOf s) = Normal domain
        /\ simpleFetch env (startUrlOf s) 10000 (entered domain w) = (Normal r1, w1)
        /\ goodContent r1 = Some h /\ isBlocked h = false
        /\ fst run = Normal (singlePage (startUrlOf s) h)
        /\ launches (trace (snd run)) = launches (trace w))
  \/ (exists domain w1,
        URL_hostname env (startUrlOf s) = Normal domain
        /\ run = crawlWithPlaywright env (startUrlOf s) domain (maxPagesOf options)
                   options w1).
Proof.
  intros Hs run. subst run. unfold crawlWebsite. simpl. rewrite Hs. simpl.
  destruct (URL_hostname env (startUrlOf s)) as [domain|e] eqn:Hd.
  2:{ left. io_unfold. simpl. rewrite Hd. simpl. split; [reflexivity|].
      rewrite launches_app. unfold launches. simpl. lia. }
  right.
  destruct (simpleFetch_total env (startUrlOf s) 10000 (entered domain w))
    as (r1 & w1 & Hf).
  pose proof (simpleFetch_launches env (startUrlOf s) 10000 (entered domain w)) as Hl.
  rewrite Hf in Hl. simpl in Hl.
  assert (Hle : launches (trace (entered domain w)) = launches (trace w)).
  { unfold entered. io_unfold. simpl. rewrite !launches_app. unfold launches. simpl. lia. }
  unfold entered in Hf. unfold buildCrawlResult. io_unfold. simpl in *.
  rewrite Hd. simpl. rewrite Hf.
  destruct (goodContent r1) as [h|] eqn:Hg.
  - destruct (isBlocked h) eqn:Hb; simpl.
    + right.
      match goal with
      | |- context [crawlWithPlaywright _ _ _ _ _ ?wx] =>
          destruct (crawlWithPlaywright_total env (startUrlOf s) domain
                      (maxPagesOf options) options wx) as (r & w' & Hr);
          exists domain, wx; rewrite Hr
      end.
      split; reflexivity.
    + left. exists domain, r1, w1, h.
      assert (Hok : success r1 = true).
      { unfold goodContent in Hg. destruct (success r1); [reflexivity|discriminate]. }
      destruct (simpleFetch_success _ _ _ _ _ _ Hf Hok) as (h' & Hh' & Ht).
      assert (h' = h).
      { unfold goodContent in Hg. rewrite Hok, Hh' in Hg.
        destruct (Js.truthyStr h' && (1000 <? Js.jsLength h')); congruence. }
      subst h'. rewrite Ht. simpl.
      split; [reflexivity|]. split; [exact Hf|]. split; [exact Hg|].
      split; [exact Hb|]. split; [reflexivity|].
      rewrite !launches_app, Hl, Hle. unfold launches. simpl. lia.
  - right. simpl.
    match goal with
    | |- context [crawlWithPlaywright _ _ _ _ _ ?wx] =>
        destruct (crawlWithPlaywright_total env (startUrlOf s) domain
                    (maxPagesOf options) options wx) as (r & w' & Hr);
        exists domain, wx; rewrite Hr
    end.
    split; reflexivity.
Qed.

Lemma emptyResult_reads (r : CrawlResult) :
  r = emptyResult ->
  pages r = [] /\ htmlContent r = "" /\ metadata r = ∅
  /\ forall k, metadata r !! k = None /\ flagOr (metadata r) k = false.
Proof.
  intros ->. repeat split; reflexivity.
Qed.

Lemma singlePage_populated startUrl h : populated (singlePage startUrl h).
Proof. eexists. split; reflexivity. Qed.

(** C3, as amended. [crawlWebsite] never throws, whatever it is given and
    whatever the platform answers. It returns the empty result or a result
    of one page. It returns the empty result when its argument is no
    string, when the URL is refused, and whenever the browser tier runs and
    one of its calls fails, a navigation over its time limit included. The
    empty result has no page, no content and an empty metadata object: no
    flag is present in it, and each flag reads as false through
    [metadata.k || false]. The result has no success indicator. *)
Theorem crawlWebsite_never_raises (env : Env) (websiteUrl : JsVal)
    (options : Input) (w : World) :
  exists r w',
    crawlWebsite env websiteUrl options w = (Normal r, w')
    /\ (r = emptyResult \/ populated r)
    /\ ((forall s, websiteUrl <> JsStr s) -> r = emptyResult)
    /\ (forall s, websiteUrl = JsStr s ->
          isNormal (URL_hostname env (startUrlOf s)) = false -> r = emptyResult)
    /\ (forall s, websiteUrl = JsStr s ->
          launches (trace w') <> launches (trace w) ->
          browserOk (chromium env (startUrlOf s)) = false -> r = emptyResult)
    /\ (r = emptyResult ->
          pages r = [] /\ htmlContent r = "" /\ metadata r = ∅
          /\ forall k, metadata r !! k = None /\ flagOr (metadata r) k = false).
Proof.
  assert (Hempty : forall w',
    crawlWebsite env websiteUrl options w = (Normal emptyResult, w') ->
    launches (trace w') = launches (trace w) ->
    exists r w',
      crawlWebsite env websiteUrl options w = (Normal r, w')
      /\ (r = emptyResult \/ populated r)
      /\ ((forall s, websiteUrl <> JsStr s) -> r = emptyResult)
      /\ (forall s, websiteUrl = JsStr s ->
            isNormal (URL_hostname env (startUrlOf s)) = false -> r = emptyResult)
      /\ (forall s, websiteUrl = JsStr s ->
            launches (trace w') <> launches (trace w) ->
            browserOk (chromium env (startUrlOf s)) = false -> r = emptyResult)
      /\ (r = emptyResult ->
            pages r = [] /\ htmlContent r = "" /\ metadata r = ∅
            /\ forall k, metadata r !! k = None /\ flagOr (metadata r) k = false)).
  { intros w' Hrun Hl. exists emptyResult, w'.
    split; [exact Hrun|]. repeat split; auto; apply emptyResult_reads; reflexivity. }
  destruct (truthy websiteUrl) eqn:Htr.
  2:{ apply (Hempty w); [|reflexivity]. unfold crawlWebsite. rewrite Htr. reflexivity. }
  destruct websiteUrl as [| |b|n|s]; try discriminate.
  - eapply Hempty.
    + unfold crawlWebsite. rewrite Htr. io_unfold. simpl. reflexivity.
    + simpl. rewrite launches_app. unfold launches. simpl. lia.
  - eapply Hempty.
    + unfold crawlWebsite. rewrite Htr. io_unfold. simpl. reflexivity.
    + simpl. rewrite launches_app. unfold launches. simpl. lia.
  - simpl in Htr.
    destruct (crawlWebsite_cases env s options w Htr)
      as [[Hr Hl] | [(domain & r1 & w1 & h & Hd & Hf & Hg & Hb & Hr & Hl)
                    | (domain & w1 & Hd & Hrun)]].
    + destruct (crawlWebsite env (JsStr s) options w) as [c w'] eqn:Hrun.
      simpl in Hr, Hl. subst c. apply (Hempty w'); [reflexivity | exact Hl].
    + destruct (crawlWebsite env (JsStr s) options w) as [c w'] eqn:Hrun.
      simpl in Hr, Hl. subst c. exists (singlePage (startUrlOf s) h), w'.
      split; [reflexivity|]. split; [right; apply singlePage_populated|].
      split; [intros Hn; destruct (Hn s); reflexivity|].
      split; [intros s' Heq; inversion Heq; subst s'; rewrite Hd; discriminate|].
      split; [intros s' _ Hne; destruct (Hne Hl)|].
      apply emptyResult_reads.
    + destruct (crawlWithPlaywright_shape env (startUrlOf s) domain (maxPagesOf options)
                  options w1) as (r & w' & Hp & Hshape & Hfail).
      exists r, w'. rewrite Hrun. split; [exact Hp|]. split; [exact Hshape|].
      split; [intros Hn; destruct (Hn s); reflexivity|].
      split; [intros s' Heq; inversion Heq; subst s'; rewrite Hd; discriminate|].
      split; [intros s' Heq _; inversion Heq; subst s'; exact Hfail|].
      apply emptyResult_reads.
Qed.

(** C3, as stated, at a concrete input. The direct tier gets a page of 3000
    units saying "Access Denied"; the browser tier runs and its navigation
    exceeds the time limit. The result has no page, but its metadata object
    is empty: the three flags are not set to [false], they are absent. *)
Lemma crawlWebsite_flags_absent :
  Js.jsLength Scenario.deniedPage = 3000
  /\ Js.includes "Access Denied" Scenario.deniedPage = true
  /\ exists r w',
       crawlWebsite Scenario.deniedEnv (JsStr "shop.example") Scenario.input
         Scenario.start = (Normal r, w')
       /\ pages r = []
       /\ launches (trace w') = 1%nat
       /\ ~ flagsAllFalse (metadata r).
Proof.
  split; [vm_compute; reflexivity|]. split; [vm_compute; reflexivity|].
  exists emptyResult,
    (snd (crawlWebsite Scenario.deniedEnv (JsStr "shop.example") Scenario.input
            Scenario.start)).
  split; [vm_compute; reflexivity|]. split; [reflexivity|].
  split; [vm_compute; reflexivity|].
  intros [H _]. simpl in H. rewrite lookup_empty in H. discriminate.
Qed.

Lemma crawlWebsite_never_raises_witness :
  exists r w',
    crawlWebsite Scenario.deniedEnv (JsStr "shop.example") Scenario.input
      Scenario.start = (Normal r, w')
    /\ r = emptyResult.
Proof.
  destruct (crawlWebsite_never_raises Scenario.deniedEnv (JsStr "shop.example")
              Scenario.input Scenario.start)
    as (r & w' & Hrun & _ & _ & _ & Hb & _).
  exists r, w'. split; [exact Hrun|].
  apply (Hb "shop.example"); [reflexivity| |vm_compute; reflexivity].
  assert (Hw : w' = snd (crawlWebsite Scenario.deniedEnv (JsStr "shop.example")
                           Scenario.input Scenario.start))
    by (rewrite Hrun; reflexivity).
  rewrite Hw. vm_compute. discriminate.
Defined.

(** ** C9 *)

(** The lexical rules of [buildCrawlResult], on the content it is handed:
    each flag is present and is the value of its rule on the lower-cased
    content. *)
Lemma buildCrawlResult_flags crawledPages allHtml domain w :
  exists r w',
    buildCrawlResult crawledPages allHtml domain w = (Normal r, w')
    /\ pages r = crawledPages /\ htmlContent r = allHtml
    /\ metadata r !! "pageCount" = Some (MNum (N.of_nat (length crawledPages)))
    /\ metadata r !! "hasContactForm"
       = Some (MBool (lowerIncludes allHtml "contact"
                      && (lowerIncludes allHtml "form" || lowerIncludes allHtml "submit")))
    /\ metadata r !! "hasBookingWidget"
       = Some (MBool (lowerIncludes allHtml "book"
                      && (lowerIncludes allHtml "appointment"
                          || lowerIncludes allHtml "schedule")))
    /\ metadata r !! "hasChatWidget"
       = Some (MBool (lowerIncludes allHtml "chat" || lowerIncludes allHtml "intercom"
                      || lowerIncludes allHtml "drift")).
Proof.
  do 2 eexists. split; [reflexivity|]. simpl. unfold buildMetadata.
  repeat split; repeat (rewrite lookup_insert_ne by discriminate);
    rewrite lookup_insert_eq; reflexivity.
Qed.

(** C9, at the failing input. A page of 8000 units holds a contact form:
    "contact" and "submit" occur in its markup, no block marker and no
    booking word does. The direct tier suffices and no browser is started,
    but the flags are computed on the text left once the tags are removed,
    where neither word remains: [hasContactForm] is [false]. On the markup
    itself, which is what the browser tier hands to [buildCrawlResult], the
    rule gives [true]. *)
Theorem crawlWebsite_misses_form_in_markup :
  Js.jsLength Scenario.formPage = 8000
  /\ Js.includes "contact" Scenario.formPage = true
  /\ Js.includes "submit" Scenario.formPage = true
  /\ hasBlockMarker Scenario.formPage = false
  /\ hasBookingWidget Scenario.formPage = false
  /\ hasContactForm Scenario.formPage = true
  /\ exists r w',
       crawlWebsite Scenario.formEnv (JsStr "shop.example") Scenario.input
         Scenario.start = (Normal r, w')
       /\ browserEvents (trace w') = []
       /\ metadata r !! "hasContactForm" = Some (MBool false)
       /\ metadata r !! "hasBookingWidget" = Some (MBool false).
Proof.
  repeat (split; [vm_compute; reflexivity|]).
  exists (singlePage "https://shop.example" Scenario.formPage),
    (snd (crawlWebsite Scenario.formEnv (JsStr "shop.example") Scenario.input
            Scenario.start)).
  repeat split; vm_compute; reflexivity.
Qed.

(** ** C8 *)

Arguments stdinEvents : simpl never.
Arguments kills : simpl never.

Lemma stdinEvents_app tr1 tr2 :
  stdinEvents (tr1 ++ tr2) = (stdinEvents tr1 ++ stdinEvents tr2)%list.
Proof. unfold stdinEvents. apply List.filter_app. Qed.

Lemma kills_app tr1 tr2 : kills (tr1 ++ tr2) = (kills tr1 + kills tr2)%nat.
Proof. unfold kills. rewrite List.filter_app. apply length_app. Qed.

Lemma splitLines_nonempty s : Js.splitLines s <> [].
Proof.
  destruct s as [|c r]; simpl; [discriminate|].
  destruct (Ascii.eqb c Js.LF); [discriminate|].
  destruct (Js.splitLines r); discriminate.
Qed.

(** A string without a line feed is its own single line. *)
Lemma splitLines_single line :
  Js.hasChar Js.LF line = false -> Js.splitLines line = [line].
Proof.
  induction line as [|c r IH]; simpl; [reflexivity|].
  intros H. apply orb_false_iff in H as [Hc Hr].
  rewrite Hc, (IH Hr). reflexivity.
Qed.

(** Splitting distributes over a line feed. *)
Lemma splitLines_app a b :
  Js.splitLines (a +:+ String Js.LF b) = (Js.splitLines a ++ Js.splitLines b)%list.
Proof.
  induction a as [|c a IH]; simpl.
  - reflexivity.
  - rewrite IH. destruct (Ascii.eqb c Js.LF); [reflexivity|].
    pose proof (splitLines_nonempty a) as Hne.
    destruct (Js.splitLines a); [contradiction|reflexivity].
Qed.

Lemma lastOf_splitLines_app a line :
  Js.hasChar Js.LF line = false ->
  Js.lastOf (Js.splitLines (a +:+ String Js.LF line)) = line.
Proof.
  intros H. rewrite splitLines_app, (splitLines_single line H).
  unfold Js.lastOf. apply List.last_last.
Qed.

Lemma isEmpty_app_r a b : Js.isEmpty b = false -> Js.isEmpty (a +:+ b) = false.
Proof. destruct a; simpl; auto. Qed.

Lemma trimEnd_app a b :
  Js.trimEnd b = b -> Js.isEmpty b = false -> Js.trimEnd (a +:+ b) = a +:+ b.
Proof.
  intros Hb Hne. induction a as [|c a IH]; simpl; [exact Hb|].
  rewrite IH, (isEmpty_app_r a b Hne), andb_false_r. reflexivity.
Qed.

Lemma trimStart_app a line :
  Js.trimStart line = line -> Js.isEmpty line = false ->
  Js.trimStart (a +:+ String Js.LF line) = line
  \/ exists a', Js.trimStart (a +:+ String Js.LF line) = a' +:+ String Js.LF line.
Proof.
  intros Hl Hne. induction a as [|c a IH]; simpl.
  - left. exact Hl.
  - destruct (Js.isSpace c); [exact IH|].
    right. exists (String c a). reflexivity.
Qed.

Lemma append_assoc_str a b c : (a +:+ b) +:+ c = a +:+ (b +:+ c).
Proof.
  induction a as [|x a IH]; [reflexivity|].
  change (String x ((a +:+ b) +:+ c) = String x (a +:+ (b +:+ c))).
  rewrite IH. reflexivity.
Qed.

(** White space at the end of a string is dropped by [trimEnd]. *)
Lemma trimEnd_blank_tail a tail :
  Js.trimEnd tail = EmptyString -> Js.trimEnd (a +:+ tail) = Js.trimEnd a.
Proof.
  intros Ht. induction a as [|c a IH]; simpl; [exact Ht|]. rewrite IH. reflexivity.
Qed.

(** Whatever precedes it, the last line of the output is the one line that
    is parsed: a line without a line feed and without white space at either
    end is read back from any output that ends with it, a final line feed
    or other white space after it apart. *)
Lemma lastLine_app noise line tail :
  Js.hasChar Js.LF line = false ->
  Js.trimStart line = line -> Js.trimEnd line = line ->
  Js.isEmpty line = false ->
  Js.trimEnd tail = EmptyString ->
  lastLine (noise +:+ Js.nl +:+ line +:+ tail) = line.
Proof.
  intros Hlf Hs He Hne Htail. unfold lastLine, Js.trim, Js.nl.
  rewrite <- !append_assoc_str. rewrite (trimEnd_blank_tail _ tail Htail).
  rewrite append_assoc_str.
  change (String Js.LF "" +:+ line) with (String Js.LF line).
  rewrite trimEnd_app.
  - destruct (trimStart_app noise line Hs Hne) as [H | [a' H]]; rewrite H.
    + rewrite (splitLines_single line Hlf). reflexivity.
    + apply lastOf_splitLines_app, Hlf.
  - simpl. rewrite He. destruct line; [discriminate|]. simpl. reflexivity.
  - reflexivity.
Qed.

(** A child that cannot be started ends the run: the request has been
    written and the timer set, and nothing is returned. *)
Lemma crawlUrl_failed_start env this url timeout w e :
  p_spawnError (child_process env (pythonPath this) [wrapperPath this]
                  (JSON_stringify env (crawlRequest url (default 30 timeout))))
  = Some e ->
  fst (crawlUrl env this url timeout w) = Dies e.
Proof.
  intros He. unfold crawlUrl, nodeCatch, nodeBind, crawlPromise.
  rewrite He. reflexivity.
Qed.

(** C8, at the failing input. No [python3] is installed: the child cannot
    be started. [crawlUrl] has written its request, closed the input of the
    child and set its timer when the [error] event of the child, for which
    it has no listener, ends the process: no result is returned, neither
    the failure [{success: false, error}] nor any other, and the [catch] of
    [crawlUrl] is not reached. The same holds of every child that cannot be
    started. *)
Theorem crawlUrl_dies_without_interpreter :
  let run := crawlUrl CrawlerScenario.missingEnv CrawlerScenario.client
               "https://shop.example" None Scenario.start in
  fst run = Dies (mkError "spawn python3 ENOENT")
  /\ trace (snd run)
     = [(0, EvSpawn "python3" ["/app/src/enrichment/crawl4ai_wrapper.py"]);
        (0, EvStdinWrite ("{" +:+ doubleQuote +:+ "url" +:+ doubleQuote +:+ ":"
                          +:+ doubleQuote +:+ "https://shop.example" +:+ doubleQuote
                          +:+ "," +:+ doubleQuote +:+ "timeout" +:+ doubleQuote
                          +:+ ":30}"));
        (0, EvStdinEnd);
        (0, EvSetTimeout 35000)]
  /\ forall env this url timeout w e,
       p_spawnError (child_process env (pythonPath this) [wrapperPath this]
                       (JSON_stringify env
                          (JObj [("url", JStr url);
                                 ("timeout", JNum (default 30 timeout))])))
       = Some e ->
       fst (crawlUrl env this url timeout w) = Dies e.
Proof.
  split; [vm_compute; reflexivity|].
  split; [vm_compute; reflexivity|].
  intros env this url timeout w e He.
  unfold crawlUrl, nodeCatch, nodeBind, crawlPromise, crawlRequest.
  rewrite He. reflexivity.
Qed.

(** ** C4 *)

Arguments alerts : simpl never.

(** [crawlWebsite] returns, and returns the empty result when its argument
    is no string. *)
Lemma crawlWebsite_returns env websiteUrl options w :
  exists r w',
    crawlWebsite env websiteUrl options w = (Normal r, w')
    /\ ((forall s, websiteUrl <> JsStr s) -> r = emptyResult).
Proof.
  destruct (truthy websiteUrl) eqn:Htr.
  2:{ exists emptyResult, w. unfold crawlWebsite. rewrite Htr. auto. }
  destruct websiteUrl as [| |b|n|s]; try discriminate;
    try (do 2 eexists; unfold crawlWebsite; rewrite Htr; io_unfold; simpl;
         split; [reflexivity|auto]).
  simpl in Htr.
  destruct (crawlWebsite env (JsStr s) options w) as [c w'] eqn:Hrun.
  destruct (crawlWebsite_cases env s options w Htr)
    as [[Hr _] | [(domain & r1 & w1 & h & _ & _ & _ & _ & Hr & _)
                 | (domain & w1 & _ & Hp)]].
  - rewrite Hrun in Hr. simpl in Hr. subst c. do 2 eexists.
    split; [reflexivity|]. intros Hn. destruct (Hn s). reflexivity.
  - rewrite Hrun in Hr. simpl in Hr. subst c. do 2 eexists.
    split; [reflexivity|]. intros Hn. destruct (Hn s). reflexivity.
  - rewrite Hrun in Hp.
    destruct (crawlWithPlaywright_total env (startUrlOf s) domain (maxPagesOf options)
                options w1) as (r & w2 & Hr).
    rewrite Hr in Hp. inversion Hp; subst. do 2 eexists.
    split; [reflexivity|]. intros Hn. destruct (Hn s). reflexivity.
Qed.




(** ** Steady computations *)

Section Steady.

Context {A B : Type}.

Lemma steady_ret (a : A) : steady (ret a).
Proof. split; intros; simpl; [reflexivity|lia]. Qed.

Lemma steady_throw (e : Error) : steady (@throw World A e).
Proof. split; intros; simpl; [reflexivity|lia]. Qed.

Lemma steady_settle (c : Completion A) : steady (settle c).
Proof. split; intros; simpl; [reflexivity|lia]. Qed.

Lemma steady_await (op : Timed A) : steady (await op).
Proof. split; intros; simpl; [reflexivity|lia]. Qed.

Lemma steady_bind (m : IO A) (k : A -> IO B) :
  steady m -> (forall a, steady (k a)) -> steady (bind m k).
Proof.
  intros [Hm1 Hm2] Hk. split.
  - intros w1 w2. unfold bind. specialize (Hm1 w1 w2).
    destruct (m w1) as [[a1|e1] s1], (m w2) as [[a2|e2] s2]; simpl in Hm1;
      inversion Hm1; subst; try reflexivity.
    apply (Hk a2).
  - intros w. unfold bind. specialize (Hm2 w).
    destruct (m w) as [[a|e] s]; simpl in *; [|exact Hm2].
    destruct (Hk a) as [_ Hk2]. specialize (Hk2 s). lia.
Qed.

Lemma steady_try_catch (body : IO A) (handler : Error -> IO A) :
  steady body -> (forall e, steady (handler e)) -> steady (try_catch body handler).
Proof.
  intros [Hm1 Hm2] Hk. split.
  - intros w1 w2. unfold try_catch. specialize (Hm1 w1 w2).
    destruct (body w1) as [[a1|e1] s1], (body w2) as [[a2|e2] s2]; simpl in Hm1;
      inversion Hm1; subst; try reflexivity.
    apply (Hk e2).
  - intros w. unfold try_catch. specialize (Hm2 w).
    destruct (body w) as [[a|e] s]; simpl in *; [exact Hm2|].
    destruct (Hk e) as [_ Hk2]. specialize (Hk2 s). lia.
Qed.

Lemma steady_try_catch_finally (body : IO A) (handler : Error -> IO A)
    (final : IO unit) :
  steady body -> (forall e, steady (handler e)) -> steady final ->
  steady (try_catch_finally body handler final).
Proof.
  intros Hb Hh [Hf1 Hf2].
  destruct (steady_try_catch body handler Hb Hh) as [Ht1 Ht2]. split.
  - intros w1 w2. unfold try_catch_finally. specialize (Ht1 w1 w2).
    destruct (try_catch body handler w1) as [c1 s1],
      (try_catch body handler w2) as [c2 s2]. simpl in Ht1. subst c2.
    specialize (Hf1 s1 s2).
    destruct (final s1) as [[[]|e1] t1], (final s2) as [[[]|e2] t2]; simpl in Hf1;
      inversion Hf1; subst; reflexivity.
  - intros w. unfold try_catch_finally. specialize (Ht2 w).
    destruct (try_catch body handler w) as [c s]. specialize (Hf2 s).
    destruct (final s) as [[[]|e] t]; simpl in *; lia.
Qed.

End Steady.

Lemma steady_emit ev : steady (emit ev).
Proof. split; intros; simpl; [reflexivity|lia]. Qed.

Lemma steady_elapse d : steady (elapse d).
Proof. split; intros; simpl; [reflexivity|lia]. Qed.

Lemma steady_await_within {A} limit (op : Timed A) onLimit e :
  steady onLimit -> steady (await_within limit op onLimit e).
Proof.
  intros H. unfold await_within. destruct (took op <? limit).
  - apply steady_await.
  - apply steady_bind; [apply steady_elapse|intros _].
    apply steady_bind; [exact H|intros _]. apply steady_throw.
Qed.

(** Breaks a computation into its parts, down to primitives. *)
Ltac steady_tac :=
  repeat first
    [ apply steady_ret | apply steady_throw | apply steady_settle
    | apply steady_await | apply steady_emit | apply steady_elapse
    | apply steady_await_within
    | apply steady_bind; [|intros ?]
    | apply steady_try_catch_finally; [|intros ?|]
    | apply steady_try_catch; [|intros ?]
    | match goal with
      | |- steady (match ?x with _ => _ end) => destruct x
      | |- steady (let '(_, _) := ?x in _) => destruct x
      end ].

Lemma simpleFetch_steady env url timeout : steady (simpleFetch env url timeout).
Proof. unfold simpleFetch, log, log2. steady_tac. Qed.

Lemma crawlWithPlaywright_steady env startUrl domain maxPages options :
  steady (crawlWithPlaywright env startUrl domain maxPages options).
Proof. unfold crawlWithPlaywright, buildCrawlResult, log, log2. steady_tac. Qed.

Lemma crawlWebsite_steady env websiteUrl options :
  steady (crawlWebsite env websiteUrl options).
Proof.
  unfold crawlWebsite, buildCrawlResult, log, log2. steady_tac;
    try apply simpleFetch_steady; try apply crawlWithPlaywright_steady; steady_tac.
Qed.

(** ** C5 *)

(** A task always ends fulfilled; the lead it leaves is a function of the
    lead it was handed, whatever the counter and the world it starts from;
    it never sets the clock back. *)
Lemma enrichLead_runs env input lead count w :
  exists u w',
    enrichLead env input (mkUnit lead count, w) = (Normal tt, (u, w'))
    /\ u_lead u = enriched env input lead
    /\ now w <= now w'.
Proof.
  destruct (crawlWebsite_returns env (online_website lead) input (announced lead w))
    as (r & w2 & Hrun & Hstr).
  destruct (crawlWebsite_returns env (online_website lead) input
              (announced lead (mkWorld 0 []))) as (r0 & w0 & Hrun0 & _).
  destruct (crawlWebsite_steady env (online_website lead) input) as [Hsame Hclock].
  specialize (Hsame (announced lead w) (announced lead (mkWorld 0 []))).
  specialize (Hclock (announced lead w)).
  rewrite Hrun, Hrun0 in Hsame. simpl in Hsame. inversion Hsame; subst r0.
  rewrite Hrun in Hclock. simpl in Hclock.
  unfold enriched, enrichLead, getLead, liftIO, assign, increment. io_unfold.
  cbn [fst snd u_lead u_count]. unfold announced in Hrun, Hrun0. io_unfold.
  cbn [fst snd] in Hrun, Hrun0. rewrite Hrun, Hrun0.
  destruct (Js.truthyStr (htmlContent r)) eqn:Hc.
  2:{ do 2 eexists. split; [reflexivity|]. split; [reflexivity|exact Hclock]. }
  destruct (extractEmails env (htmlContent r) (online_domain lead)) as [emails|e].
  2:{ do 2 eexists. split; [reflexivity|]. split; [reflexivity|exact Hclock]. }
  destruct (extractPhones env (htmlContent r)) as [phones|e].
  2:{ do 2 eexists. split; [reflexivity|]. split; [reflexivity|exact Hclock]. }
  destruct (extractSocials env (htmlContent r)) as [socials|e].
  2:{ do 2 eexists. split; [reflexivity|]. split; [reflexivity|exact Hclock]. }
  destruct (detectTechSignals env (htmlContent r)) as [techSignals|e].
  2:{ do 2 eexists. split; [reflexivity|]. split; [reflexivity|exact Hclock]. }
  destruct (online_website lead) as [| |b|n|s] eqn:Hweb;
    try (rewrite Hstr in Hc by discriminate; discriminate).
  destruct (nonEmpty emails), (nonEmpty phones), (someSocial socials);
    cbn [orb fst snd u_lead u_count];
    do 2 eexists; (split; [reflexivity|]); (split; [reflexivity|exact Hclock]).
Qed.

Lemma batchEnd_ge t0 b : t0 <= batchEnd t0 b.
Proof.
  unfold batchEnd. induction b as [|v b IH]; simpl; [lia|].
  etransitivity; [exact IH|apply N.le_max_r].
Qed.

Lemma batchEnd_last t0 b u : In u b -> s_end u <= batchEnd t0 b.
Proof.
  unfold batchEnd. induction b as [|v b IH]; simpl; [contradiction|].
  intros [->|H]; [apply N.le_max_l|].
  etransitivity; [exact (IH H)|apply N.le_max_r].
Qed.

(** The tasks of a batch: started together at [t0], all fulfilled, numbered
    from [i] on, each leaving what it makes of its own lead. *)
Lemma startAll_settles env input t0 batch :
  forall i count tr,
  exists ss count' tr',
    startAll env input t0 i batch count tr = (ss, count', tr')
    /\ s_index <$> ss = seq i (length batch)
    /\ s_lead <$> ss = enriched env input <$> batch
    /\ Forall (fun u => s_start u = t0 /\ t0 <= s_end u
                        /\ s_completion u = Normal tt) ss.
Proof.
  induction batch as [|lead rest IH]; intros i count tr; simpl.
  - do 3 eexists. split; [reflexivity|]. repeat split; constructor.
  - destruct (enrichLead_runs env input lead count (mkWorld t0 tr))
      as (u & w' & Hrun & Hlead & Hclock).
    rewrite Hrun.
    destruct (IH (S i) (u_count u) (trace w')) as (ss & count' & tr' & Hss & Hi & Hl & Hall).
    rewrite Hss. do 3 eexists. split; [reflexivity|].
    rewrite !fmap_cons, Hi, Hl, Hlead. cbn [s_index s_lead].
    split; [reflexivity|]. split; [reflexivity|].
    constructor; [|exact Hall]. simpl in *. repeat split. exact Hclock.
Qed.

Lemma firstRejection_none ss :
  Forall (fun u => s_completion u = Normal tt) ss -> firstRejection ss = None.
Proof.
  induction 1 as [|u ss Hu _ IH]; simpl; [reflexivity|]. rewrite Hu, IH. reflexivity.
Qed.

Lemma paced_mono t t' bs : t' <= t -> paced t bs -> paced t' bs.
Proof.
  destruct bs as [|b rest]; simpl; [auto|].
  intros Hle (t0 & Ht & Hall & Hrest). exists t0. split; [lia|auto].
Qed.

(** In paced batches the tasks of one batch start together and all end
    fulfilled. *)
Lemma paced_batches bs : forall t,
  paced t bs ->
  Forall (fun b => exists t0,
            Forall (fun u => s_start u = t0 /\ t0 <= s_end u
                             /\ s_completion u = Normal tt) b) bs.
Proof.
  induction bs as [|b rest IH]; intros t; simpl; [constructor|].
  intros (t0 & _ & Hall & Hrest). constructor; [eauto|]. eapply IH, Hrest.
Qed.

(** In paced batches a task starts no sooner than 500 ms after every task
    of the batch before has ended. *)
Lemma paced_spacing bs : forall t k b1 b2 u v,
  paced t bs ->
  bs !! k = Some b1 -> bs !! S k = Some b2 ->
  In u b1 -> In v b2 ->
  s_end u + 500 <= s_start v.
Proof.
  induction bs as [|b rest IH]; intros t k b1 b2 u v Hp H1 H2 Hu Hv;
    [discriminate|].
  simpl in Hp. destruct Hp as (t0 & _ & Hall & Hrest).
  destruct k as [|k].
  - simpl in H1, H2. inversion H1; subst b1.
    destruct rest as [|b' rest']; [discriminate|].
    simpl in H2. inversion H2; subst b'.
    simpl in Hrest. destruct Hrest as (t1 & Ht1 & Hall1 & _).
    rewrite Forall_forall in Hall1.
    assert (Hv' : v ∈ b2) by (apply list_elem_of_In; exact Hv).
    destruct (Hall1 v Hv') as (Hs & _).
    pose proof (batchEnd_last t0 b u Hu). lia.
  - simpl in H1, H2. exact (IH _ k b1 b2 u v Hrest H1 H2 Hu Hv).
Qed.

Lemma seq_batches i n :
  (i < n)%nat ->
  (seq i (min batchSize (n - i)) ++ seq (i + batchSize) (n - (i + batchSize)))%list
  = seq i (n - i).
Proof.
  intros H. unfold batchSize.
  destruct (n - i)%nat as [|[|m]] eqn:Hd; [lia| |].
  - replace (n - (i + 2))%nat with 0%nat by lia. reflexivity.
  - replace (n - (i + 2))%nat with m by lia.
    replace (i + 2)%nat with (S (S i)) by lia. reflexivity.
Qed.

(** The leads after a batch has run on the two leads at the head of [rest]. *)
Lemma batch_written {A} (f : A -> A) (rest : list A) :
  (take batchSize ((f <$> take batchSize rest) ++ drop batchSize rest)
   ++ (f <$> drop batchSize ((f <$> take batchSize rest) ++ drop batchSize rest)))%list
  = f <$> rest.
Proof. destruct rest as [|a [|b rest]]; reflexivity. Qed.

Lemma enrichFrom_runs env input : forall fuel i st w,
  (length (ph_leads st) - i < fuel)%nat ->
  exists (st' : PhaseState) (w' : World) (new : list (list Settled)),
    enrichFrom fuel env input i st w = Some (Normal tt, st', w')
    /\ ph_schedule st' = (ph_schedule st ++ new)%list
    /\ length (ph_leads st') = length (ph_leads st)
    /\ ph_leads st'
       = (take i (ph_leads st) ++ (enriched env input <$> drop i (ph_leads st)))%list
    /\ concat (fmap (M:=list) (fmap (M:=list) s_index) new)
       = seq i (length (ph_leads st) - i)
    /\ Forall (fun b : list Settled => exists j, (j < length (ph_leads st))%nat
                 /\ s_index <$> b = seq j (min batchSize (length (ph_leads st) - j)))
         new
    /\ ((length (ph_leads st) <= i)%nat -> new = [])
    /\ paced (now w) new.
Proof.
  induction fuel as [|fuel IH]; intros i st w Hfuel; [lia|].
  simpl. set (leads := ph_leads st) in *.
  destruct (i <? length leads)%nat eqn:Hi.
  2:{ apply Nat.ltb_ge in Hi. exists st, w, [].
      split; [reflexivity|]. split; [rewrite app_nil_r; reflexivity|].
      split; [reflexivity|].
      split; [rewrite take_ge, drop_ge by lia; rewrite app_nil_r; reflexivity|].
      split; [replace (length leads - i)%nat with 0%nat by lia; reflexivity|].
      split; [constructor|]. split; [reflexivity|exact I]. }
  apply Nat.ltb_lt in Hi. unfold log, emit. cbn [snd now trace].
  set (batch := take batchSize (drop i leads)).
  destruct (startAll_settles env input (now w) batch i (ph_count st)
              (trace w ++ [(now w, EvLog Info
                              (batchBanner i (length leads) (length batch)) None)])%list)
    as (ss & count' & tr' & Hss & Hidx & Hleads & Hall).
  rewrite Hss. unfold awaitAll.
  rewrite firstRejection_none
    by (eapply Forall_impl; [exact Hall|]; intros u (_ & _ & Hn); exact Hn).
  fold (batchEnd (now w) ss).
  set (leads' := (take i leads ++ (s_lead <$> ss) ++ drop (i + batchSize) leads)%list).
  set (st1 := mkPhase leads' count' (ph_schedule st ++ [ss])).
  assert (Hlen_batch : length batch = min batchSize (length leads - i)).
  { unfold batch. rewrite length_take, length_drop. lia. }
  assert (Hlen' : length leads' = length leads).
  { unfold leads'. rewrite !length_app, length_take, Hleads, length_fmap,
      Hlen_batch, length_drop. unfold batchSize. lia. }
  match goal with
  | |- context [enrichFrom fuel env input (i + batchSize) st1 ?w3] =>
      destruct (IH (i + batchSize)%nat st1 w3) as
        (st' & w' & new & Hrun & Hsched & Hlen & Hfinal & Hcat & Hforall & Hnil & Hpaced);
      [cbn [ph_leads st1]; rewrite Hlen'; unfold batchSize; lia|];
      exists st', w', (ss :: new); rewrite Hrun
  end.
  cbn [ph_leads ph_schedule st1] in *. rewrite Hlen' in *.
  split; [reflexivity|].
  split; [rewrite Hsched, <- app_assoc; reflexivity|].
  split; [exact Hlen|].
  split.
  { rewrite Hfinal. unfold leads'. rewrite Hleads.
    rewrite <- (drop_drop leads batchSize i).
    assert (Hti : length (take i leads) = i) by (rewrite length_take; lia).
    rewrite take_app_add' by (symmetry; exact Hti).
    rewrite drop_app_add' by (symmetry; exact Hti).
    rewrite <- app_assoc. f_equal. apply batch_written. }
  split.
  { rewrite fmap_cons. simpl. rewrite Hidx, Hcat, Hlen_batch. apply seq_batches, Hi. }
  split.
  { constructor; [|exact Hforall]. exists i. split; [exact Hi|].
    rewrite Hidx, Hlen_batch. reflexivity. }
  split; [intros Hge; lia|].
  simpl. exists (now w). split; [lia|]. split; [exact Hall|].
  destruct (i + batchSize <? length leads)%nat eqn:Hmore.
  - eapply paced_mono; [|exact Hpaced]. unfold sleep. io_unfold. simpl. lia.
  - apply Nat.ltb_ge in Hmore. rewrite Hnil by lia. exact I.
Qed.

(** C5. The loop over the leads to enrich always ends, fulfilled, whatever
    the tasks meet. Its batches are runs of consecutive leads, two by two,
    the last one shorter when fewer than two leads remain, and together
    they cover every lead once, in order. The tasks of a batch start
    together. Every task ends fulfilled, and a task of the next batch starts
    no sooner than 500 ms after every task of the batch before has ended.
    Each lead ends as what its own task makes of it, whatever the other
    tasks did. *)
Theorem enrichAll_batches (env : Env) (input : Input) (leads : list Lead)
    (w : World) :
  exists (st : PhaseState) (w' : World),
    enrichAll env input leads w = Some (Normal tt, st, w')
    /\ batchSize = 2%nat
    /\ concat (fmap (M:=list) (fmap (M:=list) s_index) (ph_schedule st))
       = seq 0 (length leads)
    /\ Forall (fun b : list Settled =>
                 exists j, (j < length leads)%nat
                   /\ s_index <$> b = seq j (min batchSize (length leads - j)))
         (ph_schedule st)
    /\ Forall (fun b : list Settled =>
                 exists t0,
                   Forall (fun u => s_start u = t0 /\ t0 <= s_end u
                                    /\ s_completion u = Normal tt) b)
         (ph_schedule st)
    /\ (forall k b1 b2 u v,
          ph_schedule st !! k = Some b1 -> ph_schedule st !! S k = Some b2 ->
          In u b1 -> In v b2 -> s_end u + 500 <= s_start v)
    /\ ph_leads st = enriched env input <$> leads.
Proof.
  unfold enrichAll.
  destruct (enrichFrom_runs env input (S (length leads)) 0 (mkPhase leads 0 []) w)
    as (st & w' & new & Hrun & Hsched & _ & Hfinal & Hcat & Hforall & _ & Hpaced);
    [simpl; lia|].
  simpl in *. rewrite Nat.sub_0_r in Hcat. rewrite drop_0 in Hfinal. subst new.
  exists st, w'. split; [exact Hrun|]. split; [reflexivity|].
  split; [exact Hcat|]. split; [exact Hforall|].
  split; [eapply paced_batches, Hpaced|].
  split; [|exact Hfinal].
  intros k b1 b2 u v. eapply paced_spacing, Hpaced.
Qed.

Lemma enrichAll_batches_witness :
  exists (st : PhaseState) (w' : World),
    enrichAll UnitScenario.richEnv Scenario.input
      [UnitScenario.lead; UnitScenario.lead; UnitScenario.lead] Scenario.start
    = Some (Normal tt, st, w')
    /\ fmap (M:=list) (fmap (M:=list) s_index) (ph_schedule st)
       = [[0; 1]; [2]]%nat
    /\ fmap (M:=list) (fmap (M:=list) s_start) (ph_schedule st)
       = [[0; 0]; [13150]].
Proof.
  destruct (enrichAll_batches UnitScenario.richEnv Scenario.input
              [UnitScenario.lead; UnitScenario.lead; UnitScenario.lead]
              Scenario.start) as (st & w' & Hrun & _).
  exists st, w'. split; [exact Hrun|].
  assert (Hst : st = match enrichAll UnitScenario.richEnv Scenario.input
                             [UnitScenario.lead; UnitScenario.lead; UnitScenario.lead]
                             Scenario.start with
                     | Some (_, st0, _) => st0
                     | None => mkPhase [] 0 []
                     end) by (rewrite Hrun; reflexivity).
  rewrite Hst. split; vm_compute; reflexivity.
Defined.

(** ** C7 *)

Lemma marks_app tr1 tr2 : marks (tr1 ++ tr2) = (marks tr1 ++ marks tr2)%list.
Proof.
  induction tr1 as [|[t ev] tr1 IH]; simpl; [reflexivity|].
  destruct ev; rewrite ?IH; reflexivity.
Qed.

Arguments marks : simpl never.

(** [generateOutreach] never throws, marks no call and never sets the clock
    back; a failed call gives the empty draft. *)
Lemma generateOutreach_runs env lead options w :
  exists o w',
    generateOutreach env lead options w = (Normal o, w')
    /\ marks (trace w') = marks (trace w)
    /\ now w <= now w'
    /\ (callFails env options lead (now w) = true -> o = emptyOutreach).
Proof.
  unfold generateOutreach, parseOutreachResponse, callFails, serviceFails.
  destruct (ai_enabled options); simpl.
  2:{ do 2 eexists. split; [reflexivity|]. repeat split; auto; lia. }
  destruct (orElse (ai_openaiApiKey options) (OPENAI_API_KEY env)) as [[|c key]|].
  1,3: io_unfold; simpl; do 2 eexists; (split; [reflexivity|]); simpl;
       rewrite marks_app; unfold marks; simpl; rewrite app_nil_r;
       repeat split; auto; lia.
  io_unfold. simpl.
  destruct (outcome (openai env (now w) (String c key) (buildPrompt env lead options)))
    as [response|e] eqn:Hresp; simpl.
  2:{ do 2 eexists. split; [reflexivity|]. simpl.
      rewrite !marks_app. unfold marks. simpl. rewrite !app_nil_r.
      repeat split; auto; lia. }
  destruct (ok response); simpl.
  2:{ do 2 eexists. split; [reflexivity|]. simpl.
      rewrite !marks_app. unfold marks. simpl. rewrite !app_nil_r.
      repeat split; auto; lia. }
  destruct (outcome (body response)) as [bodyText|e]; simpl.
  2:{ do 2 eexists. split; [reflexivity|]. simpl.
      rewrite !marks_app. unfold marks. simpl. rewrite !app_nil_r.
      repeat split; auto; lia. }
  destruct (JSON_parse env bodyText) as [data|e]; simpl.
  2:{ do 2 eexists. split; [reflexivity|]. simpl.
      rewrite !marks_app. unfold marks. simpl. rewrite !app_nil_r.
      repeat split; auto; lia. }
  repeat (match goal with
          | |- context [match getProp ?k ?d with _ => _ end] =>
              destruct (getProp k d) as [[?|]|?]
          | |- context [match optProp ?k ?d with _ => _ end] =>
              destruct (optProp k d) as [[?|]|?]
          | |- context [if jsonTruthy ?x then _ else _] => destruct (jsonTruthy x)
          | |- context [match ?x with JNull => _ | _ => _ end] => destruct x
          end; simpl);
    do 2 eexists; (split; [reflexivity|]); simpl;
    rewrite ?marks_app; unfold marks; simpl; rewrite ?app_nil_r;
    (split; [reflexivity|]); (split; [lia|discriminate]).
Qed.

(** One turn of the generation loop: it never throws, it marks one call at
    the instant it starts, it assigns at most the [ai] field of its lead,
    and it lasts 1000 ms at least unless it is the last turn. *)
Lemma generateFor_runs env input len i lead count w :
  exists u w',
    generateFor env input len i (mkUnit lead count, w) = (Normal tt, (u, w'))
    /\ aiOnly lead (u_lead u)
    /\ (callFails env input lead (now w) = true -> u_lead u = lead)
    /\ marks (trace w') = (marks (trace w) ++ [(now w, i)])%list
    /\ now w <= now w'
    /\ ((i < len - 1)%nat -> now w + 1000 <= now w').
Proof.
  destruct (generateOutreach_runs env lead input (marked i w))
    as (o & w1 & Hrun & Hmarks & Hclock & Hfail).
  unfold marked in *. unfold generateFor, getLead, liftIO, clock, assign, increment,
    sleep, aiOnly.
  io_unfold. cbn [fst snd u_lead u_count now trace] in *. rewrite Hrun.
  rewrite marks_app in Hmarks. unfold marks at 2 in Hmarks. simpl in Hmarks.
  destruct (someDraft o) eqn:Hd; cbn [fst snd u_lead u_count now trace];
    destruct (i <? len - 1)%nat eqn:Hi; cbn [fst snd u_lead u_count now trace];
    do 2 eexists; (split; [reflexivity|]); cbn [fst snd u_lead u_count now trace];
    rewrite ?marks_app, Hmarks; unfold marks; simpl; rewrite ?app_nil_r;
    (split; [eauto|]);
    (split; [intros Hf; rewrite (Hfail Hf) in Hd; try discriminate; reflexivity|]);
    (split; [reflexivity|]); (split; [lia|]);
    intros Hlt; try (apply Nat.ltb_ge in Hi; lia); lia.
Qed.

Lemma generateFrom_runs env input len : forall rest i aiCount w,
  len = (i + length rest)%nat ->
  exists (leads' : list Lead) (n : N) (w' : World) (calls : list (N * nat)),
    generateFrom env input len i rest aiCount w = (leads', n, w')
    /\ marks (trace w') = (marks (trace w) ++ calls)%list
    /\ snd <$> calls = seq i (length rest)
    /\ Forall (fun c => now w <= fst c) calls
    /\ spaced (fst <$> calls)
    /\ Forall2 aiOnly rest leads'
    /\ (forall k lead t,
          rest !! k = Some lead -> (fst <$> calls) !! k = Some t ->
          callFails env input lead t = true -> leads' !! k = Some lead).
Proof.
  induction rest as [|lead rest IH]; intros i aiCount w Hlen; simpl.
  - exists [], aiCount, w, []. split; [reflexivity|].
    split; [rewrite app_nil_r; reflexivity|]. split; [reflexivity|].
    split; [constructor|]. split; [intros k t t' H; discriminate|].
    split; [constructor|]. intros k lead t H; discriminate.
  - destruct (generateFor_runs env input len i lead aiCount w)
      as (u & w1 & Hrun & Hai & Hfail & Hmarks & Hclock & Hwait).
    rewrite Hrun.
    assert (Hlen' : len = (S i + length rest)%nat) by (simpl in Hlen; lia).
    destruct (IH (S i) (u_count u) w1 Hlen') as
      (leads' & n & w' & calls & Hloop & Hm & Hidx & Hge & Hsp & Hall & Hfails).
    rewrite Hloop. exists (u_lead u :: leads'), n, w', ((now w, i) :: calls).
    split; [reflexivity|].
    split; [rewrite Hm, Hmarks, <- app_assoc; reflexivity|].
    split; [rewrite fmap_cons; simpl; rewrite Hidx; reflexivity|].
    split.
    { constructor; [simpl; lia|]. eapply Forall_impl; [exact Hge|].
      intros c Hc. simpl in *. lia. }
    split.
    { intros k t t' Hk Hk'. rewrite fmap_cons in Hk, Hk'. destruct k as [|k].
      - simpl in Hk, Hk'. inversion Hk; subst t.
        destruct calls as [|c calls]; [discriminate|].
        simpl in Hk'. inversion Hk'; subst t'.
        inversion Hge as [|? ? Hc _]; subst.
        assert (length rest <> 0)%nat.
        { intros Hz. rewrite Hz in Hidx. discriminate. }
        simpl in Hwait. specialize (Hwait ltac:(lia)). simpl in *. lia.
      - simpl in Hk, Hk'. exact (Hsp k t t' Hk Hk'). }
    split; [constructor; assumption|].
    intros k lead0 t Hk Ht Hf. rewrite fmap_cons in Ht. destruct k as [|k].
    + simpl in Hk, Ht. inversion Hk; subst lead0. inversion Ht; subst t.
      simpl. rewrite (Hfail Hf). reflexivity.
    + simpl in Hk, Ht. simpl. exact (Hfails k lead0 t Hk Ht Hf).
Qed.

(** C7. The generation loop calls [generateOutreach] once for every lead,
    in order, whatever the calls meet: the loop never throws. The call for
    a lead is issued 1000 ms at least after the call for the lead before
    it, also when that call failed. A call that fails (no key, a rejected
    request, an error status, an unreadable or malformed body) leaves its
    lead as it was, and no call touches more than the [ai] field of its own
    lead. *)
Theorem generateAll_spaced (env : Env) (input : Input) (leads : list Lead)
    (w : World) :
  exists (leads' : list Lead) (aiCount : N) (w' : World) (calls : list (N * nat)),
    generateAll env input leads w = (leads', aiCount, w')
    /\ marks (trace w') = (marks (trace w) ++ calls)%list
    /\ snd <$> calls = seq 0 (length leads)
    /\ (forall k t t',
          (fst <$> calls) !! k = Some t -> (fst <$> calls) !! S k = Some t' ->
          t + 1000 <= t')
    /\ Forall2 aiOnly leads leads'
    /\ (forall k lead t,
          leads !! k = Some lead -> (fst <$> calls) !! k = Some t ->
          callFails env input lead t = true -> leads' !! k = Some lead).
Proof.
  unfold generateAll.
  destruct (generateFrom_runs env input (length leads) leads 0 0 w eq_refl)
    as (leads' & n & w' & calls & Hloop & Hm & Hidx & _ & Hsp & Hall & Hfails).
  exists leads', n, w', calls. repeat split; assumption.
Qed.

Lemma generateAll_spaced_witness :
  exists (leads' : list Lead) (aiCount : N) (w' : World),
    generateAll GenerationScenario.env Scenario.input GenerationScenario.leads
      Scenario.start = (leads', aiCount, w')
    /\ marks (trace w') = [(0, 0%nat); (1810, 1%nat); (3110, 2%nat)]
    /\ leads' !! 1%nat = Some (GenerationScenario.named "B").
Proof.
  destruct (generateAll_spaced GenerationScenario.env Scenario.input
              GenerationScenario.leads Scenario.start)
    as (leads' & n & w' & calls & Hrun & Hm & _ & _ & _ & Hfail).
  exists leads', n, w'. split; [exact Hrun|].
  assert (Hw : w' = snd (generateAll GenerationScenario.env Scenario.input
                           GenerationScenario.leads Scenario.start))
    by (rewrite Hrun; reflexivity).
  assert (Hc : calls = marks (trace w')) by (rewrite Hm; reflexivity).
  assert (Hcalls : marks (trace w') = [(0, 0%nat); (1810, 1%nat); (3110, 2%nat)])
    by (rewrite Hw; vm_compute; reflexivity).
  split; [exact Hcalls|].
  apply (Hfail 1%nat (GenerationScenario.named "B") 1810).
  - reflexivity.
  - rewrite Hc, Hcalls. reflexivity.
  - vm_compute. reflexivity.
Defined.

(** * Further properties *)

Arguments fetches : simpl never.

Lemma fetches_app tr1 tr2 : fetches (tr1 ++ tr2) = (fetches tr1 + fetches tr2)%nat.
Proof. unfold fetches. rewrite List.filter_app. apply length_app. Qed.

(** ** The direct tier *)


Lemma simpleFetch_fetches env url timeout w :
  fetches (trace (snd (simpleFetch env url timeout w))) = S (fetches (trace w)).
Proof.
  unfold simpleFetch. io_run; rewrite ?fetches_app; unfold fetches; simpl; lia.
Qed.

Lemma crawlWithPlaywright_fetches env startUrl domain maxPages options w :
  fetches (trace (snd (crawlWithPlaywright env startUrl domain maxPages options w)))
  = fetches (trace w).
Proof.
  unfold crawlWithPlaywright, buildCrawlResult.
  io_run; rewrite ?fetches_app; unfold fetches; simpl; lia.
Qed.

(** ** The engine *)

(** The paths of [crawlWebsite] for a non-empty string, with what each one
    adds to the trace. *)
Lemma crawlWebsite_paths env s options w :
  Js.truthyStr s = true ->
  let run := crawlWebsite env (JsStr s) options w in
  (exists e, URL_hostname env (startUrlOf s) = Throw e
     /\ fst run = Normal emptyResult
     /\ launches (trace (snd run)) = launches (trace w)
     /\ fetches (trace (snd run)) = fetches (trace w))
  \/ exists domain r1 w1,
       URL_hostname env (startUrlOf s) = Normal domain
       /\ simpleFetch env (startUrlOf s) 10000 (entered domain w) = (Normal r1, w1)
       /\ ((exists h, goodContent r1 = Some h /\ isBlocked h = false
              /\ fst run = Normal (singlePage (startUrlOf s) h)
              /\ launches (trace (snd run)) = launches (trace w)
              /\ fetches (trace (snd run)) = S (fetches (trace w)))
           \/ ((forall h, goodContent r1 = Some h -> isBlocked h = true)
               /\ exists w2,
                    launches (trace w2) = launches (trace w)
                    /\ fetches (trace w2) = S (fetches (trace w))
                    /\ run = crawlWithPlaywright env (startUrlOf s) domain
                               (maxPagesOf options) options w2)).
Proof.
  intros Hs run. subst run. unfold crawlWebsite. simpl. rewrite Hs. simpl.
  destruct (URL_hostname env (startUrlOf s)) as [domain|e] eqn:Hd.
  2:{ left. exists e. io_unfold. simpl. rewrite Hd. simpl.
      split; [reflexivity|]. split; [reflexivity|].
      rewrite launches_app, fetches_app. unfold launches, fetches. simpl. lia. }
  right.
  destruct (simpleFetch_total env (startUrlOf s) 10000 (entered domain w))
    as (r1 & w1 & Hf).
  pose proof (simpleFetch_launches env (startUrlOf s) 10000 (entered domain w)) as Hl.
  pose proof (simpleFetch_fetches env (startUrlOf s) 10000 (entered domain w)) as Hn.
  rewrite Hf in Hl, Hn. simpl in Hl, Hn.
  assert (Hle : launches (trace (entered domain w)) = launches (trace w)).
  { unfold entered. io_unfold. simpl. rewrite !launches_app. unfold launches. simpl. lia. }
  assert (Hne : fetches (trace (entered domain w)) = fetches (trace w)).
  { unfold entered. io_unfold. simpl. rewrite !fetches_app. unfold fetches. simpl. lia. }
  exists domain, r1, w1. split; [reflexivity|]. split; [exact Hf|].
  unfold entered in Hf. unfold buildCrawlResult. io_unfold. simpl in *.
  rewrite Hd. simpl. rewrite Hf.
  destruct (goodContent r1) as [h|] eqn:Hg.
  - destruct (isBlocked h) eqn:Hb; simpl.
    + right. split; [intros h' Hh'; inversion Hh'; subst; exact Hb|].
      match goal with
      | |- context [crawlWithPlaywright _ _ _ _ _ ?wx] =>
          destruct (crawlWithPlaywright_total env (startUrlOf s) domain
                      (maxPagesOf options) options wx) as (r & w' & Hr);
          exists wx; rewrite Hr
      end.
      simpl. rewrite !launches_app, !fetches_app, Hl, Hn, Hle, Hne.
      unfold launches, fetches. simpl. repeat split; lia.
    + left. exists h.
      assert (Hok : success r1 = true).
      { unfold goodContent in Hg. destruct (success r1); [reflexivity|discriminate]. }
      destruct (simpleFetch_success _ _ _ _ _ _ Hf Hok) as (h' & Hh' & Ht).
      assert (h' = h).
      { unfold goodContent in Hg. rewrite Hok, Hh' in Hg.
        destruct (Js.truthyStr h' && (1000 <? Js.jsLength h')); congruence. }
      subst h'. rewrite Ht. simpl.
      split; [reflexivity|]. split; [exact Hb|]. split; [reflexivity|].
      rewrite !launches_app, !fetches_app, Hl, Hn, Hle, Hne.
      unfold launches, fetches. simpl. lia.
  - right. split; [intros h Hh; discriminate|]. simpl.
    match goal with
    | |- context [crawlWithPlaywright _ _ _ _ _ ?wx] =>
        destruct (crawlWithPlaywright_total env (startUrlOf s) domain
                    (maxPagesOf options) options wx) as (r & w' & Hr);
        exists wx; rewrite Hr
    end.
    simpl. rewrite !launches_app, !fetches_app, Hl, Hn, Hle, Hne.
    unfold launches, fetches. simpl. repeat split; lia.
Qed.

(** X2. Whenever the direct tier's result is not usable (a failed fetch, a
    content of fewer than 5000 units, a block marker at any length),
    [crawlWebsite] hands over to the browser tier, which it runs once, and
    returns what that tier returns. *)
Theorem crawlWebsite_escalates (env : Env) (s : string) (options : Input)
    (w : World) (domain : string) (r : SimpleResult) (w1 : World) :
  Js.truthyStr s = true ->
  URL_hostname env (startUrlOf s) = Normal domain ->
  simpleFetch env (startUrlOf s) 10000 (entered domain w) = (Normal r, w1) ->
  unusable r ->
  exists w2,
    crawlWebsite env (JsStr s) options w
    = crawlWithPlaywright env (startUrlOf s) domain (maxPagesOf options) options w2
    /\ launches (trace w2) = launches (trace w)
    /\ launches (trace (snd (crawlWebsite env (JsStr s) options w)))
       = S (launches (trace w)).
Proof.
  intros Hs Hd Hf Hun.
  destruct (crawlWebsite_paths env s options w Hs)
    as [(e & He & _) | (domain' & r1 & w1' & Hd' & Hf' & Hcase)];
    [congruence|].
  rewrite Hd in Hd'. inversion Hd'; subst domain'.
  rewrite Hf in Hf'. inversion Hf'; subst r1 w1'.
  destruct Hcase as [(h & Hg & Hb & _) | (_ & w2 & Hl & _ & Hrun)].
  - exfalso. unfold goodContent in Hg.
    destruct (success r) eqn:Hok; [|discriminate].
    destruct (html r) as [h'|] eqn:Hh; [|discriminate].
    destruct (Js.truthyStr h' && (1000 <? Js.jsLength h')); [|discriminate].
    inversion Hg; subst h'.
    unfold isBlocked in Hb. apply orb_false_iff in Hb as [Hm Hlen].
    apply N.ltb_ge in Hlen.
    destruct Hun as [Hfalse | (h0 & Hh0 & Hx)]; [congruence|].
    rewrite Hh in Hh0. inversion Hh0; subst h0.
    destruct Hx as [Hshort | Hmark]; [lia|congruence].
  - exists w2. split; [exact Hrun|]. split; [exact Hl|].
    rewrite Hrun, crawlWithPlaywright_launches, Hl. reflexivity.
Qed.

Arguments tierEvents : simpl never.

Lemma tierEvents_app tr1 tr2 :
  tierEvents (tr1 ++ tr2) = (tierEvents tr1 ++ tierEvents tr2)%list.
Proof. unfold tierEvents. rewrite List.filter_app. apply fmap_app. Qed.

(** The direct tier begins with its request and starts no browser. *)
Lemma simpleFetch_tierEvents env url timeout w :
  tierEvents (trace (snd (simpleFetch env url timeout w)))
  = (tierEvents (trace w) ++ [EvFetch url])%list.
Proof.
  unfold simpleFetch.
  io_run; rewrite ?tierEvents_app; unfold tierEvents; simpl;
    rewrite ?app_nil_r, <- ?app_assoc; reflexivity.
Qed.

(** The browser tier starts one browser and sends no request of its own. *)
Lemma crawlWithPlaywright_tierEvents env startUrl domain maxPages options w :
  tierEvents (trace (snd (crawlWithPlaywright env startUrl domain maxPages options w)))
  = (tierEvents (trace w) ++ [EvLaunch])%list.
Proof.
  unfold crawlWithPlaywright, buildCrawlResult.
  io_run; rewrite ?tierEvents_app; unfold tierEvents; simpl;
    rewrite ?app_nil_r, <- ?app_assoc; reflexivity.
Qed.

(** What [crawlWebsite] begins, in order: nothing, the direct tier alone, or
    the direct tier and then the browser tier. *)
Lemma crawlWebsite_tierEvents env websiteUrl options w :
  exists steps,
    tierEvents (trace (snd (crawlWebsite env websiteUrl options w)))
    = (tierEvents (trace w) ++ steps)%list
    /\ (steps = []
        \/ exists url, steps = [EvFetch url] \/ steps = [EvFetch url; EvLaunch]).
Proof.
  destruct (truthy websiteUrl) eqn:Htr.
  2:{ exists []. unfold crawlWebsite. rewrite Htr. simpl.
      rewrite app_nil_r. split; [reflexivity|left; reflexivity]. }
  destruct websiteUrl as [| |b|n|s]; try discriminate;
    try (exists []; unfold crawlWebsite; rewrite Htr; io_unfold; simpl;
         rewrite ?tierEvents_app; unfold tierEvents; simpl;
         rewrite ?app_nil_r; split; [reflexivity|left; reflexivity]).
  simpl in Htr. unfold crawlWebsite. simpl. rewrite Htr. simpl.
  destruct (URL_hostname env (startUrlOf s)) as [domain|e] eqn:Hd.
  2:{ exists []. io_unfold. simpl. rewrite Hd. simpl.
      rewrite ?tierEvents_app. unfold tierEvents. simpl.
      rewrite ?app_nil_r. split; [reflexivity|left; reflexivity]. }
  destruct (simpleFetch_total env (startUrlOf s) 10000 (entered domain w))
    as (r1 & w1 & Hf).
  pose proof (simpleFetch_tierEvents env (startUrlOf s) 10000 (entered domain w)) as Ht.
  rewrite Hf in Ht. cbn [snd] in Ht.
  assert (Hte : tierEvents (trace (entered domain w)) = tierEvents (trace w)).
  { unfold entered. io_unfold. simpl. rewrite !tierEvents_app.
    unfold tierEvents at 2 3. simpl. rewrite !app_nil_r. reflexivity. }
  rewrite Hte in Ht.
  unfold entered in Hf. unfold buildCrawlResult. io_unfold. simpl in *.
  rewrite Hd. simpl. rewrite Hf.
  assert (Hbrowser : forall wx,
    tierEvents (trace wx) = (tierEvents (trace w) ++ [EvFetch (startUrlOf s)])%list ->
    tierEvents (trace (snd (crawlWithPlaywright env (startUrlOf s) domain
                              (maxPagesOf options) options wx)))
    = (tierEvents (trace w) ++ [EvFetch (startUrlOf s); EvLaunch])%list).
  { intros wx Hwx. rewrite crawlWithPlaywright_tierEvents, Hwx, <- app_assoc.
    reflexivity. }
  assert (Hlogs : forall a b c d,
    tierEvents ((trace w1 ++ [(now w1, EvLog a b None)]) ++ [(now w1, EvLog c d None)])
    = (tierEvents (trace w) ++ [EvFetch (startUrlOf s)])%list).
  { intros. rewrite !tierEvents_app, Ht. unfold tierEvents at 2 3. simpl.
    rewrite !app_nil_r. reflexivity. }
  destruct (goodContent r1) as [h|] eqn:Hg.
  - destruct (isBlocked h) eqn:Hb; simpl.
    + exists [EvFetch (startUrlOf s); EvLaunch].
      split; [|right; exists (startUrlOf s); right; reflexivity].
      match goal with
      | |- context [crawlWithPlaywright _ _ _ _ _ ?wx] =>
          pose proof (Hbrowser wx (Hlogs _ _ _ _)) as Hsteps;
          destruct (crawlWithPlaywright_total env (startUrlOf s) domain
                      (maxPagesOf options) options wx) as (r & w' & Hr);
          rewrite Hr in Hsteps |- *
      end.
      simpl in *. exact Hsteps.
    + exists [EvFetch (startUrlOf s)].
      split; [|right; exists (startUrlOf s); left; reflexivity].
      assert (Hok : success r1 = true).
      { unfold goodContent in Hg. destruct (success r1); [reflexivity|discriminate]. }
      destruct (simpleFetch_success _ _ _ _ _ _ Hf Hok) as (h' & Hh' & Htx).
      assert (h' = h).
      { unfold goodContent in Hg. rewrite Hok, Hh' in Hg.
        destruct (Js.truthyStr h' && (1000 <? Js.jsLength h')); congruence. }
      subst h'. rewrite Htx. simpl.
      rewrite !tierEvents_app, Ht. unfold tierEvents at 2. simpl.
      rewrite ?app_nil_r. reflexivity.
  - simpl.
    exists [EvFetch (startUrlOf s); EvLaunch].
    split; [|right; exists (startUrlOf s); right; reflexivity].
    match goal with
    | |- context [crawlWithPlaywright _ _ _ _ _ ?wx] =>
        pose proof (Hbrowser wx (Hlogs _ _ _ _)) as Hsteps;
        destruct (crawlWithPlaywright_total env (startUrlOf s) domain
                    (maxPagesOf options) options wx) as (r & w' & Hr);
        rewrite Hr in Hsteps |- *
    end.
    simpl in *. exact Hsteps.
Qed.

(** X3. [crawlWebsite] tries every tier at most once, and in order: one call
    sends at most one request and starts at most one browser, and it starts
    a browser only after it has sent its request. What a call adds to the
    tiers begun is nothing, one request, or one request followed by one
    start of a browser. *)
Theorem crawlWebsite_no_retry (env : Env) (websiteUrl : JsVal) (options : Input)
    (w : World) :
  let w' := snd (crawlWebsite env websiteUrl options w) in
  (fetches (trace w') <= S (fetches (trace w)))%nat
  /\ (launches (trace w') <= S (launches (trace w)))%nat
  /\ (fetches (trace w) <= fetches (trace w'))%nat
  /\ (launches (trace w') = S (launches (trace w)) ->
      fetches (trace w') = S (fetches (trace w)))
  /\ exists steps,
       tierEvents (trace w') = (tierEvents (trace w) ++ steps)%list
       /\ (steps = []
           \/ exists url, steps = [EvFetch url] \/ steps = [EvFetch url; EvLaunch]).
Proof.
  intros w'. subst w'.
  pose proof (crawlWebsite_tierEvents env websiteUrl options w) as Horder.
  destruct (truthy websiteUrl) eqn:Htr.
  2:{ revert Horder. unfold crawlWebsite. rewrite Htr. simpl. intros Horder.
      repeat split; try lia. exact Horder. }
  destruct websiteUrl as [| |b|n|s]; try discriminate;
    try (revert Horder; unfold crawlWebsite; rewrite Htr; io_unfold; simpl;
         intros Horder;
         rewrite !fetches_app, !launches_app; unfold fetches, launches; simpl;
         repeat split; try lia; exact Horder).
  simpl in Htr.
  destruct (crawlWebsite_paths env s options w Htr)
    as [(e & _ & _ & Hl & Hn)
       | (domain & r1 & w1 & _ & _ & [(h & _ & _ & _ & Hl & Hn)
                                      | (_ & w2 & Hl & Hn & Hrun)])].
  - rewrite Hl, Hn. repeat split; try lia. exact Horder.
  - rewrite Hl, Hn. repeat split; try lia. exact Horder.
  - revert Horder.
    rewrite Hrun, crawlWithPlaywright_launches, crawlWithPlaywright_fetches, Hl, Hn.
    intros Horder. repeat split; try lia. exact Horder.
Qed.

Lemma crawlWebsite_escalates_witness :
  exists w2,
    crawlWebsite Scenario.deniedEnv (JsStr "shop.example") Scenario.input Scenario.start
    = crawlWithPlaywright Scenario.deniedEnv "https://shop.example" "shop.example" 10
        Scenario.input w2
    /\ launches (trace w2) = launches (trace Scenario.start)
    /\ launches (trace (snd (crawlWebsite Scenario.deniedEnv (JsStr "shop.example")
                               Scenario.input Scenario.start)))
       = S (launches (trace Scenario.start)).
Proof.
  pose (x := simpleFetch Scenario.deniedEnv "https://shop.example" 10000
               (entered "shop.example" Scenario.start)).
  apply (crawlWebsite_escalates Scenario.deniedEnv "shop.example" Scenario.input
           Scenario.start "shop.example"
           (match fst x with Normal r => r | Throw _ => mkSimpleResult false None None None end)
           (snd x)).
  - reflexivity.
  - reflexivity.
  - vm_compute. reflexivity.
  - right. exists Scenario.deniedPage. split; [vm_compute; reflexivity|].
    right. vm_compute. reflexivity.
Defined.

(** ** The browser tier *)

(** X4. When every call to the browser succeeds and navigation ends within its
    limit, the browser tier returns the one rendered page: the flags are
    computed on the markup itself, which is also the content handed on; the
    browser has been closed, and the tier has taken the time of its calls
    plus the 2000 ms it waits for the page to settle. *)
Theorem crawlWithPlaywright_renders (env : Env) (startUrl domain : string)
    (maxPages : N) (options : Input) (w : World) (markup title : string) :
  browserOk (chromium env startUrl) = true ->
  outcome (b_content (chromium env startUrl)) = Normal markup ->
  outcome (b_title (chromium env startUrl)) = Normal title ->
  exists w',
    crawlWithPlaywright env startUrl domain maxPages options w
    = (Normal (mkCrawlResult [mkPage startUrl title markup]
                 (buildMetadata [mkPage startUrl title markup] markup) markup), w')
    /\ now w' = now w + renderTime (chromium env startUrl)
    /\ closes (trace w') = S (closes (trace w)).
Proof.
  unfold browserOk, renderTime. intros Hok Hc Ht.
  repeat (apply andb_true_iff in Hok as [Hok ?]).
  unfold crawlWithPlaywright, buildCrawlResult. io_unfold. simpl.
  rewrite Hc, Ht in *.
  match goal with H : (took _ <? 15000) = true |- _ => rewrite H end.
  simpl.
  destruct (outcome (b_launch (chromium env startUrl))) as [[]|]; [|discriminate].
  destruct (outcome (b_newContext (chromium env startUrl))) as [[]|]; [|discriminate].
  destruct (outcome (b_newPage (chromium env startUrl))) as [[]|]; [|discriminate].
  destruct (outcome (b_goto (chromium env startUrl))) as [[]|]; [|discriminate].
  destruct (b_settle (chromium env startUrl)) as [[]|]; [|discriminate].
  destruct (outcome (b_close (chromium env startUrl))) as [[]|]; [|discriminate].
  simpl. eexists. split; [reflexivity|]. simpl. split; [lia|].
  rewrite !closes_app. unfold closes. simpl. lia.
Qed.

Lemma crawlWithPlaywright_renders_witness :
  exists w',
    crawlWithPlaywright Scenario.slowEnv "https://shop.example" "shop.example" 10
      Scenario.input Scenario.start
    = (Normal (mkCrawlResult
                 [mkPage "https://shop.example" "Shop" "<html>contact form</html>"]
                 (buildMetadata
                    [mkPage "https://shop.example" "Shop" "<html>contact form</html>"]
                    "<html>contact form</html>")
                 "<html>contact form</html>"), w')
    /\ now w' = now Scenario.start + renderTime (chromium Scenario.slowEnv "https://shop.example")
    /\ closes (trace w') = S (closes (trace Scenario.start)).
Proof.
  apply (crawlWithPlaywright_renders Scenario.slowEnv "https://shop.example"
           "shop.example" 10 Scenario.input Scenario.start);
    vm_compute; reflexivity.
Defined.

(** ** The external crawler *)

(** X5. [crawlUrl] returns no later than the instant at which its timer fires,
    whatever the child does. *)
Theorem crawlUrl_bounded (env : Env) (this : Crawl4AIClient) (url : string)
    (timeout : option N) (w : World) :
  let w' := snd (crawlUrl env this url timeout w) in
  now w <= now w'
  /\ now w' <= now w + crawlDeadline (default 30 timeout) + timer_lag env (now w).
Proof.
  assert (Hd : timerDelay (crawlDeadline (default 30 timeout))
               <= crawlDeadline (default 30 timeout))
    by (apply timerDelay_le; unfold crawlDeadline; lia).
  revert Hd. unfold crawlUrl, nodeCatch, nodeBind, crawlPromise, fromIO, onClose.
  generalize (timerDelay (crawlDeadline (default 30 timeout))). intros d Hd.
  io_unfold. cbn [now trace fst snd].
  destruct (p_spawnError _); [cbn [now trace fst snd]; lia|].
  destruct (p_closes _) as [t|];
    [destruct (t <? _) eqn:Ht; [apply N.ltb_lt in Ht|]|];
    repeat (match goal with
            | |- context [match p_code ?p with _ => _ end] => destruct (p_code p) as [[|?]|]
            | |- context [match JSON_parse ?e ?x with _ => _ end] => destruct (JSON_parse e x)
            | |- context [match getProp ?k ?j with _ => _ end] => destruct j
            | |- context [if optTruthy ?x then _ else _] => destruct (optTruthy x)
            end; cbn [getProp now trace fst snd]);
    simpl; lia.
Qed.

(** ** The outreach generator *)

(** X6. [generateOutreach] sends a request only when generation is enabled and
    a key is configured: it then sends exactly one. Otherwise it sends
    none, takes no time and returns the empty draft. *)
Theorem generateOutreach_requests (env : Env) (lead : Lead) (options : Input)
    (w : World) :
  let run := generateOutreach env lead options w in
  fetches (trace (snd run))
  = (if keyed env options then S (fetches (trace w)) else fetches (trace w))
  /\ (keyed env options = false ->
      fst run = Normal emptyOutreach /\ now (snd run) = now w).
Proof.
  unfold keyed, generateOutreach, parseOutreachResponse.
  destruct (ai_enabled options); simpl; [|auto].
  destruct (orElse (ai_openaiApiKey options) (OPENAI_API_KEY env)) as [[|c key]|].
  1,3: io_unfold; simpl; rewrite fetches_app; unfold fetches; simpl;
       split; [lia|auto].
  io_unfold. simpl. split; [|discriminate].
  destruct (outcome (openai env (now w) (String c key) (buildPrompt env lead options)))
    as [response|e]; simpl;
    [|rewrite !fetches_app; unfold fetches; simpl; lia].
  destruct (ok response); simpl;
    [|rewrite !fetches_app; unfold fetches; simpl; lia].
  destruct (outcome (body response)) as [bodyText|e]; simpl;
    [|rewrite !fetches_app; unfold fetches; simpl; lia].
  destruct (JSON_parse env bodyText) as [data|e]; simpl;
    [|rewrite !fetches_app; unfold fetches; simpl; lia].
  repeat (match goal with
          | |- context [match getProp ?k ?d with _ => _ end] =>
              destruct (getProp k d) as [[?|]|?]
          | |- context [match optProp ?k ?d with _ => _ end] =>
              destruct (optProp k d) as [[?|]|?]
          | |- context [if jsonTruthy ?x then _ else _] => destruct (jsonTruthy x)
          | |- context [match ?x with JNull => _ | _ => _ end] => destruct x
          end; simpl);
    rewrite ?fetches_app; unfold fetches; simpl; lia.
Qed.

(** ** The enrichment phase *)

(** What a task leaves: the lead and the counter untouched, or the lead
    with the signals of one result merged in and the counter raised by one
    at most. *)
Lemma enrichLead_form env input lead count w :
  exists u w',
    enrichLead env input (mkUnit lead count, w) = (Normal tt, (u, w'))
    /\ ((u_lead u = lead /\ u_count u = count)
        \/ exists r hasHttps emails phones socials techSignals,
             u_lead u = mergeSignals r hasHttps emails phones socials techSignals lead
             /\ (u_count u = count \/ u_count u = count + 1)).
Proof.
  destruct (crawlWebsite_returns env (online_website lead) input (announced lead w))
    as (r & w2 & Hrun & Hstr).
  unfold enrichLead, getLead, liftIO, assign, increment. io_unfold.
  cbn [fst snd u_lead u_count]. unfold announced in Hrun. io_unfold.
  cbn [fst snd] in Hrun. rewrite Hrun.
  destruct (Js.truthyStr (htmlContent r)) eqn:Hc.
  2:{ do 2 eexists. split; [reflexivity|]. left. auto. }
  destruct (extractEmails env (htmlContent r) (online_domain lead)) as [emails|e].
  2:{ do 2 eexists. split; [reflexivity|]. left. auto. }
  destruct (extractPhones env (htmlContent r)) as [phones|e].
  2:{ do 2 eexists. split; [reflexivity|]. left. auto. }
  destruct (extractSocials env (htmlContent r)) as [socials|e].
  2:{ do 2 eexists. split; [reflexivity|]. left. auto. }
  destruct (detectTechSignals env (htmlContent r)) as [techSignals|e].
  2:{ do 2 eexists. split; [reflexivity|]. left. auto. }
  destruct (online_website lead) as [| |b|n|s] eqn:Hweb;
    try (rewrite Hstr in Hc by discriminate; discriminate).
  destruct (nonEmpty emails) eqn:Hn1, (nonEmpty phones) eqn:Hn2,
    (someSocial socials);
    cbn [orb fst snd u_lead u_count];
    do 2 eexists; (split; [reflexivity|]); right;
    exists r, (Js.startsWith "https" s), emails, phones, socials, techSignals;
    unfold mergeSignals, addEmails, addPhones; rewrite Hn1, Hn2;
    (split; [reflexivity|auto]).
Qed.

(** X7. Enrichment only adds: a task keeps the name, the website, the domain
    and the generated content of its lead, and the addresses and telephone
    numbers the lead had stay in place, in order, those found on the site
    coming after them. The counter of enriched leads never goes down and
    rises by one at most. *)
Theorem enrichLead_only_adds (env : Env) (input : Input) (lead : Lead)
    (count : N) (w : World) :
  let u := fst (snd (enrichLead env input (mkUnit lead count, w))) in
  business_name (u_lead u) = business_name lead
  /\ online_website (u_lead u) = online_website lead
  /\ online_domain (u_lead u) = online_domain lead
  /\ lead_ai (u_lead u) = lead_ai lead
  /\ (exists found, contacts_emails (u_lead u) = (contacts_emails lead ++ found)%list)
  /\ (exists found, contacts_phones (u_lead u) = (contacts_phones lead ++ found)%list)
  /\ count <= u_count u <= count + 1.
Proof.
  destruct (enrichLead_form env input lead count w)
    as (u & w' & Hrun & [[Hl Hc] | (r & https & emails & phones & socials & tech & Hl & Hc)]);
    rewrite Hrun; cbn [fst snd]; rewrite Hl.
  - repeat split; try reflexivity; try lia; exists []; rewrite app_nil_r; reflexivity.
  - unfold mergeSignals, addEmails, addPhones.
    destruct (nonEmpty emails), (nonEmpty phones); simpl;
      repeat split; try reflexivity; try (destruct Hc; lia);
      try (eexists; reflexivity); exists []; rewrite app_nil_r; reflexivity.
Qed.

Lemma startAll_count env input t0 batch : forall i count tr,
  let count' := snd (fst (startAll env input t0 i batch count tr)) in
  count <= count' <= count + N.of_nat (length batch).
Proof.
  induction batch as [|lead rest IH]; intros i count tr; simpl; [lia|].
  destruct (enrichLead_form env input lead count (mkWorld t0 tr))
    as (u & w' & Hrun & Hcase).
  rewrite Hrun. specialize (IH (S i) (u_count u) (trace w')). simpl in IH.
  destruct (startAll env input t0 (S i) rest (u_count u) (trace w'))
    as [[ss count'] tr']. simpl in *.
  destruct Hcase as [[_ Hc] | (? & ? & ? & ? & ? & ? & _ & [Hc|Hc])]; lia.
Qed.

Lemma enrichFrom_count env input : forall fuel i st w c st' w',
  enrichFrom fuel env input i st w = Some (c, st', w') ->
  ph_count st <= ph_count st'
  /\ ph_count st' <= ph_count st + N.of_nat (length (ph_leads st) - i).
Proof.
  induction fuel as [|fuel IH]; intros i st w c st' w'; simpl; [discriminate|].
  destruct (i <? length (ph_leads st))%nat eqn:Hi.
  2:{ intros H. inversion H; subst. lia. }
  apply Nat.ltb_lt in Hi. unfold log, emit. cbn [snd now trace].
  set (batch := take batchSize (drop i (ph_leads st))).
  match goal with
  | |- context [startAll env input ?t0 i batch ?cnt ?tr] =>
      pose proof (startAll_count env input t0 batch i cnt tr) as Hcount;
      destruct (startAll_settles env input t0 batch i cnt tr)
        as (ss & count' & tr' & Hss & _ & Hleads & Hall)
  end.
  rewrite Hss in *. cbn [fst snd] in Hcount.
  assert (Hlen_batch : length batch = min batchSize (length (ph_leads st) - i)).
  { unfold batch. rewrite length_take, length_drop. lia. }
  unfold awaitAll.
  rewrite firstRejection_none
    by (eapply Forall_impl; [exact Hall|]; intros u (_ & _ & Hn); exact Hn).
  intros Hrun. apply IH in Hrun. cbn [ph_leads ph_count] in Hrun.
  rewrite !length_app, length_take, Hleads, length_fmap, Hlen_batch, length_drop
    in Hrun.
  unfold batchSize in *. lia.
Qed.

(** X8. The counter of enriched leads the loop ends with never exceeds the
    number of leads it was given. *)
Theorem enrichAll_count_bounded (env : Env) (input : Input) (leads : list Lead)
    (w : World) :
  exists st w',
    enrichAll env input leads w = Some (Normal tt, st, w')
    /\ ph_count st <= N.of_nat (length leads)
    /\ length (ph_leads st) = length leads.
Proof.
  unfold enrichAll.
  destruct (enrichFrom_runs env input (S (length leads)) 0 (mkPhase leads 0 []) w)
    as (st & w' & new & Hrun & _ & Hlen & _); [simpl; lia|].
  exists st, w'. split; [exact Hrun|].
  apply enrichFrom_count in Hrun. simpl in *. split; [lia|exact Hlen].
Qed.

(** ** The generation phase *)

Lemma generateFor_counts env input len i lead count w :
  lead_ai lead = None ->
  exists u w',
    generateFor env input len i (mkUnit lead count, w) = (Normal tt, (u, w'))
    /\ u_count u = count + (if hasAiContent (u_lead u) then 1 else 0).
Proof.
  intros Hnone.
  destruct (generateOutreach_runs env lead input (marked i w))
    as (o & w1 & Hrun & _).
  unfold marked in *. unfold generateFor, getLead, liftIO, clock, assign, increment,
    sleep, hasAiContent.
  io_unfold. cbn [fst snd u_lead u_count now trace] in *. rewrite Hrun.
  unfold someDraft.
  destruct (Js.truthyStr (coldEmail o) || Js.truthyStr (voicemail o)
            || Js.truthyStr (sms o)) eqn:Hd;
    cbn [fst snd u_lead u_count now trace];
    destruct (i <? len - 1)%nat; cbn [fst snd u_lead u_count now trace];
    do 2 eexists; (split; [reflexivity|]); cbn [u_lead u_count set_ai lead_ai
      ai_coldEmail ai_voicemail ai_sms];
    rewrite ?Hnone, ?Hd; lia.
Qed.

Lemma generateFrom_counts env input len : forall rest i aiCount w,
  Forall (fun lead => lead_ai lead = None) rest ->
  let '(leads', n, _) := generateFrom env input len i rest aiCount w in
  n = aiCount + summaryAiCount leads'.
Proof.
  unfold summaryAiCount.
  induction rest as [|lead rest IH]; intros i aiCount w Hall; simpl; [lia|].
  inversion Hall as [|? ? Hlead Hrest]; subst.
  destruct (generateFor_counts env input len i lead aiCount w Hlead)
    as (u & w' & Hrun & Hc).
  rewrite Hrun. specialize (IH (S i) (u_count u) w' Hrest).
  destruct (generateFrom env input len (S i) rest (u_count u) w') as [[leads' n] w''].
  simpl. destruct (hasAiContent (u_lead u)); simpl; lia.
Qed.

(** X9. The counter the generation loop ends with is the count of the run
    summary: when no lead carries generated content beforehand, [aiCount]
    is the number of leads that carry some afterwards. *)
Theorem generateAll_counts (env : Env) (input : Input) (leads : list Lead)
    (w : World) :
  Forall (fun lead => lead_ai lead = None) leads ->
  let '(leads', aiCount, _) := generateAll env input leads w in
  aiCount = summaryAiCount leads' /\ aiCount <= N.of_nat (length leads).
Proof.
  intros Hall. unfold generateAll.
  pose proof (generateFrom_counts env input (length leads) leads 0 0 w Hall) as Hc.
  destruct (generateFrom_runs env input (length leads) leads 0 0 w eq_refl)
    as (leads' & n & w' & calls & Hloop & _ & _ & _ & _ & Hrel & _).
  rewrite Hloop in *. split; [lia|].
  rewrite Hc. unfold summaryAiCount. simpl.
  apply Forall2_length in Hrel. rewrite Hrel.
  pose proof (List.filter_length_le hasAiContent leads'). lia.
Qed.

Lemma generateAll_counts_witness :
  let '(leads', aiCount, _) :=
    generateAll GenerationScenario.env Scenario.input GenerationScenario.leads
      Scenario.start in
  aiCount = summaryAiCount leads' /\ aiCount <= N.of_nat (length GenerationScenario.leads).
Proof.
  apply (generateAll_counts GenerationScenario.env Scenario.input
           GenerationScenario.leads Scenario.start).
  repeat constructor.
Defined.

(** ** The text rendering of a page *)

Lemma trimEnd_prefix s : exists rest, s = Js.trimEnd s +:+ rest.
Proof.
  induction s as [|c r [rest IH]]; simpl; [exists EmptyString; reflexivity|].
  destruct (Js.isSpace c && Js.isEmpty (Js.trimEnd r)).
  - exists (String c r). reflexivity.
  - exists rest. change (String c r = String c (Js.trimEnd r +:+ rest)).
    rewrite <- IH. reflexivity.
Qed.

Lemma trimStart_idem s : Js.trimStart (Js.trimStart s) = Js.trimStart s.
Proof.
  induction s as [|c r IH]; simpl; [reflexivity|].
  destruct (Js.isSpace c) eqn:Hc; [exact IH|]. simpl. rewrite Hc. reflexivity.
Qed.

Lemma trimEnd_idem s : Js.trimEnd (Js.trimEnd s) = Js.trimEnd s.
Proof.
  induction s as [|c r IH]; simpl; [reflexivity|].
  destruct (Js.isSpace c && Js.isEmpty (Js.trimEnd r)) eqn:Hc; [reflexivity|].
  simpl. rewrite IH, Hc. reflexivity.
Qed.

Lemma trimEnd_trimStart s :
  Js.trimEnd s = s -> Js.trimEnd (Js.trimStart s) = Js.trimStart s.
Proof.
  induction s as [|c r IH]; simpl; [reflexivity|].
  destruct (Js.isSpace c) eqn:Hc.
  - destruct (Js.isEmpty (Js.trimEnd r)); simpl; [discriminate|].
    intros H. inversion H as [Hr]. rewrite Hr. apply IH. exact Hr.
  - simpl. rewrite Hc. simpl. intros H. exact H.
Qed.

(** [trim] leaves no white space at either end. *)
Lemma trim_trimmed s :
  Js.trimStart (Js.trim s) = Js.trim s /\ Js.trimEnd (Js.trim s) = Js.trim s.
Proof.
  unfold Js.trim. split; [apply trimStart_idem|].
  apply trimEnd_trimStart, trimEnd_idem.
Qed.

Lemma singleSpaced_collapse s : forall b,
  singleSpaced b (Js.collapseFrom b s) = true.
Proof.
  induction s as [|c r IH]; intros b; simpl; [reflexivity|].
  destruct (Js.isSpace c) eqn:Hc.
  - destruct b; [apply IH|]. simpl. rewrite IH. reflexivity.
  - simpl. rewrite Hc. apply IH.
Qed.

Lemma singleSpaced_weaken s : singleSpaced true s = true -> singleSpaced false s = true.
Proof.
  destruct s as [|c r]; simpl; [reflexivity|].
  destruct (Js.isSpace c); [|auto]. rewrite andb_false_r. discriminate.
Qed.

Lemma singleSpaced_app_l x : forall b y,
  singleSpaced b (x +:+ y) = true -> singleSpaced b x = true.
Proof.
  induction x as [|c r IH]; intros b y; simpl; [reflexivity|].
  destruct (Js.isSpace c).
  - intros H. apply andb_true_iff in H as [H1 H2]. rewrite H1. apply (IH _ _ H2).
  - apply IH.
Qed.

Lemma singleSpaced_trimStart s : forall b,
  singleSpaced b s = true -> singleSpaced false (Js.trimStart s) = true.
Proof.
  induction s as [|c r IH]; intros b; simpl; [reflexivity|].
  destruct (Js.isSpace c) eqn:Hc.
  - intros H. apply andb_true_iff in H as [_ H]. apply (IH _ H).
  - simpl. rewrite Hc. auto.
Qed.

Lemma singleSpaced_trim s :
  singleSpaced false s = true -> singleSpaced false (Js.trim s) = true.
Proof.
  intros H. unfold Js.trim. apply (singleSpaced_trimStart _ false).
  destruct (trimEnd_prefix s) as [rest Hrest]. rewrite Hrest in H.
  apply (singleSpaced_app_l _ _ _ H).
Qed.

Lemma length_stripTags s : forall b,
  (String.length (Js.stripTagsFrom b s) <= String.length s)%nat.
Proof.
  induction s as [|c r IH]; intros b; simpl; [lia|].
  destruct b.
  - destruct (Ascii.eqb c ">"); simpl; [specialize (IH false)|specialize (IH true)]; lia.
  - destruct (Ascii.eqb c "<" && Js.hasChar ">" r); simpl;
      [specialize (IH true)|specialize (IH false)]; lia.
Qed.

Lemma length_collapse s : forall b,
  (String.length (Js.collapseFrom b s) <= String.length s)%nat.
Proof.
  induction s as [|c r IH]; intros b; simpl; [lia|].
  pose proof (IH true). pose proof (IH false).
  destruct (Js.isSpace c); [destruct b|]; simpl; lia.
Qed.

Lemma length_trimStart s : (String.length (Js.trimStart s) <= String.length s)%nat.
Proof.
  induction s as [|c r IH]; simpl; [lia|]. destruct (Js.isSpace c); simpl; lia.
Qed.

Lemma length_trimEnd s : (String.length (Js.trimEnd s) <= String.length s)%nat.
Proof.
  induction s as [|c r IH]; simpl; [lia|].
  destruct (Js.isSpace c && Js.isEmpty (Js.trimEnd r)); simpl; lia.
Qed.

Lemma hasChar_app_l x c y : Js.hasChar c x = true -> Js.hasChar c (x +:+ y) = true.
Proof.
  induction x as [|a x IH]; simpl; [discriminate|].
  destruct (Ascii.eqb a c); simpl; auto.
Qed.

Lemma isSpace_not_gt c : Js.isSpace c = true -> Ascii.eqb c ">" = false.
Proof. destruct (Ascii.eqb_spec c ">"); [subst; discriminate|reflexivity]. Qed.

Lemma isSpace_not_lt c : Js.isSpace c = true -> Ascii.eqb c "<" = false.
Proof. destruct (Ascii.eqb_spec c "<"); [subst; discriminate|reflexivity]. Qed.

Lemma hasChar_gt_strip s : forall b,
  Js.hasChar ">" s = false -> Js.hasChar ">" (Js.stripTagsFrom b s) = false.
Proof.
  induction s as [|c r IH]; intros b; simpl; [reflexivity|].
  intros H. apply orb_false_iff in H as [Hc Hr]. rewrite Hc, Hr.
  destruct b; [apply IH, Hr|]. rewrite andb_false_r. simpl. rewrite Hc. apply IH, Hr.
Qed.

Lemma tagFree_strip s : forall b, tagFree (Js.stripTagsFrom b s) = true.
Proof.
  induction s as [|c r IH]; intros b; simpl; [reflexivity|].
  destruct b.
  - destruct (Ascii.eqb c ">"); simpl; apply IH.
  - destruct (Ascii.eqb c "<") eqn:Hc; simpl.
    + destruct (Js.hasChar ">" r) eqn:Hr; simpl; [apply IH|].
      rewrite Hc, (hasChar_gt_strip r false Hr). simpl. apply IH.
    + rewrite Hc. simpl. apply IH.
Qed.

Lemma hasChar_gt_collapse s : forall b,
  Js.hasChar ">" (Js.collapseFrom b s) = Js.hasChar ">" s.
Proof.
  induction s as [|c r IH]; intros b; simpl; [reflexivity|].
  destruct (Js.isSpace c) eqn:Hc.
  - rewrite (isSpace_not_gt c Hc). destruct b; simpl; apply IH.
  - simpl. rewrite IH. reflexivity.
Qed.

Lemma tagFree_collapse s : forall b,
  tagFree s = true -> tagFree (Js.collapseFrom b s) = true.
Proof.
  induction s as [|c r IH]; intros b; simpl; [reflexivity|].
  intros H. apply andb_true_iff in H as [Hc Hr].
  destruct (Js.isSpace c) eqn:Hs.
  - destruct b; simpl; apply IH, Hr.
  - simpl. rewrite hasChar_gt_collapse, Hc. apply IH, Hr.
Qed.

Lemma tagFree_trimStart s : tagFree s = true -> tagFree (Js.trimStart s) = true.
Proof.
  induction s as [|c r IH]; simpl; [reflexivity|].
  intros H. destruct (Js.isSpace c); [|exact H].
  apply andb_true_iff in H as [_ Hr]. apply IH, Hr.
Qed.

Lemma tagFree_app_l x y : tagFree (x +:+ y) = true -> tagFree x = true.
Proof.
  induction x as [|c x IH]; simpl; [reflexivity|].
  intros H. apply andb_true_iff in H as [Hc Hr]. rewrite (IH Hr), andb_true_r.
  destruct (Ascii.eqb c "<"); [|reflexivity]. simpl in *.
  destruct (Js.hasChar ">" x) eqn:Hx; [|reflexivity].
  rewrite (hasChar_app_l x ">" y Hx) in Hc. discriminate.
Qed.

Lemma htmlToText_no_tag (markup : string) : tagFree (htmlToText markup) = true.
Proof.
  unfold htmlToText, Js.trim, Js.collapseSpaces, Js.stripTags.
  apply tagFree_trimStart.
  destruct (trimEnd_prefix (Js.collapseFrom false (Js.stripTagsFrom false markup)))
    as [rest Hrest].
  apply (tagFree_app_l _ rest). rewrite <- Hrest.
  apply tagFree_collapse, tagFree_strip.
Qed.

(** X10. The text of a page is in normal form: no white space at either end,
    every white space inside is one plain space, no tag is left (none of
    its ["<"] is followed by a [">"]), and it is no longer than the
    markup. *)
Theorem htmlToText_normal (markup : string) :
  let t := htmlToText markup in
  Js.trimStart t = t
  /\ Js.trimEnd t = t
  /\ singleSpaced false t = true
  /\ tagFree t = true
  /\ Js.jsLength t <= Js.jsLength markup.
Proof.
  unfold htmlToText. split; [apply trim_trimmed|]. split; [apply trim_trimmed|].
  split; [|split].
  - apply singleSpaced_trim. unfold Js.collapseSpaces. apply singleSpaced_collapse.
  - apply htmlToText_no_tag.
  - unfold Js.jsLength, Js.trim, Js.collapseSpaces, Js.stripTags.
    pose proof (length_trimStart
                  (Js.trimEnd (Js.collapseFrom false (Js.stripTagsFrom false markup)))).
    pose proof (length_trimEnd (Js.collapseFrom false (Js.stripTagsFrom false markup))).
    pose proof (length_collapse (Js.stripTagsFrom false markup) false).
    pose proof (length_stripTags markup false).
    lia.
Qed.

(** X11. Whenever [crawlWebsite] returns without having launched the browser,
    the content it hands to the extractors holds no tag: it is empty, or
    the text of the page fetched, not its markup. *)
Theorem crawlWebsite_text_without_browser (env : Env) (websiteUrl : JsVal)
    (options : Input) (w : World) :
  let run := crawlWebsite env websiteUrl options w in
  launches (trace (snd run)) = launches (trace w) ->
  exists r,
    fst run = Normal r
    /\ tagFree (htmlContent r) = true
    /\ Forall (fun page => htmlContent r = htmlToText (p_html page)) (pages r).
Proof.
  intros run Hl.
  destruct (crawlWebsite_returns env websiteUrl options w) as (r & w' & Hrun & Hempty).
  assert (Hcase : r = emptyResult \/ exists s, websiteUrl = JsStr s /\ Js.truthyStr s = true).
  { destruct websiteUrl as [| |b|n|s]; try (left; apply Hempty; congruence).
    destruct (Js.truthyStr s) eqn:Hs; [right; eauto|].
    left. unfold crawlWebsite in Hrun. simpl in Hrun. rewrite Hs in Hrun.
    simpl in Hrun. unfold ret in Hrun. congruence. }
  destruct Hcase as [-> | (s & -> & Hs)].
  { exists emptyResult. subst run. rewrite Hrun. repeat split. constructor. }
  destruct (crawlWebsite_paths env s options w Hs)
    as [(e & _ & Hr & _)
       | (domain & r1 & w1 & _ & _ &
          [(h & _ & _ & Hr & _) | (_ & w2 & Hl2 & _ & Hp)])].
  - exists emptyResult. fold run in Hr. split; [exact Hr|]. repeat split. constructor.
  - exists (singlePage (startUrlOf s) h). fold run in Hr. split; [exact Hr|].
    split; [apply htmlToText_no_tag|]. repeat constructor.
  - fold run in Hp. exfalso. rewrite Hp, crawlWithPlaywright_launches in Hl. lia.
Qed.

Lemma crawlWebsite_text_without_browser_witness :
  exists r,
    fst (crawlWebsite Scenario.formEnv (JsStr "shop.example") Scenario.input
           Scenario.start) = Normal r
    /\ tagFree (htmlContent r) = true
    /\ Forall (fun page => htmlContent r = htmlToText (p_html page)) (pages r).
Proof.
  apply (crawlWebsite_text_without_browser Scenario.formEnv (JsStr "shop.example")
           Scenario.input Scenario.start).
  vm_compute. reflexivity.
Defined.

(** ** Tokens of the text occur in the markup *)

Lemma prefix_cons a n c s :
  String.prefix (String a n) (String c s) = Ascii.eqb a c && String.prefix n s.
Proof.
  simpl. destruct (ascii_dec a c) as [->|Hne].
  - rewrite Ascii.eqb_refl. reflexivity.
  - apply Ascii.eqb_neq in Hne. rewrite Hne. reflexivity.
Qed.

Lemma prefix_empty n : String.prefix n EmptyString = true -> n = EmptyString.
Proof. destruct n; [reflexivity|discriminate]. Qed.

Lemma includes_empty hay : Js.includes EmptyString hay = true.
Proof. destruct hay; reflexivity. Qed.

Lemma includes_cons n c r :
  Js.includes n (String c r) = String.prefix n (String c r) || Js.includes n r.
Proof. reflexivity. Qed.

Lemma includes_tail n c r : Js.includes n r = true -> Js.includes n (String c r) = true.
Proof. intros H. rewrite includes_cons, H. apply orb_true_r. Qed.

Lemma prefix_space n r :
  spaceFree n = true -> String.prefix n (String " " r) = true -> n = EmptyString.
Proof.
  destruct n as [|a n]; [reflexivity|]. unfold spaceFree. intros Hn.
  rewrite prefix_cons. intros H. apply andb_true_iff in H as [Ha _].
  simpl in Hn. rewrite Ha in Hn. discriminate.
Qed.

Lemma spaceFree_tail a n : spaceFree (String a n) = true -> spaceFree n = true.
Proof.
  unfold spaceFree. simpl. destruct (Ascii.eqb a " "); [discriminate|]. auto.
Qed.

Lemma prefix_app_l n : forall x y,
  String.prefix n x = true -> String.prefix n (x +:+ y) = true.
Proof.
  induction n as [|a n IH]; intros x y; [destruct (x +:+ y); reflexivity|].
  destruct x as [|c x]; [discriminate|].
  change (String c x +:+ y) with (String c (x +:+ y)).
  rewrite !prefix_cons. intros H. apply andb_true_iff in H as [-> H].
  simpl. apply IH, H.
Qed.

Lemma includes_app_l n x : forall y,
  Js.includes n x = true -> Js.includes n (x +:+ y) = true.
Proof.
  induction x as [|c x IH]; intros y H.
  - simpl in H. rewrite orb_false_r in H. apply prefix_empty in H. subst n.
    apply includes_empty.
  - change (String c x +:+ y) with (String c (x +:+ y)).
    rewrite includes_cons in *. apply orb_true_iff in H as [H|H].
    + apply (prefix_app_l _ _ y) in H.
      change (String c x +:+ y) with (String c (x +:+ y)) in H.
      rewrite H. reflexivity.
    + rewrite (IH y H). apply orb_true_r.
Qed.

Lemma prefix_strip_inTag s : forall n,
  spaceFree n = true ->
  String.prefix n (Js.stripTagsFrom true s) = true -> n = EmptyString.
Proof.
  induction s as [|c r IH]; intros n Hn; simpl.
  - apply prefix_empty.
  - destruct (Ascii.eqb c ">"); [apply prefix_space, Hn|apply IH, Hn].
Qed.

Lemma prefix_strip s : forall n,
  spaceFree n = true ->
  String.prefix n (Js.stripTagsFrom false s) = true -> String.prefix n s = true.
Proof.
  induction s as [|c r IH]; intros n Hn; [exact id|].
  destruct n as [|a n]; [reflexivity|].
  simpl Js.stripTagsFrom.
  destruct (Ascii.eqb c "<" && Js.hasChar ">" r).
  - intros H. apply prefix_strip_inTag in H; [discriminate|exact Hn].
  - rewrite !prefix_cons. intros H. apply andb_true_iff in H as [-> H].
    simpl. apply IH; [exact (spaceFree_tail _ _ Hn)|exact H].
Qed.

Lemma includes_strip s : forall b n,
  spaceFree n = true ->
  Js.includes n (Js.stripTagsFrom b s) = true -> Js.includes n s = true.
Proof.
  induction s as [|c r IH]; intros b n Hn; [exact id|].
  intros H.
  destruct b; simpl Js.stripTagsFrom in H.
  - destruct (Ascii.eqb c ">").
    + rewrite includes_cons in H. apply orb_true_iff in H as [H|H].
      * apply prefix_space in H; [subst n; apply includes_empty|exact Hn].
      * apply includes_tail, (IH false n Hn H).
    + apply includes_tail, (IH true n Hn H).
  - destruct (Ascii.eqb c "<" && Js.hasChar ">" r) eqn:Htag.
    + apply includes_tail, (IH true n Hn H).
    + rewrite includes_cons in H. apply orb_true_iff in H as [H|H].
      * rewrite includes_cons.
        rewrite (prefix_strip (String c r) n Hn); [reflexivity|].
        simpl Js.stripTagsFrom. rewrite Htag. exact H.
      * apply includes_tail, (IH false n Hn H).
Qed.

Lemma prefix_collapse s : forall n,
  spaceFree n = true ->
  String.prefix n (Js.collapseFrom false s) = true -> String.prefix n s = true.
Proof.
  induction s as [|c r IH]; intros n Hn; [exact id|].
  destruct n as [|a n]; [reflexivity|].
  simpl Js.collapseFrom. destruct (Js.isSpace c).
  - intros H. apply prefix_space in H; [discriminate|exact Hn].
  - rewrite !prefix_cons. intros H. apply andb_true_iff in H as [-> H].
    simpl. apply IH; [exact (spaceFree_tail _ _ Hn)|exact H].
Qed.

Lemma includes_collapse s : forall b n,
  spaceFree n = true ->
  Js.includes n (Js.collapseFrom b s) = true -> Js.includes n s = true.
Proof.
  induction s as [|c r IH]; intros b n Hn; [exact id|].
  intros H. simpl Js.collapseFrom in H.
  destruct (Js.isSpace c) eqn:Hc.
  - destruct b.
    + apply includes_tail, (IH true n Hn H).
    + rewrite includes_cons in H. apply orb_true_iff in H as [H|H].
      * apply prefix_space in H; [subst n; apply includes_empty|exact Hn].
      * apply includes_tail, (IH true n Hn H).
  - rewrite includes_cons in H. apply orb_true_iff in H as [H|H].
    + rewrite includes_cons.
      rewrite (prefix_collapse (String c r) n Hn); [reflexivity|].
      simpl Js.collapseFrom. rewrite Hc. exact H.
    + apply includes_tail, (IH false n Hn H).
Qed.

Lemma includes_trimStart s : forall n,
  Js.includes n (Js.trimStart s) = true -> Js.includes n s = true.
Proof.
  induction s as [|c r IH]; intros n; [exact id|].
  simpl Js.trimStart. destruct (Js.isSpace c); [|exact id].
  intros H. apply includes_tail, IH, H.
Qed.

Lemma includes_trim s n : Js.includes n (Js.trim s) = true -> Js.includes n s = true.
Proof.
  unfold Js.trim. intros H. apply includes_trimStart in H.
  destruct (trimEnd_prefix s) as [rest Hrest].
  rewrite Hrest. apply includes_app_l, H.
Qed.

(** Lower-casing commutes with every step of the rendering. *)

Lemma lowerChar_space c : Js.isSpace (Js.lowerChar c) = Js.isSpace c.
Proof. destruct c as [[] [] [] [] [] [] [] []]; reflexivity. Qed.

Lemma lowerChar_gt c : Ascii.eqb (Js.lowerChar c) ">" = Ascii.eqb c ">".
Proof. destruct c as [[] [] [] [] [] [] [] []]; reflexivity. Qed.

Lemma lowerChar_lt c : Ascii.eqb (Js.lowerChar c) "<" = Ascii.eqb c "<".
Proof. destruct c as [[] [] [] [] [] [] [] []]; reflexivity. Qed.

Lemma hasChar_gt_lower s : Js.hasChar ">" (Js.toLowerCase s) = Js.hasChar ">" s.
Proof.
  induction s as [|c r IH]; simpl; [reflexivity|]. rewrite lowerChar_gt, IH. reflexivity.
Qed.

Lemma stripTags_lower s : forall b,
  Js.toLowerCase (Js.stripTagsFrom b s) = Js.stripTagsFrom b (Js.toLowerCase s).
Proof.
  induction s as [|c r IH]; intros b; simpl; [reflexivity|].
  rewrite lowerChar_gt, lowerChar_lt, hasChar_gt_lower.
  destruct b.
  - destruct (Ascii.eqb c ">"); simpl; rewrite IH; reflexivity.
  - destruct (Ascii.eqb c "<" && Js.hasChar ">" r); simpl; rewrite IH; reflexivity.
Qed.

Lemma collapse_lower s : forall b,
  Js.toLowerCase (Js.collapseFrom b s) = Js.collapseFrom b (Js.toLowerCase s).
Proof.
  induction s as [|c r IH]; intros b; simpl; [reflexivity|].
  rewrite lowerChar_space.
  destruct (Js.isSpace c); [destruct b|]; simpl; rewrite IH; reflexivity.
Qed.

Lemma trimStart_lower s :
  Js.toLowerCase (Js.trimStart s) = Js.trimStart (Js.toLowerCase s).
Proof.
  induction s as [|c r IH]; simpl; [reflexivity|].
  rewrite lowerChar_space. destruct (Js.isSpace c); [exact IH|reflexivity].
Qed.

Lemma isEmpty_lower s : Js.isEmpty (Js.toLowerCase s) = Js.isEmpty s.
Proof. destruct s; reflexivity. Qed.

Lemma trimEnd_lower s :
  Js.toLowerCase (Js.trimEnd s) = Js.trimEnd (Js.toLowerCase s).
Proof.
  induction s as [|c r IH]; simpl; [reflexivity|].
  rewrite lowerChar_space, <- IH, isEmpty_lower.
  destruct (Js.isSpace c && Js.isEmpty (Js.trimEnd r)); reflexivity.
Qed.

Lemma htmlToText_lower markup :
  Js.toLowerCase (htmlToText markup) = htmlToText (Js.toLowerCase markup).
Proof.
  unfold htmlToText, Js.trim, Js.collapseSpaces, Js.stripTags.
  rewrite trimStart_lower, trimEnd_lower, collapse_lower, stripTags_lower.
  reflexivity.
Qed.

Lemma lowerIncludes_text markup token :
  spaceFree token = true ->
  lowerIncludes (htmlToText markup) token = true ->
  lowerIncludes markup token = true.
Proof.
  unfold lowerIncludes. intros Hn H. rewrite htmlToText_lower in H.
  unfold htmlToText, Js.collapseSpaces, Js.stripTags in H.
  apply includes_trim, (includes_collapse _ _ _ Hn), (includes_strip _ _ _ Hn) in H.
  exact H.
Qed.

(** X12. Whatever flag the text of a page raises, its markup raises too: a
    token without a space that is found in the lower-cased text is found in
    the lower-cased markup. The direct tier, which scans the text, so never
    reports a form, a booking widget or a chat widget that the scan of the
    markup, as the browser tier does it, would not report. *)
Theorem text_flags_in_markup (markup : string) :
  (hasContactForm (htmlToText markup) = true -> hasContactForm markup = true)
  /\ (hasBookingWidget (htmlToText markup) = true -> hasBookingWidget markup = true)
  /\ (hasChatWidget (htmlToText markup) = true -> hasChatWidget markup = true).
Proof.
  assert (Hmono : forall token, spaceFree token = true ->
            lowerIncludes (htmlToText markup) token = true ->
            lowerIncludes markup token = true)
    by (intros; apply lowerIncludes_text; assumption).
  unfold hasContactForm, hasBookingWidget, hasChatWidget.
  repeat split; intros H;
    repeat match goal with
    | H : _ && _ = true |- _ => apply andb_true_iff in H as [? ?]
    | H : _ || _ = true |- _ => apply orb_true_iff in H as [?|?]
    end;
    repeat match goal with
    | H : lowerIncludes (htmlToText markup) ?t = true |- _ =>
        apply (Hmono t eq_refl) in H; rewrite H; clear H
    end;
    rewrite ?orb_true_r; reflexivity.
Qed.

(** ** The title of a page *)

Lemma app_cons a s y : String a s +:+ y = String a (s +:+ y).
Proof. reflexivity. Qed.

Lemma span_spec stop s : forall a b,
  Js.span stop s = (a, b) ->
  s = a +:+ b /\ Js.hasChar stop a = false.
Proof.
  induction s as [|c r IH]; intros a b; simpl.
  - intros [= <- <-]. split; reflexivity.
  - destruct (Ascii.eqb c stop) eqn:Hc.
    + intros [= <- <-]. split; reflexivity.
    + destruct (Js.span stop r) as [a' b'] eqn:Hr. intros [= <- <-].
      destruct (IH a' b' eq_refl) as [-> Ha]. split; [reflexivity|].
      simpl. rewrite Hc, Ha. reflexivity.
Qed.

Lemma span_app stop a : forall r,
  Js.hasChar stop a = false ->
  Js.span stop (a +:+ String stop r) = (a, String stop r).
Proof.
  induction a as [|c a IH]; intros r H.
  - change (EmptyString +:+ String stop r) with (String stop r).
    simpl. rewrite Ascii.eqb_refl. reflexivity.
  - rewrite app_cons. simpl in *. apply orb_false_iff in H as [Hc Ha].
    rewrite Hc, (IH r Ha). reflexivity.
Qed.

Lemma hasChar_trimStart c s :
  Js.hasChar c s = false -> Js.hasChar c (Js.trimStart s) = false.
Proof.
  induction s as [|a r IH]; simpl; [reflexivity|].
  intros H. destruct (Js.isSpace a); [|exact H].
  apply orb_false_iff in H as [_ Hr]. apply IH, Hr.
Qed.

Lemma hasChar_trim c s : Js.hasChar c s = false -> Js.hasChar c (Js.trim s) = false.
Proof.
  intros H. unfold Js.trim. apply hasChar_trimStart.
  destruct (trimEnd_prefix s) as [rest Hrest].
  destruct (Js.hasChar c (Js.trimEnd s)) eqn:Hx; [|reflexivity].
  rewrite Hrest, (hasChar_app_l _ c rest Hx) in H. discriminate.
Qed.

Lemma titleAt_clean s t : titleAt s = Some t -> Js.hasChar "<" t = false.
Proof.
  unfold titleAt. destruct (Js.prefixCI "<title" s); [|discriminate].
  destruct (Js.span ">" (Js.dropStr 6 s)) as [x [|c afterOpen]]; [discriminate|].
  destruct (Js.span "<" afterOpen) as [inner rest] eqn:Hspan.
  destruct (Js.truthyStr inner && Js.prefixCI "</title>" rest); [|discriminate].
  intros [= <-]. exact (proj2 (span_spec _ _ _ _ Hspan)).
Qed.

Lemma titleMatch_clean s : forall t, titleMatch s = Some t -> Js.hasChar "<" t = false.
Proof.
  induction s as [|c r IH]; intros t; [simpl; discriminate|].
  change (titleMatch (String c r))
    with (match titleAt (String c r) with
          | Some t => Some t
          | None => titleMatch r
          end).
  destruct (titleAt (String c r)) eqn:Ht; [|apply IH].
  intros [= <-]. exact (titleAt_clean _ _ Ht).
Qed.

(** X13. The title taken from a page is trimmed and holds no ["<"]. *)
Theorem extractTitle_clean (html : string) :
  let t := extractTitle html in
  Js.trimStart t = t /\ Js.trimEnd t = t /\ Js.hasChar "<" t = false.
Proof.
  unfold extractTitle. destruct (titleMatch html) as [t|] eqn:Hm; simpl.
  - destruct (trim_trimmed t) as [Hs He]. repeat split; [exact Hs|exact He|].
    apply hasChar_trim, (titleMatch_clean _ _ Hm).
  - repeat split.
Qed.

Lemma prefixCI_lower p : forall s,
  Js.prefixCI p s = String.prefix (Js.toLowerCase p) (Js.toLowerCase s).
Proof.
  induction p as [|a p IH]; intros s; [destruct s; reflexivity|].
  destruct s as [|c s]; [reflexivity|].
  simpl Js.toLowerCase. rewrite prefix_cons, <- IH. reflexivity.
Qed.

Lemma includes_head n hay : Js.includes n hay = false -> String.prefix n hay = false.
Proof.
  destruct hay as [|c r];
    [change (Js.includes n EmptyString) with (String.prefix n EmptyString || false)
    |rewrite includes_cons];
    intros H; apply orb_false_iff in H as [H _]; exact H.
Qed.

Lemma titleAt_absent s :
  Js.includes "<title" (Js.toLowerCase s) = false -> titleAt s = None.
Proof.
  intros H. unfold titleAt.
  replace (Js.prefixCI "<title" s) with false; [reflexivity|].
  rewrite prefixCI_lower. change (Js.toLowerCase "<title") with "<title".
  symmetry. apply includes_head, H.
Qed.

Lemma titleMatch_absent s :
  Js.includes "<title" (Js.toLowerCase s) = false -> titleMatch s = None.
Proof.
  induction s as [|c r IH]; intros H.
  - reflexivity.
  - change (titleMatch (String c r))
      with (match titleAt (String c r) with
            | Some t => Some t
            | None => titleMatch r
            end).
    rewrite (titleAt_absent _ H).
    apply IH. simpl Js.toLowerCase in H. rewrite includes_cons in H.
    apply orb_false_iff in H as [_ H]. exact H.
Qed.

(** X14. A page in which ["<title"] does not occur, in any case, has the empty
    title. *)
Theorem extractTitle_absent (html : string) :
  lowerIncludes html "<title" = false -> extractTitle html = "".
Proof.
  unfold lowerIncludes, extractTitle. intros H.
  rewrite (titleMatch_absent html H). reflexivity.
Qed.

Lemma extractTitle_absent_witness :
  lowerIncludes "<html><body>Acme</body></html>" "<title" = false
  /\ extractTitle "<html><body>Acme</body></html>" = "".
Proof.
  split; [reflexivity|]. apply extractTitle_absent. reflexivity.
Defined.

Lemma titleAt_inside c pre rest :
  Js.includes "<title" (Js.toLowerCase (String c pre)) = false ->
  titleAt (String c pre +:+ String "<" rest) = None.
Proof.
  intros H. apply includes_head in H.
  change "<title" with (Js.toLowerCase "<title") in H.
  rewrite <- prefixCI_lower in H.
  unfold titleAt.
  replace (Js.prefixCI "<title" (String c pre +:+ String "<" rest)) with false;
    [reflexivity|].
  symmetry.
  destruct pre as [|c2 [|c3 [|c4 [|c5 [|c6 pre]]]]];
    rewrite ?app_cons; change (EmptyString +:+ String "<" rest) with (String "<" rest);
    simpl; simpl in H; rewrite ?andb_false_r; try reflexivity.
  rewrite !andb_true_r in *. exact H.
Qed.

Lemma titleMatch_found s t : titleAt s = Some t -> titleMatch s = Some t.
Proof.
  intros H. destruct s as [|c r]; [simpl in H; discriminate|].
  change (titleMatch (String c r))
    with (match titleAt (String c r) with
          | Some t => Some t
          | None => titleMatch r
          end).
  rewrite H. reflexivity.
Qed.

Lemma titleMatch_skip pre : forall rest,
  Js.includes "<title" (Js.toLowerCase pre) = false ->
  titleMatch (pre +:+ String "<" rest) = titleMatch (String "<" rest).
Proof.
  induction pre as [|c pre IH]; intros rest H; [reflexivity|].
  rewrite app_cons.
  change (titleMatch (String c (pre +:+ String "<" rest)))
    with (match titleAt (String c (pre +:+ String "<" rest)) with
          | Some t => Some t
          | None => titleMatch (pre +:+ String "<" rest)
          end).
  rewrite <- app_cons, (titleAt_inside c pre rest H).
  apply IH. simpl Js.toLowerCase in H. rewrite includes_cons in H.
  apply orb_false_iff in H as [_ H]. exact H.
Qed.

Lemma titleAt_element attrs t rest :
  Js.hasChar ">" attrs = false ->
  Js.hasChar "<" t = false ->
  Js.truthyStr t = true ->
  titleAt ("<title" +:+ (attrs +:+ String ">" (t +:+ String "<" ("/title>" +:+ rest))))
  = Some t.
Proof.
  intros Hattrs Ht Hne. unfold titleAt.
  set (inner := t +:+ String "<" ("/title>" +:+ rest)).
  set (opened := attrs +:+ String ">" inner).
  change (Js.prefixCI "<title" ("<title" +:+ opened)) with true.
  change (Js.dropStr 6 ("<title" +:+ opened)) with opened.
  cbv iota. unfold opened, inner.
  rewrite (span_app ">" attrs _ Hattrs), (span_app "<" t _ Ht), Hne.
  reflexivity.
Qed.

(** X15. The title written in the first title element of a page is read back,
    trimmed: whatever precedes the element, whatever attributes its opening
    tag has and whatever follows it. *)
Theorem extractTitle_round_trip (pre attrs t rest : string) :
  lowerIncludes pre "<title" = false ->
  Js.hasChar ">" attrs = false ->
  Js.hasChar "<" t = false ->
  Js.truthyStr t = true ->
  extractTitle (pre +:+ "<title" +:+ attrs +:+ ">" +:+ t +:+ "</title>" +:+ rest)
  = Js.trim t.
Proof.
  unfold lowerIncludes. intros Hpre Hattrs Ht Hne.
  unfold extractTitle.
  change ("<title" +:+ attrs +:+ ">" +:+ t +:+ "</title>" +:+ rest)
    with (String "<" ("title" +:+ attrs +:+ ">" +:+ t +:+ "</title>" +:+ rest)).
  rewrite (titleMatch_skip pre _ Hpre).
  rewrite (titleMatch_found _ t); [reflexivity|].
  exact (titleAt_element attrs t rest Hattrs Ht Hne).
Qed.

Lemma extractTitle_round_trip_witness :
  extractTitle ("<html><head>" +:+ "<title" +:+ " lang=en" +:+ ">"
                +:+ " Acme Plumbing " +:+ "</title>" +:+ "</head></html>")
  = "Acme Plumbing".
Proof.
  apply (extractTitle_round_trip "<html><head>" " lang=en" " Acme Plumbing "
           "</head></html>"); reflexivity.
Defined.

(** ** Crawling a list of addresses with the external crawler *)

Arguments pauses : simpl never.

Lemma pauses_app tr1 tr2 : pauses (tr1 ++ tr2) = (pauses tr1 + pauses tr2)%nat.
Proof. unfold pauses. rewrite List.filter_app. apply length_app. Qed.

Lemma crawlDeadline_long t : (crawlDeadline t =? 500) = false.
Proof. apply N.eqb_neq. unfold crawlDeadline. lia. Qed.

Arguments requestsAndPauses : simpl never.

Lemma requestsAndPauses_app tr1 tr2 :
  requestsAndPauses (tr1 ++ tr2)
  = (requestsAndPauses tr1 ++ requestsAndPauses tr2)%list.
Proof. unfold requestsAndPauses. rewrite List.filter_app. apply fmap_app. Qed.

(** With a child that starts, [crawlUrl] returns normally: it writes its
    request, sets no timer of 500 ms and does not turn the clock back. *)
Lemma crawlUrl_run env this url timeout w :
  starts env this timeout url = true ->
  exists r w',
    crawlUrl env this url timeout w = (Settles (Normal r), w')
    /\ pauses (trace w') = pauses (trace w)
    /\ requestsAndPauses (trace w')
       = (requestsAndPauses (trace w)
          ++ [EvStdinWrite
                (JSON_stringify env
                   (JObj [("url", JStr url);
                          ("timeout", JNum (default 30 timeout))]))])%list
    /\ now w <= now w'.
Proof.
  unfold starts. intros Hstart.
  unfold crawlUrl, nodeCatch, nodeBind, crawlPromise, fromIO, onClose, crawlRequest.
  destruct (p_spawnError _); [discriminate|].
  generalize (timerDelay (crawlDeadline (default 30 timeout))). intros d.
  io_unfold. cbn [now trace fst snd].
  destruct (p_closes _) as [t|];
    [destruct (t <? _) eqn:Ht|];
    repeat (match goal with
            | |- context [match p_code ?p with _ => _ end] => destruct (p_code p) as [[|?]|]
            | |- context [match JSON_parse ?e ?x with _ => _ end] => destruct (JSON_parse e x)
            | |- context [match getProp ?k ?j with _ => _ end] => destruct j
            | |- context [if optTruthy ?x then _ else _] => destruct (optTruthy x)
            end; cbn [getProp now trace fst snd]);
    do 2 eexists; (split; [reflexivity|]); cbn [now trace];
    (split; [rewrite !pauses_app; unfold pauses; simpl;
             rewrite crawlDeadline_long; simpl; lia|]);
    (split; [rewrite !requestsAndPauses_app; unfold requestsAndPauses; simpl;
             rewrite crawlDeadline_long; simpl;
             rewrite ?app_nil_r, <- ?app_assoc; reflexivity | lia]).
Qed.

Lemma indexOfFrom_lower url urls : forall i,
  (indexOfFrom i url urls = -1 \/ i <= indexOfFrom i url urls)%Z.
Proof.
  induction urls as [|u rest IH]; intros i; simpl; [left; reflexivity|].
  destruct (String.eqb u url); [right; lia|].
  destruct (IH (i + 1)%Z); [left; assumption|right; lia].
Qed.

Lemma indexOfFrom_seen url done : forall i rest,
  existsb (fun v => String.eqb v url) done = true ->
  (i <= indexOfFrom i url (done ++ rest) < i + Z.of_nat (length done))%Z.
Proof.
  induction done as [|u done IH]; intros i rest; simpl; [discriminate|].
  destruct (String.eqb u url); simpl; [lia|].
  intros H. specialize (IH (i + 1)%Z rest H). lia.
Qed.

Lemma indexOfFrom_fresh url done : forall i rest,
  existsb (fun v => String.eqb v url) done = false ->
  indexOfFrom i url (done ++ url :: rest) = (i + Z.of_nat (length done))%Z.
Proof.
  induction done as [|u done IH]; intros i rest; simpl.
  - rewrite String.eqb_refl. lia.
  - destruct (String.eqb u url); simpl; [discriminate|].
    intros H. rewrite (IH (i + 1)%Z rest H). lia.
Qed.

Lemma indexOf_here url done rest :
  (0 <= indexOf url (done ++ url :: rest) <= Z.of_nat (length done))%Z.
Proof.
  unfold indexOf.
  destruct (existsb (fun v => String.eqb v url) done) eqn:H.
  - pose proof (indexOfFrom_seen url done 0 (url :: rest) H). lia.
  - rewrite (indexOfFrom_fresh url done 0 rest H). lia.
Qed.

Lemma existsb_rev' {A} (f : A -> bool) l : existsb f (rev l) = existsb f l.
Proof.
  induction l as [|a l IH]; simpl; [reflexivity|].
  rewrite existsb_app, IH. simpl. rewrite orb_false_r. apply orb_comm.
Qed.

Lemma lastRepeated_snoc done url :
  lastRepeated (done ++ [url]) = existsb (fun v => String.eqb v url) done.
Proof.
  unfold lastRepeated. rewrite rev_app_distr. simpl.
  apply existsb_rev'.
Qed.

Lemma sleep_run env ms w :
  sleep env ms w
  = (Normal tt,
     mkWorld (now w + (ms + timer_lag env (now w)))
             (trace w ++ [(now w, EvSetTimeout ms)])).
Proof. reflexivity. Qed.

Lemma withPauses_cons r r' rest lastToo :
  withPauses (r :: r' :: rest) lastToo
  = r :: EvSetTimeout 500 :: withPauses (r' :: rest) lastToo.
Proof. reflexivity. Qed.

Lemma crawlEach_run env this urls options : forall todo done results w,
  urls = (done ++ todo)%list ->
  forallb (starts env this options) todo = true ->
  exists results' w',
    crawlEach env this urls options todo results w = (Settles (Normal results'), w')
    /\ length results' = (length results + length todo)%nat
    /\ pauses (trace w')
       = (pauses (trace w)
          + match todo with
            | [] => 0
            | _ :: _ => length todo - 1 + (if lastRepeated urls then 1 else 0)
            end)%nat
    /\ requestsAndPauses (trace w')
       = (requestsAndPauses (trace w)
          ++ withPauses
               ((fun url =>
                   EvStdinWrite
                     (JSON_stringify env
                        (JObj [("url", JStr url);
                               ("timeout", JNum (default 30 options))])))
                  <$> todo)
               (lastRepeated urls))%list.
Proof.
  induction todo as [|url todo' IH]; intros done results w Hurls Hall.
  - exists results, w. simpl. rewrite app_nil_r. repeat split; lia.
  - cbn [forallb] in Hall. apply andb_true_iff in Hall as [Hstart Hall].
    destruct (crawlUrl_run env this url options w Hstart)
      as (r & w1 & Hr & Hp1 & Hq1 & _).
    cbn [crawlEach]. unfold nodeBind at 1. rewrite Hr.
    pose proof (indexOf_here url done todo') as Hidx. rewrite <- Hurls in Hidx.
    assert (Hlen : length urls = (length done + S (length todo'))%nat)
      by (rewrite Hurls, length_app; reflexivity).
    destruct todo' as [|next todo'']; simpl in Hlen.
    + cbn [crawlEach]. unfold nodeBind, fromIO, ret.
      replace (lastRepeated urls) with (existsb (fun v => String.eqb v url) done)
        by (rewrite Hurls; symmetry; apply lastRepeated_snoc).
      destruct (existsb (fun v => String.eqb v url) done) eqn:Hseen.
      * assert (Hlt : (indexOf url urls < Z.of_nat (length done))%Z)
          by (rewrite Hurls; apply (indexOfFrom_seen url done 0 [url] Hseen)).
        replace (indexOf url urls <? Z.of_nat (length urls) - 1)%Z with true
          by (symmetry; apply Z.ltb_lt; lia).
        rewrite sleep_run. do 2 eexists. split; [reflexivity|].
        cbn [trace]. rewrite length_app, pauses_app, requestsAndPauses_app, Hp1, Hq1.
        unfold pauses, requestsAndPauses. simpl.
        split; [lia|]. split; [lia|]. rewrite <- app_assoc. reflexivity.
      * assert (Heq : indexOf url urls = Z.of_nat (length done))
          by (rewrite Hurls; apply (indexOfFrom_fresh url done 0 [] Hseen)).
        replace (indexOf url urls <? Z.of_nat (length urls) - 1)%Z with false
          by (symmetry; apply Z.ltb_ge; lia).
        do 2 eexists. split; [reflexivity|].
        rewrite length_app, Hp1, Hq1. simpl. split; [lia|]. split; [lia|reflexivity].
    + replace (indexOf url urls <? Z.of_nat (length urls) - 1)%Z with true
        by (symmetry; apply Z.ltb_lt; lia).
      unfold nodeBind at 1. unfold fromIO at 1. rewrite sleep_run.
      destruct (IH (done ++ [url])%list (results ++ [r])%list
                  (mkWorld (now w1 + (500 + timer_lag env (now w1)))
                           (trace w1 ++ [(now w1, EvSetTimeout 500)]))) as
        (results' & w' & Hrun & Hres & Hp & Hq).
      { rewrite Hurls, <- app_assoc. reflexivity. }
      { exact Hall. }
      exists results', w'. split; [exact Hrun|].
      rewrite Hres, Hp, Hq. cbn [trace].
      rewrite length_app, pauses_app, requestsAndPauses_app, Hp1, Hq1.
      unfold pauses at 2. unfold requestsAndPauses at 3. simpl.
      split; [lia|]. split; [lia|]. rewrite <- !app_assoc. reflexivity.
Qed.

(** The loop ends with the first child that cannot be started. *)
Lemma crawlEach_dies env this urls options url after e : forall before results w,
  forallb (starts env this options) before = true ->
  p_spawnError
    (child_process env (pythonPath this) [wrapperPath this]
       (JSON_stringify env
          (JObj [("url", JStr url); ("timeout", JNum (default 30 options))])))
  = Some e ->
  fst (crawlEach env this urls options (before ++ url :: after) results w) = Dies e.
Proof.
  induction before as [|u before IH]; intros results w Hall He.
  - cbn [app crawlEach]. unfold nodeBind at 1.
    pose proof (crawlUrl_failed_start env this url options w e He) as Hd.
    destruct (crawlUrl env this url options w) as [fate w1].
    cbn [fst] in Hd. rewrite Hd. reflexivity.
  - cbn [forallb] in Hall. apply andb_true_iff in Hall as [Hstart Hall].
    destruct (crawlUrl_run env this u options w Hstart) as (r & w1 & Hr & _).
    change ((u :: before) ++ url :: after)%list with (u :: (before ++ url :: after))%list.
    cbn [crawlEach]. unfold nodeBind at 1. rewrite Hr.
    unfold nodeBind at 1. unfold fromIO at 1.
    destruct (indexOf u urls <? Z.of_nat (length urls) - 1)%Z.
    + rewrite sleep_run. apply IH; assumption.
    + unfold ret. apply IH; assumption.
Qed.

(** X16. When every child starts, [crawlMultiple] returns normally, with one
    result for every address of the list. It writes one request for every
    address, in the order of the list, and pauses for 500 ms after every
    request but the last, and after the last one too when its address also
    occurs earlier in the list: the pause is decided by the first index of
    the address. When a child cannot be started, the [error] event of that
    child ends the process, and nothing is returned. *)
Theorem crawlMultiple_results (env : Env) (this : Crawl4AIClient)
    (urls : list string) (options : option N) (w : World) :
  let request := fun url =>
    JSON_stringify env
      (JObj [("url", JStr url); ("timeout", JNum (default 30 options))]) in
  (forallb (starts env this options) urls = true ->
   exists results w',
     crawlMultiple env this urls options w = (Settles (Normal results), w')
     /\ length results = length urls
     /\ pauses (trace w')
        = (pauses (trace w) + (length urls - 1)
           + (if lastRepeated urls then 1 else 0))%nat
     /\ requestsAndPauses (trace w')
        = (requestsAndPauses (trace w)
           ++ withPauses ((fun url => EvStdinWrite (request url)) <$> urls)
                (lastRepeated urls))%list)
  /\ (forall before url after e,
        urls = (before ++ url :: after)%list ->
        forallb (starts env this options) before = true ->
        p_spawnError
          (child_process env (pythonPath this) [wrapperPath this] (request url))
        = Some e ->
        fst (crawlMultiple env this urls options w) = Dies e).
Proof.
  intros request. split.
  - intros Hall.
    destruct (crawlEach_run env this urls options urls [] [] w eq_refl Hall)
      as (results & w' & Hrun & Hlen & Hp & Hq).
    exists results, w'. split; [exact Hrun|]. split; [exact Hlen|].
    split; [|exact Hq].
    rewrite Hp. destruct urls; simpl; lia.
  - intros before url after e Hurls Hall He. unfold crawlMultiple.
    rewrite Hurls at 2. apply crawlEach_dies; assumption.
Qed.

(** Two addresses in turn: two results, and one pause between the two
    requests. *)
Lemma crawlMultiple_results_witness :
  exists w',
    crawlMultiple CrawlerScenario.env CrawlerScenario.client
      ["https://shop.example"; "https://shop.example/about"] None Scenario.start
    = (Settles (Normal [CrawlerScenario.response; CrawlerScenario.response]), w')
    /\ requestsAndPauses (trace w')
       = [EvStdinWrite ("{" +:+ doubleQuote +:+ "url" +:+ doubleQuote +:+ ":"
                        +:+ doubleQuote +:+ "https://shop.example" +:+ doubleQuote
                        +:+ "," +:+ doubleQuote +:+ "timeout" +:+ doubleQuote
                        +:+ ":30}");
          EvSetTimeout 500;
          EvStdinWrite ("{" +:+ doubleQuote +:+ "url" +:+ doubleQuote +:+ ":"
                        +:+ doubleQuote +:+ "https://shop.example/about"
                        +:+ doubleQuote
                        +:+ "," +:+ doubleQuote +:+ "timeout" +:+ doubleQuote
                        +:+ ":30}")].
Proof.
  destruct (proj1 (crawlMultiple_results CrawlerScenario.env CrawlerScenario.client
                     ["https://shop.example"; "https://shop.example/about"] None
                     Scenario.start) eq_refl)
    as (results & w' & Hrun & _ & _ & Hq).
  exists w'. split.
  - rewrite Hrun. f_equal. f_equal. f_equal.
    assert (Hres : fst (crawlMultiple CrawlerScenario.env CrawlerScenario.client
                          ["https://shop.example"; "https://shop.example/about"] None
                          Scenario.start)
                   = Settles (Normal [CrawlerScenario.response; CrawlerScenario.response]))
      by (vm_compute; reflexivity).
    rewrite Hrun in Hres. cbn [fst] in Hres. congruence.
  - rewrite Hq. vm_compute. reflexivity.
Defined.

(** X17. [checkAvailability] sets no timer and kills nothing. When the child
    cannot be started, its [error] event, for which no listener waits, ends
    the process: nothing is returned and [this.available] is left as it
    was. When the child starts and never closes, the call stays pending
    for ever. When the child closes, the call returns, never throwing, the
    value it leaves in [this.available]: true exactly when the child exited
    with code 0 and wrote [OK], white space around it apart. The paths of
    the client are left as they were. *)
Theorem checkAvailability_decides (env : Env) (this : Crawl4AIClient) (w : World) :
  let python := child_process env (pythonPath this) ["-c"; probe] "" in
  let spawned :=
    mkWorld (now w) (trace w ++ [(now w, EvSpawn (pythonPath this) ["-c"; probe])]) in
  match p_spawnError python, p_closes python with
  | Some e, _ => checkAvailability env this w = (Dies e, this, spawned)
  | None, None => checkAvailability env this w = (Hangs, this, spawned)
  | None, Some t =>
      exists b this' w',
        checkAvailability env this w = (Settles (Normal b), this', w')
        /\ available this' = b
        /\ pythonPath this' = pythonPath this
        /\ wrapperPath this' = wrapperPath this
        /\ now w' = now w + t
        /\ trace w' = trace spawned
        /\ kills (trace w') = kills (trace w)
        /\ (b = true <->
            p_code python = Some 0 /\ Js.trim (p_stdout python) = "OK")
  end.
Proof.
  intros python spawned. unfold checkAvailability, runPythonCommand. fold python.
  destruct (p_spawnError python) as [e|]; [reflexivity|].
  destruct (p_closes python) as [t|]; [|reflexivity].
  unfold fromIO. io_unfold. cbn [snd now trace].
  assert (Hk : kills (trace w ++ [(now w, EvSpawn (pythonPath this) ["-c"; probe])])
               = kills (trace w))
    by (rewrite kills_app; unfold kills; simpl; lia).
  destruct (p_code python) as [[|p]|]; cbn [now trace];
    do 3 eexists; (split; [reflexivity|]); cbn [now trace available pythonPath
      wrapperPath set_available];
    repeat (split; [first [reflexivity | exact Hk]|]).
  - rewrite String.eqb_eq. split; [intros H; split; [reflexivity|exact H]|intros [_ H]; exact H].
  - split; [discriminate|intros [H _]; discriminate].
  - split; [discriminate|intros [H _]; discriminate].
Qed.

(** A timeout of 0 gives the timer of the signal 1 ms: a header that takes
    50 ms is given up after 1 ms, not at once. *)
Lemma fallback_simpleFetch_zero_timeout :
  let run := Crawl4ai.simpleFetch Scenario.deniedEnv "https://shop.example" 0
               Scenario.start in
  now (snd run) = now Scenario.start + 1
  /\ fst run
     = Normal (Crawl4ai.mkResult false None None None
                 (Some "The operation was aborted due to timeout")).
Proof. vm_compute. split; reflexivity. Qed.


(** ** The cold email, assembled and taken apart *)

Lemma app_nil_str y : EmptyString +:+ y = y.
Proof. reflexivity. Qed.

Lemma trim_comm s : Js.trimStart (Js.trimEnd s) = Js.trimEnd (Js.trimStart s).
Proof.
  induction s as [|c r IH]; [reflexivity|]. simpl.
  destruct (Js.isSpace c) eqn:Hc; simpl.
  - destruct (Js.isEmpty (Js.trimEnd r)) eqn:He.
    + rewrite <- IH. destruct (Js.trimEnd r); [reflexivity|discriminate].
    + simpl. rewrite Hc. exact IH.
  - rewrite Hc. reflexivity.
Qed.

Lemma trim_trimStart s : Js.trim (Js.trimStart s) = Js.trim s.
Proof. unfold Js.trim. rewrite <- trim_comm. apply trimStart_idem. Qed.

Lemma trimStart_split s : exists ws, s = ws +:+ Js.trimStart s /\ allSpace ws = true.
Proof.
  induction s as [|c r (ws & Hr & Hws)]; [exists EmptyString; split; reflexivity|].
  simpl. destruct (Js.isSpace c) eqn:Hc.
  - exists (String c ws). rewrite app_cons, <- Hr. simpl. rewrite Hc, Hws.
    split; reflexivity.
  - exists EmptyString. split; reflexivity.
Qed.

Lemma trimStart_head s c r : Js.trimStart s = String c r -> Js.isSpace c = false.
Proof.
  induction s as [|a s IH]; simpl; [discriminate|].
  destruct (Js.isSpace a) eqn:Ha; [exact IH|].
  intros [= <- <-]. exact Ha.
Qed.

Lemma lineFree_app x y : lineFree (x +:+ y) = lineFree x && lineFree y.
Proof.
  induction x as [|c x IH]; [reflexivity|]. rewrite app_cons. simpl.
  rewrite IH. apply andb_assoc.
Qed.

Lemma lineTerminator_space c : Js.isSpace c = false -> isLineTerminator c = false.
Proof.
  intros H. unfold isLineTerminator.
  destruct (Ascii.eqb_spec c Js.LF) as [->|_]; [discriminate|].
  destruct (Ascii.eqb_spec c CR) as [->|_]; [discriminate|reflexivity].
Qed.

Lemma atLineEnd_inside c r : isLineTerminator c = false -> atLineEnd (String c r) = false.
Proof.
  simpl. unfold isLineTerminator. destruct (Ascii.eqb c Js.LF); [discriminate|reflexivity].
Qed.

Lemma lazyLine_line line : forall rest,
  lineFree line = true -> Js.truthyStr line = true -> atLineEnd rest = true ->
  lazyLine (line +:+ rest) = Some line.
Proof.
  induction line as [|c l IH]; intros rest Hfree Hne Hend; [discriminate|].
  rewrite app_cons. simpl in *. apply andb_true_iff in Hfree as [Hc Hl].
  apply negb_true_iff in Hc. rewrite Hc.
  destruct l as [|c' l'].
  - rewrite app_nil_str, Hend. reflexivity.
  - rewrite app_cons, (atLineEnd_inside c' (l' +:+ rest)).
    + rewrite <- app_cons, (IH rest Hl eq_refl Hend). reflexivity.
    + simpl in Hl. apply andb_true_iff in Hl as [Hc' _].
      apply negb_true_iff in Hc'. exact Hc'.
Qed.

Lemma subjectAt_cons c r :
  subjectAt (String c r)
  = if Js.isSpace c then
      match subjectAt r with
      | Some g => Some g
      | None => lazyLine (String c r)
      end
    else lazyLine (String c r).
Proof. reflexivity. Qed.

Lemma subjectAt_line ws : forall c line rest,
  allSpace ws = true -> Js.isSpace c = false ->
  lineFree (String c line) = true -> atLineEnd rest = true ->
  subjectAt (ws +:+ String c line +:+ rest) = Some (String c line).
Proof.
  induction ws as [|a ws IH]; intros c line rest Hws Hc Hfree Hend.
  - rewrite app_nil_str, app_cons, subjectAt_cons, Hc.
    rewrite <- app_cons. apply lazyLine_line; [exact Hfree|reflexivity|exact Hend].
  - rewrite app_cons. simpl in Hws. apply andb_true_iff in Hws as [Ha Hws].
    rewrite subjectAt_cons, Ha, (IH c line rest Hws Hc Hfree Hend). reflexivity.
Qed.

Lemma allSpace_app x y : allSpace (x +:+ y) = allSpace x && allSpace y.
Proof.
  induction x as [|c x IH]; [reflexivity|]. rewrite app_cons. simpl.
  rewrite IH. apply andb_assoc.
Qed.

Lemma lineFree_trimStart s : lineFree s = true -> lineFree (Js.trimStart s) = true.
Proof.
  induction s as [|c r IH]; simpl; [reflexivity|].
  intros H. destruct (Js.isSpace c); [|exact H].
  apply andb_true_iff in H as [_ Hr]. apply IH, Hr.
Qed.

Lemma trim_visible s : Js.truthyStr (Js.trim s) = true -> Js.truthyStr (Js.trimStart s) = true.
Proof.
  unfold Js.trim. rewrite trim_comm. destruct (Js.trimStart s); [discriminate|reflexivity].
Qed.

(** The subject that follows the prefix and the white space [ws]: the
    first line that has a visible character. *)
Lemma subjectAt_visible ws line rest :
  allSpace ws = true -> lineFree line = true ->
  Js.truthyStr (Js.trim line) = true -> atLineEnd rest = true ->
  Js.trim <$> subjectAt (ws +:+ line +:+ rest) = Some (Js.trim line).
Proof.
  intros Hws Hfree Hvis Hend.
  destruct (trimStart_split line) as (lead & Hline & Hlead).
  destruct (Js.trimStart line) as [|c l] eqn:Ht;
    [apply trim_visible in Hvis; rewrite Ht in Hvis; discriminate|].
  assert (Hc : Js.isSpace c = false) by exact (trimStart_head _ _ _ Ht).
  assert (Hl : lineFree (String c l) = true)
    by (rewrite <- Ht; apply lineFree_trimStart, Hfree).
  replace (ws +:+ line +:+ rest) with ((ws +:+ lead) +:+ String c l +:+ rest)
    by (rewrite Hline, !append_assoc_str; reflexivity).
  rewrite (subjectAt_line (ws +:+ lead) c l rest); [|rewrite allSpace_app, Hws, Hlead; reflexivity|exact Hc|exact Hl|exact Hend].
  simpl. rewrite <- Ht, trim_trimStart. reflexivity.
Qed.

Lemma bodyAt_cons c r :
  bodyAt (String c r)
  = match afterBlankLine (String c r) with
    | Some g => Some g
    | None => bodyAt r
    end.
Proof. reflexivity. Qed.

Lemma afterBlankLine_inside c r :
  Ascii.eqb c Js.LF = false -> afterBlankLine (String c r) = None.
Proof.
  intros Hc. destruct r as [|b [|g rest]]; simpl; rewrite ?Hc; reflexivity.
Qed.

Lemma lineFree_head c r : lineFree (String c r) = true -> Ascii.eqb c Js.LF = false.
Proof.
  simpl. unfold isLineTerminator. destruct (Ascii.eqb c Js.LF); [discriminate|reflexivity].
Qed.

Lemma bodyAt_skip x : forall rest,
  lineFree x = true -> bodyAt (x +:+ rest) = bodyAt rest.
Proof.
  induction x as [|c x IH]; intros rest H; [reflexivity|].
  rewrite app_cons, bodyAt_cons, (afterBlankLine_inside c _ (lineFree_head c x H)).
  apply IH. simpl in H. apply andb_true_iff in H as [_ H]. exact H.
Qed.

Lemma emailBodyMatch_cons c r :
  emailBodyMatch (String c r)
  = match (if Js.startsWith "Subject:" (String c r)
           then bodyAt (Js.dropStr 8 (String c r)) else None) with
    | Some g => Some g
    | None => emailBodyMatch r
    end.
Proof. reflexivity. Qed.

Lemma bodyAt_tail c r : bodyAt (String c r) = None -> bodyAt r = None.
Proof. rewrite bodyAt_cons. destruct (afterBlankLine (String c r)); [discriminate|exact id]. Qed.

Lemma bodyAt_drop k : forall s, bodyAt s = None -> bodyAt (Js.dropStr k s) = None.
Proof.
  induction k as [|k IH]; intros s H; [exact H|].
  destruct s as [|c r]; [exact H|]. simpl. apply IH, (bodyAt_tail c r H).
Qed.

Lemma emailBodyMatch_none s : bodyAt s = None -> emailBodyMatch s = None.
Proof.
  induction s as [|c r IH]; intros H; [reflexivity|].
  rewrite emailBodyMatch_cons, (bodyAt_drop 8 _ H).
  destruct (Js.startsWith "Subject:" (String c r)); apply IH, (bodyAt_tail c r H).
Qed.

Lemma coldEmailOf_head subject body :
  coldEmailOf subject body
  = String "S" ("ubject:" +:+ (" " +:+ subject) +:+ Js.nl +:+ Js.nl +:+ body).
Proof.
  unfold coldEmailOf. rewrite (append_assoc_str " " subject). reflexivity.
Qed.

Lemma extractEmailSubject_assembled subject body :
  lineFree subject = true ->
  Js.truthyStr (Js.trim subject) = true ->
  extractEmailSubject (Some (coldEmailOf subject body)) = Js.trim subject.
Proof.
  intros Hfree Hvis. rewrite coldEmailOf_head.
  unfold extractEmailSubject.
  change (Js.startsWith "Subject:" (String "S" ("ubject:" +:+ (" " +:+ subject) +:+ Js.nl +:+ Js.nl +:+ body)))
    with true.
  change (Js.dropStr 8 (String "S" ("ubject:" +:+ (" " +:+ subject) +:+ Js.nl +:+ Js.nl +:+ body)))
    with ((" " +:+ subject) +:+ Js.nl +:+ Js.nl +:+ body).
  cbv iota. rewrite append_assoc_str.
  pose proof (subjectAt_visible " " subject (Js.nl +:+ Js.nl +:+ body)
                eq_refl Hfree Hvis eq_refl) as H.
  destruct (subjectAt (" " +:+ subject +:+ Js.nl +:+ Js.nl +:+ body)) as [g|];
    [|discriminate]. injection H as H. exact H.
Qed.

Lemma extractEmailBody_assembled subject body :
  lineFree subject = true ->
  Js.truthyStr body = true ->
  extractEmailBody (Some (coldEmailOf subject body)) = Js.trim body.
Proof.
  intros Hfree Hbody. rewrite coldEmailOf_head.
  unfold extractEmailBody. rewrite emailBodyMatch_cons.
  change (Js.startsWith "Subject:" (String "S" ("ubject:" +:+ (" " +:+ subject) +:+ Js.nl +:+ Js.nl +:+ body)))
    with true.
  change (Js.dropStr 8 (String "S" ("ubject:" +:+ (" " +:+ subject) +:+ Js.nl +:+ Js.nl +:+ body)))
    with ((" " +:+ subject) +:+ Js.nl +:+ Js.nl +:+ body).
  cbv iota. rewrite bodyAt_skip by exact Hfree.
  destruct body as [|g rest]; [discriminate|]. reflexivity.
Qed.

(** X19. A cold email assembled from a subject of one line that has a visible
    character, and from a body that is not empty, is taken apart again into
    that subject and that body, trimmed. *)
Theorem coldEmail_round_trip (subject body : string) :
  lineFree subject = true ->
  Js.truthyStr (Js.trim subject) = true ->
  Js.truthyStr body = true ->
  extractEmailSubject (Some (coldEmailOf subject body)) = Js.trim subject
  /\ extractEmailBody (Some (coldEmailOf subject body)) = Js.trim body.
Proof.
  intros Hfree Hvis Hbody. split.
  - exact (extractEmailSubject_assembled subject body Hfree Hvis).
  - exact (extractEmailBody_assembled subject body Hfree Hbody).
Qed.

Lemma coldEmail_round_trip_witness :
  extractEmailSubject (Some (coldEmailOf "Quick idea for Acme" "Hi there,"))
  = "Quick idea for Acme"
  /\ extractEmailBody (Some (coldEmailOf "Quick idea for Acme" "Hi there,"))
     = "Hi there,".
Proof.
  apply (coldEmail_round_trip "Quick idea for Acme" "Hi there,"); reflexivity.
Defined.

(** X20. With an empty body nothing follows the blank line, the pattern does
    not match, and the whole cold email, its subject line included, is
    returned as the body. *)
Theorem coldEmail_empty_body (subject : string) :
  lineFree subject = true ->
  extractEmailBody (Some (coldEmailOf subject "")) = coldEmailOf subject "".
Proof.
  intros Hfree.
  assert (Hnone : bodyAt (coldEmailOf subject "") = None).
  { unfold coldEmailOf. rewrite <- append_assoc_str, bodyAt_skip; [reflexivity|].
    rewrite lineFree_app, Hfree. reflexivity. }
  apply emailBodyMatch_none in Hnone. unfold extractEmailBody. rewrite Hnone.
  rewrite coldEmailOf_head. reflexivity.
Qed.

Lemma coldEmail_empty_body_witness :
  extractEmailBody (Some (coldEmailOf "Quick idea for Acme" ""))
  = coldEmailOf "Quick idea for Acme" "".
Proof. apply coldEmail_empty_body. reflexivity. Defined.

(** X21. With an empty subject the white space after [Subject:] runs over the
    blank line, and the first line of the body is returned as the
    subject. *)
Theorem coldEmail_empty_subject (line rest : string) :
  lineFree line = true ->
  Js.truthyStr (Js.trim line) = true ->
  atLineEnd rest = true ->
  extractEmailSubject (Some (coldEmailOf "" (line +:+ rest))) = Js.trim line.
Proof.
  intros Hfree Hvis Hend. rewrite coldEmailOf_head.
  unfold extractEmailSubject.
  change (Js.startsWith "Subject:" (String "S" ("ubject:" +:+ (" " +:+ "") +:+ Js.nl +:+ Js.nl +:+ line +:+ rest)))
    with true.
  change (Js.dropStr 8 (String "S" ("ubject:" +:+ (" " +:+ "") +:+ Js.nl +:+ Js.nl +:+ line +:+ rest)))
    with ((" " +:+ Js.nl +:+ Js.nl) +:+ line +:+ rest).
  cbv iota.
  pose proof (subjectAt_visible (" " +:+ Js.nl +:+ Js.nl) line rest
                eq_refl Hfree Hvis Hend) as H.
  destruct (subjectAt ((" " +:+ Js.nl +:+ Js.nl) +:+ line +:+ rest)) as [g|];
    [|discriminate]. injection H as H. exact H.
Qed.

Lemma coldEmail_empty_subject_witness :
  extractEmailSubject (Some (coldEmailOf "" ("Hi there," +:+ Js.nl +:+ "I saw your site.")))
  = "Hi there,".
Proof.
  apply (coldEmail_empty_subject "Hi there," (Js.nl +:+ "I saw your site.")); reflexivity.
Defined.

(** ** The sections of a reply *)

Lemma prefix_nil s : String.prefix EmptyString s = true.
Proof. destruct s; reflexivity. Qed.

Lemma prefix_app_stop L : forall x c y,
  Js.hasChar c L = false -> String.prefix L (x +:+ String c y) = String.prefix L x.
Proof.
  induction L as [|a L IH]; intros x c y H.
  - rewrite !prefix_nil. reflexivity.
  - simpl in H. apply orb_false_iff in H as [Ha HL].
    destruct x as [|b x].
    + rewrite app_nil_str, prefix_cons, Ha. reflexivity.
    + rewrite app_cons, !prefix_cons, (IH x c y HL). reflexivity.
Qed.

Lemma includes_nil L : Js.includes L EmptyString = String.prefix L EmptyString.
Proof. simpl. apply orb_false_r. Qed.

Lemma includes_join L a : forall c b,
  Js.hasChar c L = false -> Js.truthyStr L = true ->
  Js.includes L (a +:+ String c b) = Js.includes L a || Js.includes L b.
Proof.
  induction a as [|d a IH]; intros c b Hc HL.
  - rewrite app_nil_str, includes_cons, includes_nil.
    destruct L as [|l0 L]; [discriminate|].
    simpl in Hc. apply orb_false_iff in Hc as [Hl0 _].
    rewrite prefix_cons, Hl0. reflexivity.
  - rewrite app_cons, !includes_cons, <- app_cons, (prefix_app_stop L _ c b Hc).
    rewrite (IH c b Hc HL). apply orb_assoc.
Qed.

Lemma sectionMatch_unfold label stop s :
  sectionMatch label stop s
  = match (if Js.startsWith label s
           then sectionAt stop (Js.dropStr (String.length label) s)
           else None) with
    | Some g => Some g
    | None =>
        match s with
        | EmptyString => None
        | String _ r => sectionMatch label stop r
        end
    end.
Proof. destruct s; reflexivity. Qed.

Lemma sectionMatch_skip L stop x : forall y,
  Js.includes L x = false -> Js.hasChar Js.LF L = false -> Js.truthyStr L = true ->
  sectionMatch L stop (x +:+ String Js.LF y) = sectionMatch L stop y.
Proof.
  induction x as [|d x IH]; intros y Hx HLF HL.
  - rewrite app_nil_str, sectionMatch_unfold.
    replace (Js.startsWith L (String Js.LF y)) with false; [reflexivity|].
    destruct L as [|l0 L]; [discriminate|].
    simpl in HLF. apply orb_false_iff in HLF as [Hl0 _].
    unfold Js.startsWith. rewrite prefix_cons, Hl0. reflexivity.
  - rewrite includes_cons in Hx. apply orb_false_iff in Hx as [Hp Hx].
    rewrite sectionMatch_unfold. unfold Js.startsWith at 1.
    rewrite (prefix_app_stop L _ Js.LF y HLF), Hp.
    rewrite app_cons. apply IH; assumption.
Qed.

Lemma prefix_self L : forall rest, String.prefix L (L +:+ rest) = true.
Proof.
  induction L as [|a L IH]; intros rest; [apply prefix_nil|].
  rewrite app_cons, prefix_cons, Ascii.eqb_refl. apply IH.
Qed.

Lemma dropStr_app L : forall rest, Js.dropStr (String.length L) (L +:+ rest) = rest.
Proof. induction L as [|a L IH]; intros rest; [reflexivity|]. simpl. apply IH. Qed.

Lemma sectionMatch_here L stop rest g :
  sectionAt stop rest = Some g -> sectionMatch L stop (L +:+ rest) = Some g.
Proof.
  intros H. rewrite sectionMatch_unfold. unfold Js.startsWith.
  rewrite prefix_self, dropStr_app, H. reflexivity.
Qed.

Lemma sectionAt_cons stop c r :
  sectionAt stop (String c r)
  = if Js.isSpace c then
      match sectionAt stop r with
      | Some g => Some g
      | None => if Ascii.eqb c Js.LF then lazyUntil stop r else None
      end
    else None.
Proof. reflexivity. Qed.

Lemma sectionAt_line stop c p :
  Js.isSpace c = false ->
  sectionAt stop (String Js.LF (String c p)) = lazyUntil stop (String c p).
Proof.
  intros Hc. rewrite sectionAt_cons, (sectionAt_cons stop c p), Hc. reflexivity.
Qed.

Lemma lazyUntil_cons stop c r :
  lazyUntil stop (String c r)
  = if stopAt stop r then Some (String c EmptyString)
    else String c <$> lazyUntil stop r.
Proof. reflexivity. Qed.

Lemma lazyUntil_end m : Js.truthyStr m = true -> lazyUntil AtEnd m = Some m.
Proof.
  induction m as [|c r IH]; [discriminate|]. intros _.
  rewrite lazyUntil_cons. destruct r as [|c' r']; [reflexivity|].
  simpl stopAt. cbv iota. rewrite (IH eq_refl). reflexivity.
Qed.

Lemma trimEnd_tail c p : Js.trimEnd (String c p) = String c p -> Js.trimEnd p = p.
Proof.
  simpl. destruct (Js.isSpace c && Js.isEmpty (Js.trimEnd p)); [discriminate|].
  intros [= H]. exact H.
Qed.

Lemma trimEnd_last c : Js.trimEnd (String c EmptyString) = String c EmptyString ->
  Js.isSpace c = false.
Proof. simpl. destruct (Js.isSpace c); [discriminate|reflexivity]. Qed.

Lemma prefix_blank_inside c p rest :
  Js.trimEnd (String c p) = String c p ->
  String.prefix blank (String c p) = false ->
  String.prefix blank (String c p +:+ String Js.LF rest) = false.
Proof.
  intros Htrim Hp. rewrite app_cons. unfold blank in *. rewrite prefix_cons in *.
  destruct (Ascii.eqb_spec Js.LF c) as [<-|Hne]; [|reflexivity].
  simpl andb in *. destruct p as [|c' p'].
  - apply trimEnd_last in Htrim. discriminate.
  - rewrite app_cons, prefix_cons in *. rewrite prefix_nil in *.
    rewrite andb_true_r in *. exact Hp.
Qed.

Lemma lazyUntil_piece marker piece : forall y,
  Js.truthyStr piece = true ->
  Js.trimEnd piece = piece ->
  Js.includes blank piece = false ->
  Js.includes marker piece = false ->
  Js.hasChar Js.LF marker = false ->
  lazyUntil (Before marker) (piece +:+ blank +:+ y) = Some piece.
Proof.
  induction piece as [|c p IH]; intros y Hne Htrim Hblank Hmark HLF; [discriminate|].
  rewrite app_cons, lazyUntil_cons.
  rewrite includes_cons in Hblank, Hmark.
  apply orb_false_iff in Hblank as [_ Hblank].
  apply orb_false_iff in Hmark as [_ Hmark].
  destruct p as [|c' p'].
  - rewrite app_nil_str. unfold stopAt, Js.startsWith.
    change (blank +:+ y) with (String Js.LF (String Js.LF y)).
    unfold blank. rewrite !prefix_cons, prefix_nil, Ascii.eqb_refl. reflexivity.
  - assert (Htrim' : Js.trimEnd (String c' p') = String c' p')
      by exact (trimEnd_tail c _ Htrim).
    replace (stopAt (Before marker) (String c' p' +:+ blank +:+ y)) with false.
    + rewrite (IH y eq_refl Htrim' Hblank Hmark HLF). reflexivity.
    + symmetry. unfold stopAt, Js.startsWith.
      change (blank +:+ y) with (String Js.LF (String Js.LF y)).
      rewrite (prefix_blank_inside c' p' _ Htrim' (includes_head _ _ Hblank)).
      rewrite (prefix_app_stop marker _ Js.LF _ HLF), (includes_head _ _ Hmark).
      reflexivity.
Qed.

Lemma paragraph_spec labels x :
  paragraph labels x = true ->
  Js.truthyStr x = true /\ Js.trimStart x = x /\ Js.trimEnd x = x
  /\ Js.includes blank x = false
  /\ Forall (fun label => Js.includes label x = false) labels.
Proof.
  unfold paragraph. intros H.
  apply andb_true_iff in H as [H Hlabels]. apply andb_true_iff in H as [H Hblank].
  apply andb_true_iff in H as [Hne Htrim]. apply String.eqb_eq in Htrim.
  destruct (trim_trimmed x) as [Hs He]. rewrite Htrim in Hs, He.
  repeat split; try assumption.
  - apply negb_true_iff, Hblank.
  - apply Forall_forall. intros label Hin.
    rewrite forallb_forall in Hlabels.
    apply negb_true_iff, Hlabels, list_elem_of_In, Hin.
Qed.

(** The section that follows its label, when the label does not occur
    before. *)
Lemma sectionMatch_found L marker x piece y :
  Js.includes L x = false ->
  Js.hasChar Js.LF L = false -> Js.truthyStr L = true ->
  Js.hasChar Js.LF marker = false ->
  Js.truthyStr piece = true ->
  Js.trimStart piece = piece -> Js.trimEnd piece = piece ->
  Js.includes blank piece = false ->
  Js.includes marker piece = false ->
  sectionMatch L (Before marker)
    (x +:+ String Js.LF (L +:+ String Js.LF (piece +:+ blank +:+ y)))
  = Some piece.
Proof.
  intros Hx HLF HL Hm Hne Hs He Hb Hmark.
  rewrite (sectionMatch_skip L _ x _ Hx HLF HL).
  apply sectionMatch_here.
  destruct piece as [|c p]; [discriminate|].
  rewrite app_cons, sectionAt_line by exact (trimStart_head _ _ _ Hs).
  rewrite <- app_cons. apply lazyUntil_piece; assumption.
Qed.

Lemma sectionMatch_first L marker piece y :
  Js.hasChar Js.LF marker = false ->
  Js.truthyStr piece = true ->
  Js.trimStart piece = piece -> Js.trimEnd piece = piece ->
  Js.includes blank piece = false ->
  Js.includes marker piece = false ->
  sectionMatch L (Before marker) (L +:+ String Js.LF (piece +:+ blank +:+ y))
  = Some piece.
Proof.
  intros Hm Hne Hs He Hb Hmark.
  apply sectionMatch_here.
  destruct piece as [|c p]; [discriminate|].
  rewrite app_cons, sectionAt_line by exact (trimStart_head _ _ _ Hs).
  rewrite <- app_cons. apply lazyUntil_piece; assumption.
Qed.

Lemma sectionMatch_last L x m :
  Js.includes L x = false ->
  Js.hasChar Js.LF L = false -> Js.truthyStr L = true ->
  Js.truthyStr m = true -> Js.trimStart m = m ->
  sectionMatch L AtEnd (x +:+ String Js.LF (L +:+ String Js.LF m)) = Some m.
Proof.
  intros Hx HLF HL Hne Hs.
  rewrite (sectionMatch_skip L _ x _ Hx HLF HL).
  apply sectionMatch_here.
  destruct m as [|c p]; [discriminate|].
  rewrite sectionAt_line by exact (trimStart_head _ _ _ Hs).
  apply lazyUntil_end. reflexivity.
Qed.

(** The cold email of a reply that opens with the two sections of the
    email, whatever follows the blank line after the body. *)
Lemma sections_coldEmail s b tail :
  Js.truthyStr s = true -> Js.trimStart s = s -> Js.trimEnd s = s ->
  Js.includes blank s = false -> Js.includes "COLD_EMAIL_BODY:" s = false ->
  Js.truthyStr b = true -> Js.trimStart b = b -> Js.trimEnd b = b ->
  Js.includes blank b = false -> Js.includes "VOICEMAIL:" b = false ->
  coldEmail (sections ("COLD_EMAIL_SUBJECT:" +:+ Js.nl +:+ s +:+ blank
                       +:+ "COLD_EMAIL_BODY:" +:+ Js.nl +:+ b +:+ blank +:+ tail))
  = coldEmailOf s b.
Proof.
  intros Hs1 Hs2 Hs3 Hs4 Hs6 Hb1 Hb2 Hb3 Hb4 Hb6.
  unfold sections. cbn [coldEmail].
  set (content := "COLD_EMAIL_SUBJECT:" +:+ Js.nl +:+ s +:+ blank
                  +:+ "COLD_EMAIL_BODY:" +:+ Js.nl +:+ b +:+ blank +:+ tail).
  assert (H1 : sectionMatch "COLD_EMAIL_SUBJECT:" (Before "COLD_EMAIL_BODY:") content
               = Some s).
  { apply (sectionMatch_first "COLD_EMAIL_SUBJECT:" "COLD_EMAIL_BODY:" s
             ("COLD_EMAIL_BODY:" +:+ Js.nl +:+ b +:+ blank +:+ tail));
      solve [assumption | reflexivity]. }
  assert (H2 : sectionMatch "COLD_EMAIL_BODY:" (Before "VOICEMAIL:") content = Some b).
  { replace content
      with (("COLD_EMAIL_SUBJECT:" +:+ Js.nl +:+ s +:+ Js.nl)
            +:+ String Js.LF ("COLD_EMAIL_BODY:" +:+ String Js.LF (b +:+ blank +:+ tail)))
      by (unfold content; rewrite !append_assoc_str; reflexivity).
    apply sectionMatch_found; try solve [assumption | reflexivity].
    change ("COLD_EMAIL_SUBJECT:" +:+ Js.nl +:+ s +:+ Js.nl)
      with ("COLD_EMAIL_SUBJECT:" +:+ String Js.LF (s +:+ String Js.LF "")).
    rewrite !includes_join by reflexivity. rewrite Hs6. reflexivity. }
  rewrite H1, H2.
  unfold Js.trim. rewrite Hs3, Hs2, Hb3, Hb2. reflexivity.
Qed.

(** X22. A reply in the format asked for, whose subject, body and voicemail
    script are single paragraphs that hold none of the labels that follow
    them, is parsed into exactly these texts: the cold email is assembled
    from the subject and the body, and the message runs to the end of the
    reply. *)
Theorem sections_round_trip (s b v m : string) :
  paragraph ["COLD_EMAIL_BODY:"; "VOICEMAIL:"; "SMS:"] s = true ->
  paragraph ["VOICEMAIL:"; "SMS:"] b = true ->
  paragraph ["SMS:"] v = true ->
  Js.truthyStr m = true ->
  Js.trimStart m = m ->
  sections (reply s b v m) = mkOutreach (coldEmailOf s b) v (Js.trim m).
Proof.
  intros Hs Hb Hv Hm1 Hm2.
  destruct (paragraph_spec _ _ Hs) as (Hs1 & Hs2 & Hs3 & Hs4 & Hs5).
  destruct (paragraph_spec _ _ Hb) as (Hb1 & Hb2 & Hb3 & Hb4 & Hb5).
  destruct (paragraph_spec _ _ Hv) as (Hv1 & Hv2 & Hv3 & Hv4 & Hv5).
  inversion Hs5 as [|? ? Hs6 Hs7]; subst. inversion Hs7 as [|? ? Hs8 Hs9]; subst.
  inversion Hs9 as [|? ? Hs10 _]; subst.
  inversion Hb5 as [|? ? Hb6 Hb7]; subst. inversion Hb7 as [|? ? Hb8 _]; subst.
  inversion Hv5 as [|? ? Hv6 _]; subst.
  assert (Hcold : coldEmail (sections (reply s b v m)) = coldEmailOf s b).
  { apply (sections_coldEmail s b ("VOICEMAIL:" +:+ Js.nl +:+ v +:+ blank
                                    +:+ "SMS:" +:+ Js.nl +:+ m)); assumption. }
  assert (Hvoice : sectionMatch "VOICEMAIL:" (Before "SMS:") (reply s b v m) = Some v).
  { replace (reply s b v m)
      with (("COLD_EMAIL_SUBJECT:" +:+ Js.nl +:+ s +:+ blank
             +:+ "COLD_EMAIL_BODY:" +:+ Js.nl +:+ b +:+ Js.nl)
            +:+ String Js.LF ("VOICEMAIL:" +:+ String Js.LF
                               (v +:+ blank +:+ "SMS:" +:+ Js.nl +:+ m)))
      by (unfold reply; rewrite !append_assoc_str; reflexivity).
    apply sectionMatch_found; try solve [assumption | reflexivity].
    change ("COLD_EMAIL_SUBJECT:" +:+ Js.nl +:+ s +:+ blank
            +:+ "COLD_EMAIL_BODY:" +:+ Js.nl +:+ b +:+ Js.nl)
      with ("COLD_EMAIL_SUBJECT:" +:+ String Js.LF (s +:+ String Js.LF
              ("" +:+ String Js.LF ("COLD_EMAIL_BODY:" +:+ String Js.LF
                 (b +:+ String Js.LF ""))))).
    rewrite !includes_join by reflexivity. rewrite Hs8, Hb6. reflexivity. }
  assert (Hsms : sectionMatch "SMS:" AtEnd (reply s b v m) = Some m).
  { replace (reply s b v m)
      with (("COLD_EMAIL_SUBJECT:" +:+ Js.nl +:+ s +:+ blank
             +:+ "COLD_EMAIL_BODY:" +:+ Js.nl +:+ b +:+ blank
             +:+ "VOICEMAIL:" +:+ Js.nl +:+ v +:+ Js.nl)
            +:+ String Js.LF ("SMS:" +:+ String Js.LF m))
      by (unfold reply; rewrite !append_assoc_str; reflexivity).
    apply sectionMatch_last; try solve [assumption | reflexivity].
    change ("COLD_EMAIL_SUBJECT:" +:+ Js.nl +:+ s +:+ blank
            +:+ "COLD_EMAIL_BODY:" +:+ Js.nl +:+ b +:+ blank
            +:+ "VOICEMAIL:" +:+ Js.nl +:+ v +:+ Js.nl)
      with ("COLD_EMAIL_SUBJECT:" +:+ String Js.LF (s +:+ String Js.LF
              ("" +:+ String Js.LF ("COLD_EMAIL_BODY:" +:+ String Js.LF
                 (b +:+ String Js.LF ("" +:+ String Js.LF
                    ("VOICEMAIL:" +:+ String Js.LF (v +:+ String Js.LF "")))))))).
    rewrite !includes_join by reflexivity. rewrite Hs10, Hb8, Hv6. reflexivity. }
  destruct (sections (reply s b v m)) as [ce vm sm] eqn:Hsec.
  cbn [coldEmail] in Hcold. subst ce.
  unfold sections in Hsec. rewrite Hvoice, Hsms in Hsec.
  injection Hsec as _ <- <-.
  unfold Js.trim at 1. rewrite Hv3, Hv2. reflexivity.
Qed.

Lemma sections_round_trip_witness :
  sections (reply "Quick idea for Acme" "Hi there, I saw your site."
                  "Hi, this is Sam." "Acme: 5 min call?")
  = mkOutreach (coldEmailOf "Quick idea for Acme" "Hi there, I saw your site.")
               "Hi, this is Sam." "Acme: 5 min call?".
Proof.
  apply (sections_round_trip "Quick idea for Acme" "Hi there, I saw your site."
           "Hi, this is Sam." "Acme: 5 min call?"); reflexivity.
Defined.

(** X23. The body of the cold email ends at its first blank line: of a body of
    several paragraphs the first alone is kept, whatever the others, the
    voicemail script and the message are. *)
Theorem sections_first_paragraph (s b more v m : string) :
  paragraph ["COLD_EMAIL_BODY:"] s = true ->
  paragraph ["VOICEMAIL:"] b = true ->
  coldEmail (sections (reply s (b +:+ blank +:+ more) v m)) = coldEmailOf s b.
Proof.
  intros Hs Hb.
  destruct (paragraph_spec _ _ Hs) as (Hs1 & Hs2 & Hs3 & Hs4 & Hs5).
  destruct (paragraph_spec _ _ Hb) as (Hb1 & Hb2 & Hb3 & Hb4 & Hb5).
  inversion Hs5 as [|? ? Hs6 _]; subst. inversion Hb5 as [|? ? Hb6 _]; subst.
  replace (reply s (b +:+ blank +:+ more) v m)
    with ("COLD_EMAIL_SUBJECT:" +:+ Js.nl +:+ s +:+ blank
          +:+ "COLD_EMAIL_BODY:" +:+ Js.nl +:+ b +:+ blank
          +:+ (more +:+ blank +:+ "VOICEMAIL:" +:+ Js.nl +:+ v +:+ blank
               +:+ "SMS:" +:+ Js.nl +:+ m))
    by (unfold reply; rewrite !append_assoc_str; reflexivity).
  apply sections_coldEmail; assumption.
Qed.

Lemma sections_first_paragraph_witness :
  coldEmail (sections (reply "Quick idea for Acme"
                             ("Hi there," +:+ blank +:+ "I saw your site.")
                             "Hi, this is Sam." "Acme: 5 min call?"))
  = coldEmailOf "Quick idea for Acme" "Hi there,".
Proof.
  apply (sections_first_paragraph "Quick idea for Acme" "Hi there," "I saw your site."
           "Hi, this is Sam." "Acme: 5 min call?"); reflexivity.
Defined.

Lemma lazyUntil_prefix stop s : forall g,
  lazyUntil stop s = Some g -> exists rest, s = g +:+ rest.
Proof.
  induction s as [|c r IH]; intros g; [discriminate|].
  rewrite lazyUntil_cons. destruct (stopAt stop r).
  - intros [= <-]. exists r. reflexivity.
  - destruct (lazyUntil stop r) as [g2|]; [|discriminate].
    intros [= <-]. destruct (IH g2 eq_refl) as [rest ->].
    exists rest. reflexivity.
Qed.

Lemma lazyUntil_tail marker s : forall g,
  lazyUntil (Before marker) s = Some g ->
  exists c g', g = String c g' /\ Js.includes blank g' = false.
Proof.
  induction s as [|c r IH]; intros g; [discriminate|].
  rewrite lazyUntil_cons. destruct (stopAt (Before marker) r) eqn:Hstop.
  - intros [= <-]. exists c, EmptyString. split; reflexivity.
  - destruct (lazyUntil (Before marker) r) as [g2|] eqn:Hg2; [|discriminate].
    intros [= <-]. exists c, g2. split; [reflexivity|].
    destruct (IH g2 eq_refl) as (c2 & g2' & -> & Hfree).
    rewrite includes_cons, Hfree, orb_false_r.
    destruct (lazyUntil_prefix _ _ _ Hg2) as [rest Hr].
    unfold stopAt, Js.startsWith in Hstop. apply orb_false_iff in Hstop as [Hstop _].
    destruct (String.prefix blank (String c2 g2')) eqn:Hp; [|reflexivity].
    rewrite Hr, (prefix_app_l _ _ rest Hp) in Hstop. discriminate.
Qed.

Lemma sectionAt_lazy stop s : forall g,
  sectionAt stop s = Some g -> exists r, lazyUntil stop r = Some g.
Proof.
  induction s as [|c r IH]; intros g; [discriminate|].
  rewrite sectionAt_cons. destruct (Js.isSpace c); [|discriminate].
  destruct (sectionAt stop r) as [g1|].
  - intros [= <-]. apply IH. reflexivity.
  - destruct (Ascii.eqb c Js.LF); [|discriminate]. intros H. exists r. exact H.
Qed.

Lemma sectionMatch_lazy L stop s : forall g,
  sectionMatch L stop s = Some g -> exists r, lazyUntil stop r = Some g.
Proof.
  induction s as [|c r IH]; intros g; rewrite sectionMatch_unfold.
  - destruct (Js.startsWith L EmptyString); [|discriminate].
    destruct (sectionAt stop _) as [g1|] eqn:H1; [|discriminate].
    intros [= <-]. exact (sectionAt_lazy _ _ _ H1).
  - destruct (Js.startsWith L (String c r)).
    + destruct (sectionAt stop _) as [g1|] eqn:H1.
      * intros [= <-]. exact (sectionAt_lazy _ _ _ H1).
      * apply IH.
    + apply IH.
Qed.

Lemma trim_single_paragraph c g :
  Js.includes blank g = false -> Js.includes blank (Js.trim (String c g)) = false.
Proof.
  intros Hg. unfold Js.trim. simpl Js.trimEnd.
  destruct (Js.isSpace c) eqn:Hc; simpl andb.
  - destruct (Js.isEmpty (Js.trimEnd g)); [reflexivity|].
    simpl Js.trimStart. rewrite Hc.
    destruct (Js.includes blank (Js.trimStart (Js.trimEnd g))) eqn:Hx; [|reflexivity].
    apply (includes_trim g blank) in Hx. congruence.
  - simpl Js.trimStart. rewrite Hc. rewrite includes_cons.
    unfold blank at 1. rewrite prefix_cons.
    replace (Ascii.eqb Js.LF c) with false
      by (symmetry; destruct (Ascii.eqb_spec Js.LF c) as [<-|]; [discriminate|reflexivity]).
    simpl. destruct (Js.includes blank (Js.trimEnd g)) eqn:Hx; [|reflexivity].
    destruct (trimEnd_prefix g) as [rest Hrest].
    apply (includes_app_l _ _ rest) in Hx. rewrite <- Hrest in Hx. congruence.
Qed.

Lemma section_single_paragraph L marker content g :
  sectionMatch L (Before marker) content = Some g ->
  Js.includes blank (Js.trim g) = false.
Proof.
  intros H. destruct (sectionMatch_lazy _ _ _ _ H) as [r Hr].
  destruct (lazyUntil_tail _ _ _ Hr) as (c & g' & -> & Hfree).
  apply trim_single_paragraph, Hfree.
Qed.

(** X24. Whatever the reply is, the voicemail script taken from it holds no
    blank line, and the cold email is either empty or assembled from a
    subject and a body that hold none. *)
Theorem sections_single_paragraphs (content : string) :
  let o := sections content in
  Js.includes blank (voicemail o) = false
  /\ (coldEmail o = ""
      \/ exists subject body,
           coldEmail o = coldEmailOf subject body
           /\ Js.includes blank subject = false
           /\ Js.includes blank body = false).
Proof.
  unfold sections. cbn [voicemail coldEmail]. split.
  - destruct (sectionMatch "VOICEMAIL:" _ content) as [g|] eqn:H; [|reflexivity].
    exact (section_single_paragraph _ _ _ _ H).
  - destruct (sectionMatch "COLD_EMAIL_SUBJECT:" _ content) as [g1|] eqn:H1;
      [|left; reflexivity].
    destruct (sectionMatch "COLD_EMAIL_BODY:" _ content) as [g2|] eqn:H2;
      [|left; reflexivity].
    right. exists (Js.trim g1), (Js.trim g2). split; [reflexivity|].
    split; [exact (section_single_paragraph _ _ _ _ H1)
           |exact (section_single_paragraph _ _ _ _ H2)].
Qed.

(** X25. From the reply to the row of the dataset: the subject line and the
    first paragraph of the body, as the reply gives them in the format
    asked for, are the [coldEmailSubject] and the [coldEmailBody] that
    [cleanLeadForOutput] reads back from the cold email. *)
Theorem reply_to_row (s b more v m : string) :
  paragraph ["COLD_EMAIL_BODY:"] s = true ->
  lineFree s = true ->
  paragraph ["VOICEMAIL:"] b = true ->
  let written := coldEmail (sections (reply s (b +:+ blank +:+ more) v m)) in
  extractEmailSubject (Some written) = s /\ extractEmailBody (Some written) = b.
Proof.
  intros Hs Hline Hb.
  destruct (paragraph_spec _ _ Hs) as (Hs1 & Hs2 & Hs3 & Hs4 & Hs5).
  destruct (paragraph_spec _ _ Hb) as (Hb1 & Hb2 & Hb3 & Hb4 & Hb5).
  inversion Hs5 as [|? ? Hs6 _]; subst. inversion Hb5 as [|? ? Hb6 _]; subst.
  assert (Hts : Js.trim s = s) by (unfold Js.trim; rewrite Hs3; exact Hs2).
  assert (Htb : Js.trim b = b) by (unfold Js.trim; rewrite Hb3; exact Hb2).
  replace (reply s (b +:+ blank +:+ more) v m)
    with ("COLD_EMAIL_SUBJECT:" +:+ Js.nl +:+ s +:+ blank
          +:+ "COLD_EMAIL_BODY:" +:+ Js.nl +:+ b +:+ blank
          +:+ (more +:+ blank +:+ "VOICEMAIL:" +:+ Js.nl +:+ v +:+ blank
               +:+ "SMS:" +:+ Js.nl +:+ m))
    by (unfold reply; rewrite !append_assoc_str; reflexivity).
  cbv zeta. rewrite sections_coldEmail by assumption. split.
  - rewrite extractEmailSubject_assembled; [exact Hts|exact Hline|].
    rewrite Hts. exact Hs1.
  - rewrite extractEmailBody_assembled; [exact Htb|exact Hline|exact Hb1].
Qed.

Lemma reply_to_row_witness :
  let written :=
    coldEmail (sections (reply "Quick idea for Acme"
                               ("Hi there," +:+ blank +:+ "I saw your site.")
                               "Hi, this is Sam." "Acme: 5 min call?")) in
  extractEmailSubject (Some written) = "Quick idea for Acme"
  /\ extractEmailBody (Some written) = "Hi there,".
Proof.
  apply (reply_to_row "Quick idea for Acme" "Hi there," "I saw your site."
           "Hi, this is Sam." "Acme: 5 min call?"); reflexivity.
Defined.

(** ** The coverage of the sources *)

Lemma countSource_keys l : forall coverage k,
  NoDup l ->
  foldl countSource coverage l !! k
  = if bool_decide (k ∈ l) then Some (default 0 (coverage !! k) + 1) else coverage !! k.
Proof.
  induction l as [|a l IH]; intros coverage k Hnd; [reflexivity|].
  apply NoDup_cons in Hnd as [Ha Hnd]. simpl. rewrite (IH _ k Hnd).
  unfold countSource at 1 2.
  destruct (decide (k = a)) as [->|Hne].
  - rewrite (bool_decide_eq_false_2 _ Ha), lookup_insert_eq.
    rewrite bool_decide_eq_true_2 by (left). reflexivity.
  - rewrite lookup_insert_ne by congruence.
    destruct (decide (k ∈ l)) as [Hin|Hout].
    + rewrite !bool_decide_eq_true_2; [reflexivity|right; exact Hin|exact Hin].
    + rewrite !bool_decide_eq_false_2; [reflexivity| |exact Hout].
      intros [?|?]%elem_of_cons; contradiction.
Qed.

Lemma countSources_lookup coverage sources k :
  countSources coverage sources !! k
  = if bool_decide (is_Some (sources !! k))
    then Some (default 0 (coverage !! k) + 1) else coverage !! k.
Proof.
  unfold countSources. rewrite countSource_keys by apply NoDup_fst_map_to_list.
  apply (f_equal (fun b : bool => if b then _ else _)).
  apply bool_decide_ext. rewrite list_elem_of_fmap. split.
  - intros ([k' v] & -> & Hin). apply elem_of_map_to_list in Hin. eauto.
  - intros [v Hv]. exists (k, v). split; [reflexivity|].
    apply elem_of_map_to_list, Hv.
Qed.

Lemma sourceCoverage_from rawLeads : forall coverage k,
  foldl countSources coverage rawLeads !! k
  = if listed k rawLeads =? 0 then coverage !! k
    else Some (default 0 (coverage !! k) + listed k rawLeads).
Proof.
  induction rawLeads as [|sources rest IH]; intros coverage k; [reflexivity|].
  simpl foldl. rewrite IH, countSources_lookup. unfold listed. simpl List.filter.
  destruct (bool_decide (is_Some (sources !! k))); simpl length; [|reflexivity].
  set (n := length (List.filter _ rest)).
  replace (N.of_nat (S n) =? 0) with false by (symmetry; apply N.eqb_neq; lia).
  destruct n as [|n]; [reflexivity|].
  replace (N.of_nat (S n) =? 0) with false by (symmetry; apply N.eqb_neq; lia).
  simpl default. f_equal. lia.
Qed.

(** X26. The coverage of a source is the number of raw leads whose [sources]
    have it as a key, whatever the value under the key; a source that no
    lead has is absent from the coverage. *)
Theorem sourceCoverage_counts (rawLeads : list (gmap string bool)) (source : string) :
  sourceCoverage rawLeads !! source
  = if listed source rawLeads =? 0 then None else Some (listed source rawLeads).
Proof.
  unfold sourceCoverage. rewrite sourceCoverage_from, lookup_empty. reflexivity.
Qed.

(** ** The discovery phase *)

Lemma scrapeInto_run (asked : bool) label failure op rawLeads w :
  exists w',
    (if asked then scrapeInto label failure op rawLeads else ret rawLeads) w
    = (Normal (rawLeads ++ (if asked then gives op else []))%list, w').
Proof.
  destruct asked.
  - unfold scrapeInto, gives. io_unfold. simpl.
    destruct (outcome op) as [leads|e]; simpl; eexists; [reflexivity|].
    rewrite app_nil_r. reflexivity.
  - eexists. unfold ret. rewrite app_nil_r. reflexivity.
Qed.

Lemma bind_normal {S A B} (m : M S A) (k : A -> M S B) s a s' :
  m s = (Normal a, s') -> bind m k s = k a s'.
Proof. intros H. unfold bind. rewrite H. reflexivity. Qed.

Lemma discoverPair_run sc input location keyword rawLeads w :
  exists w',
    discoverPair sc input location keyword rawLeads w
    = (Normal (rawLeads ++ found sc input (location, keyword))%list, w').
Proof.
  unfold discoverPair, found.
  set (gm := if in_useApis input then scrapeGoogleMapsApi sc keyword location
             else scrapeGoogleMaps sc keyword location).
  set (yelp := if in_useApis input then scrapeYelpApi sc keyword location
               else scrapeYelp sc keyword location).
  unfold bind at 1. unfold log, emit. cbv iota beta.
  match goal with |- context [bind _ _ ?w0] => set (w1 := w0) end.
  destruct (scrapeInto_run (listIncludes "googleMaps" (sourcesOf input))
              "Google Maps" "Google Maps scraping failed" gm rawLeads w1) as [w2 H2].
  rewrite (bind_normal _ _ _ _ _ H2).
  destruct (scrapeInto_run (listIncludes "yelp" (sourcesOf input))
              "Yelp" "Yelp scraping failed" yelp
              (rawLeads ++ (if listIncludes "googleMaps" (sourcesOf input)
                            then gives gm else []))%list w2) as [w3 H3].
  rewrite (bind_normal _ _ _ _ _ H3).
  destruct (scrapeInto_run (listIncludes "bbb" (sourcesOf input))
              "BBB" "BBB scraping failed" (scrapeBBB sc keyword location)
              ((rawLeads ++ (if listIncludes "googleMaps" (sourcesOf input)
                             then gives gm else []))
               ++ (if listIncludes "yelp" (sourcesOf input) then gives yelp else []))%list
              w3) as [w4 H4].
  rewrite (bind_normal _ _ _ _ _ H4).
  destruct (scrapeInto_run (listIncludes "serp" (sourcesOf input))
              "SERP" "SERP scraping failed" (scrapeSERP sc keyword location)
              (((rawLeads ++ (if listIncludes "googleMaps" (sourcesOf input)
                              then gives gm else []))
                ++ (if listIncludes "yelp" (sourcesOf input) then gives yelp else []))
               ++ (if listIncludes "bbb" (sourcesOf input)
                   then gives (scrapeBBB sc keyword location) else []))%list
              w4) as [w5 H5].
  exists w5. etransitivity; [exact H5|]. rewrite <- !app_assoc. reflexivity.
Qed.

Arguments found : simpl never.
Arguments full : simpl never.

Lemma found_step sc input p ps k rawLeads :
  (rawLeads ++ concat (found sc input <$> take (S k) (p :: ps)))%list
  = ((rawLeads ++ found sc input p) ++ concat (found sc input <$> take k ps))%list.
Proof. rewrite <- app_assoc. reflexivity. Qed.

Lemma found_none sc input ps rawLeads :
  (rawLeads ++ concat (found sc input <$> take 0 ps))%list = rawLeads.
Proof. apply app_nil_r. Qed.

Lemma overKeywords_run sc input location : forall keywords rawLeads w,
  let ps := pair location <$> keywords in
  exists k w',
    overKeywords sc input location keywords rawLeads w
    = (Normal (rawLeads ++ concat (found sc input <$> take k ps))%list, w')
    /\ (k <= length ps)%nat
    /\ ((k < length ps)%nat ->
        full input (rawLeads ++ concat (found sc input <$> take k ps)) = true)
    /\ (forall j, (0 < j < k)%nat ->
        full input (rawLeads ++ concat (found sc input <$> take j ps)) = false).
Proof.
  induction keywords as [|keyword rest IH]; intros rawLeads w ps.
  - exists 0%nat, w. subst ps. rewrite found_none.
    split; [reflexivity|]. simpl. split; [lia|]. split; intros; lia.
  - destruct (discoverPair_run sc input location keyword rawLeads w) as [w1 H1].
    cbn [overKeywords]. rewrite (bind_normal _ _ _ _ _ H1).
    subst ps. rewrite fmap_cons. cbn [length].
    destruct (full input (rawLeads ++ found sc input (location, keyword))) eqn:Hfull.
    + exists 1%nat. eexists. rewrite found_step, found_none.
      split; [reflexivity|]. split; [lia|]. split; [intros _; exact Hfull|].
      intros j Hj. lia.
    + destruct (IH (rawLeads ++ found sc input (location, keyword))%list w1)
        as (k & w' & Hrun & Hk & Hstop & Hbefore).
      exists (S k), w'. rewrite found_step.
      split; [exact Hrun|]. split; [lia|].
      split; [intros Hlt; apply Hstop; lia|].
      intros [|j] Hj; [lia|]. rewrite found_step.
      destruct j as [|j].
      * rewrite found_none. exact Hfull.
      * apply Hbefore. lia.
Qed.

Lemma searches_cons (location : string) (locations keywords : list string) :
  (l ← location :: locations; keyword ← keywords; [(l, keyword)])
  = ((pair location <$> keywords)
     ++ (l ← locations; keyword ← keywords; [(l, keyword)]))%list.
Proof.
  rewrite bind_cons. f_equal.
Qed.

Lemma overLocations_run sc input : forall locations rawLeads w,
  full input rawLeads = false ->
  let ps := (l ← locations; keyword ← default [] (in_keywords input); [(l, keyword)]) in
  exists k w',
    overLocations sc input locations rawLeads w
    = (Normal (rawLeads ++ concat (found sc input <$> take k ps))%list, w')
    /\ (k <= length ps)%nat
    /\ ((k < length ps)%nat ->
        full input (rawLeads ++ concat (found sc input <$> take k ps)) = true)
    /\ (forall j, (j < k)%nat ->
        full input (rawLeads ++ concat (found sc input <$> take j ps)) = false).
Proof.
  induction locations as [|location rest IH]; intros rawLeads w Hroom ps.
  - exists 0%nat, w. subst ps. rewrite found_none.
    split; [reflexivity|]. simpl. split; [lia|]. split; intros; lia.
  - subst ps. rewrite searches_cons.
    set (ps1 := pair location <$> default [] (in_keywords input)).
    set (ps2 := (l ← rest; keyword ← default [] (in_keywords input); [(l, keyword)])).
    destruct (overKeywords_run sc input location (default [] (in_keywords input))
                rawLeads w) as (k1 & w1 & H1 & Hk1 & Hstop1 & Hbefore1).
    fold ps1 in H1, Hk1, Hstop1, Hbefore1.
    cbn [overLocations]. rewrite (bind_normal _ _ _ _ _ H1).
    destruct (full input (rawLeads ++ concat (found sc input <$> take k1 ps1)))
      eqn:Hfull.
    + exists k1, w1.
      rewrite take_app_le by exact Hk1.
      split; [reflexivity|]. split; [rewrite length_app; lia|].
      split; [intros _; exact Hfull|].
      intros j Hj. rewrite take_app_le by lia.
      destruct j as [|j]; [rewrite found_none; exact Hroom|].
      apply Hbefore1. lia.
    + assert (Hall : k1 = length ps1).
      { destruct (decide (k1 < length ps1)%nat) as [Hlt|Hge]; [|lia].
        discriminate (Hstop1 Hlt). }
      subst k1. rewrite firstn_all in H1, Hfull.
      destruct (IH (rawLeads ++ concat (found sc input <$> ps1))%list w1 Hfull)
        as (k2 & w' & H2 & Hk2 & Hstop2 & Hbefore2).
      fold ps2 in H2, Hk2, Hstop2, Hbefore2.
      exists (length ps1 + k2)%nat, w'.
      rewrite take_app_add, fmap_app, concat_app, app_assoc.
      rewrite firstn_all. split; [exact H2|].
      split; [rewrite length_app; lia|].
      split; [intros Hlt; apply Hstop2; rewrite length_app in Hlt; lia|].
      intros j Hj.
      destruct (decide (j < length ps1)%nat) as [Hlt|Hge].
      * rewrite take_app_le by lia.
        destruct j as [|j]; [rewrite found_none; exact Hroom|].
        apply Hbefore1. lia.
      * replace j with (length ps1 + (j - length ps1))%nat by lia.
        rewrite take_app_add, fmap_app, concat_app, app_assoc.
        apply Hbefore2. lia.
Qed.

Lemma maxTotal_pos input : 0 < maxTotal input.
Proof.
  unfold maxTotal. destruct (in_maxTotalResults input) as [n|]; [|lia].
  destruct (N.eqb_spec n 0); lia.
Qed.

(** X27. The discovery phase never throws. It runs the searches in the order
    of the loops, every keyword for the first location, then for the next,
    and stops after the first search that brings the total to the maximum:
    the total stays below the maximum up to that search, and may exceed it
    by the leads that this search brings. A source that fails brings no
    lead and stops nothing. *)
Theorem discover_capped (sc : Scrapers) (input : Search) (w : World) :
  exists k w',
    discover sc input w = (Normal (foundIn sc input k), w')
    /\ (k <= length (searches input))%nat
    /\ ((k < length (searches input))%nat ->
        maxTotal input <= N.of_nat (length (foundIn sc input k)))
    /\ (forall j, (j < k)%nat ->
        N.of_nat (length (foundIn sc input j)) < maxTotal input).
Proof.
  assert (Hroom : full input [] = false).
  { unfold full. apply N.leb_gt. pose proof (maxTotal_pos input). simpl. lia. }
  destruct (overLocations_run sc input (default [] (in_locations input)) [] w Hroom)
    as (k & w' & Hrun & Hk & Hstop & Hbefore).
  exists k, w'. unfold discover, foundIn, searches.
  split; [exact Hrun|]. split; [exact Hk|].
  split.
  - intros Hlt. apply N.leb_le. exact (Hstop Hlt).
  - intros j Hj. apply N.leb_gt. exact (Hbefore j Hj).
Qed.

(** ** Deduplication and filters *)

(** X28. With deduplication switched off, [mergedLeads] is the array of the raw
    leads itself, and the filters empty and refill that array: from then on
    [rawLeads] holds the leads that passed the filters, and its length, which
    the summary reports as [totalFound], is their number. What
    [processing/merge.js] does plays no part. *)
Theorem dedupe_off_filters_raw {Num : Type} (zero : Num) (numTruthy : Num -> bool)
    (numLt : Num -> Num -> bool) (mergeLeads : nat -> M (gmap nat (list (Rated Num))) nat)
    (input : Selection Num) (rawLeads : nat) (leads : list (Rated Num))
    (arrays : gmap nat (list (Rated Num))) (w : World) :
  dedupe_enabled input = Some false ->
  filtersAsked numTruthy input = true ->
  arrays !! rawLeads = Some leads ->
  exists arrays' w',
    dedupeAndFilter zero numTruthy numLt mergeLeads input rawLeads (arrays, w)
    = (Normal rawLeads, (arrays', w'))
    /\ arrays' !! rawLeads = Some (List.filter (keeps zero numTruthy numLt input) leads)
    /\ (forall other, other <> rawLeads -> arrays' !! other = arrays !! other).
Proof.
  intros Hoff Hasked Hraw.
  unfold dedupeAndFilter, dedupeOn. rewrite Hoff, Hasked.
  unfold bind, ret, elementsOf, say, refill, log, emit. cbn [fst snd].
  unfold Arrays in *. rewrite Hraw. cbn [default]. unfold id.
  do 2 eexists. split; [reflexivity|]. split.
  - apply lookup_insert_eq.
  - intros other Hne. apply lookup_insert_ne. congruence.
Qed.

Lemma dedupe_off_filters_raw_witness :
  let shop := mkRated UnitScenario.lead (Some 4) (Some 12) in
  let stall :=
    mkRated (mkLead "Market Stall" JsUndefined None [] [] None None None None)
            (Some 5) (Some 3) in
  let input := mkSelection (Some false) None None true in
  exists arrays' w',
    dedupeAndFilter 0 (fun n => negb (n =? 0)) N.ltb (fun ref => ret ref) input 0%nat
      ({[ 0%nat := [shop; stall] ]}, mkWorld 0 [])
    = (Normal 0%nat, (arrays', w'))
    /\ arrays' !! 0%nat = Some [shop].
Proof.
  intros shop stall input.
  destruct (dedupe_off_filters_raw 0 (fun n => negb (n =? 0)) N.ltb (fun ref => ret ref)
              input 0%nat [shop; stall] {[ 0%nat := [shop; stall] ]} (mkWorld 0 [])
              eq_refl eq_refl (lookup_singleton_eq _ _))
    as (arrays' & w' & Hrun & Hraw & _).
  exists arrays', w'. split; [exact Hrun|exact Hraw].
Defined.

(** ** The external crawler, once its child has started *)

(** X29. With a child that starts, [crawlUrl] never throws. It writes the one
    request [{url, timeout}] to the standard input of the child and closes
    it. When the child has not closed by the time the timer of [crawlUrl]
    fires, the child is killed and the result is the failure
    [Crawl timeout]. When it has, it is not killed; a non-zero exit and an
    unparseable last line are returned as failures
    [{success: false, error}], and a parseable last line is returned as the
    response. The last line alone is parsed, whatever lines precede it and
    whatever white space follows it. The timer is set for
    [(timeout + 5) * 1000] ms, which is the delay it is given up to
    2147483647 ms; a longer delay is replaced by 1 ms. *)
Theorem crawlUrl_contract_started (env : Env) (this : Crawl4AIClient)
    (url : string) (timeout : option N) (w : World) :
  let seconds := default 30 timeout in
  let input :=
    JSON_stringify env (JObj [("url", JStr url); ("timeout", JNum seconds)]) in
  let python := child_process env (pythonPath this) [wrapperPath this] input in
  let fires := timerDelay ((seconds + 5) * 1000) + timer_lag env (now w) in
  p_spawnError python = None ->
  exists v w',
    crawlUrl env this url timeout w = (Settles (Normal v), w')
    /\ stdinEvents (trace w')
       = (stdinEvents (trace w)
          ++ [(now w, EvStdinWrite input); (now w, EvStdinEnd)])%list
    /\ (respondsInTime python fires = false ->
          v = failureResult "Crawl timeout"
          /\ now w' = now w + fires
          /\ kills (trace w') = S (kills (trace w)))
    /\ (respondsInTime python fires = true ->
          kills (trace w') = kills (trace w)
          /\ p_closes python = Some (now w' - now w)
          /\ (p_code python <> Some 0 ->
                v = failureResult (if Js.truthyStr (p_stderr python)
                                   then p_stderr python
                                   else "Python script failed"))
          /\ (p_code python = Some 0 ->
                forall e, JSON_parse env (lastLine (p_stdout python)) = Throw e ->
                v = failureResult ("Failed to parse Python output: "
                                   +:+ String.substring 0 200 (p_stdout python)))
          /\ (p_code python = Some 0 ->
                forall j, JSON_parse env (lastLine (p_stdout python)) = Normal j ->
                j <> JNull -> v = j))
    /\ (forall noise line tail,
          p_stdout python = noise +:+ Js.nl +:+ line +:+ tail ->
          Js.hasChar Js.LF line = false ->
          Js.trimStart line = line -> Js.trimEnd line = line ->
          Js.isEmpty line = false ->
          Js.trimEnd tail = EmptyString ->
          lastLine (p_stdout python) = line)
    /\ (seconds <= 2147478 ->
          fires = (seconds + 5) * 1000 + timer_lag env (now w))
    /\ (2147478 < seconds -> fires = 1 + timer_lag env (now w)).
Proof.
  intros seconds input python fires Hstart.
  assert (Hlast : forall noise line tail,
          p_stdout python = noise +:+ Js.nl +:+ line +:+ tail ->
          Js.hasChar Js.LF line = false ->
          Js.trimStart line = line -> Js.trimEnd line = line ->
          Js.isEmpty line = false ->
          Js.trimEnd tail = EmptyString ->
          lastLine (p_stdout python) = line).
  { intros noise line tail ->. apply lastLine_app. }
  assert (Hshort : seconds <= 2147478 ->
                   fires = (seconds + 5) * 1000 + timer_lag env (now w)).
  { intros H. subst fires. rewrite timerDelay_in_range; [reflexivity|lia|lia]. }
  assert (Hlong : 2147478 < seconds -> fires = 1 + timer_lag env (now w)).
  { intros H. subst fires. unfold timerDelay.
    destruct (N.leb_spec 1 ((seconds + 5) * 1000)); [|reflexivity].
    destruct (N.leb_spec ((seconds + 5) * 1000) 2147483647); [lia|reflexivity]. }
  revert Hshort Hlong. subst fires.
  unfold crawlUrl, nodeCatch, nodeBind, crawlPromise, fromIO, onClose, respondsInTime,
    lastLine, crawlRequest, crawlDeadline in *.
  fold seconds. fold input. fold python. rewrite Hstart.
  generalize (timerDelay ((seconds + 5) * 1000)). intros d Hshort Hlong.
  io_unfold. cbn [now trace fst snd].
  destruct (p_closes python) as [t|] eqn:Hc.
  2:{ do 2 eexists. split; [reflexivity|]. cbn [now trace].
      split; [rewrite !stdinEvents_app; unfold stdinEvents; simpl;
              rewrite !app_nil_r, <- app_assoc; reflexivity|].
      split; [intros _; split; [reflexivity|]; split; [reflexivity|];
              rewrite !kills_app; unfold kills; simpl; lia|].
      split; [discriminate|]. split; [exact Hlast|]. split; assumption. }
  destruct (t <? d + timer_lag env (now w)) eqn:Ht.
  2:{ do 2 eexists. split; [reflexivity|]. cbn [now trace].
      split; [rewrite !stdinEvents_app; unfold stdinEvents; simpl;
              rewrite !app_nil_r, <- app_assoc; reflexivity|].
      split; [intros _; split; [reflexivity|]; split; [reflexivity|];
              rewrite !kills_app; unfold kills; simpl; lia|].
      split; [discriminate|]. split; [exact Hlast|]. split; assumption. }
  assert (Hstdin : forall (evs : list (N * Event)),
    stdinEvents evs = [] ->
    stdinEvents ((((((trace w ++ [(now w, EvSpawn (pythonPath this) [wrapperPath this])])
                 ++ [(now w, EvStdinWrite input)]) ++ [(now w, EvStdinEnd)])
                 ++ [(now w, EvSetTimeout ((seconds + 5) * 1000))]) ++ evs))%list
    = (stdinEvents (trace w) ++ [(now w, EvStdinWrite input); (now w, EvStdinEnd)])%list).
  { intros evs Hevs. rewrite !stdinEvents_app, Hevs. unfold stdinEvents. simpl.
    rewrite !app_nil_r, <- app_assoc. reflexivity. }
  assert (Hkill : forall (evs : list (N * Event)),
    kills evs = 0%nat ->
    kills ((((((trace w ++ [(now w, EvSpawn (pythonPath this) [wrapperPath this])])
                 ++ [(now w, EvStdinWrite input)]) ++ [(now w, EvStdinEnd)])
                 ++ [(now w, EvSetTimeout ((seconds + 5) * 1000))]) ++ evs))%list
    = kills (trace w)).
  { intros evs Hevs. rewrite !kills_app, Hevs. unfold kills. simpl. lia. }
  assert (Htime : Some t = Some (now w + t - now w)) by (f_equal; lia).
  destruct (p_code python) as [[|p]|] eqn:Hcode.
  - destruct (JSON_parse env (Js.lastOf (Js.splitLines (Js.trim (p_stdout python)))))
      as [j|e] eqn:Hparse.
    + cbn [now trace].
      destruct j as [|b|n|s|items|fs]; cbn [getProp];
        try (destruct (optTruthy _)); cbn [now trace];
        do 2 eexists; (split; [reflexivity|]); cbn [now trace];
        (split; [apply (Hstdin [_]); reflexivity|]);
        (split; [discriminate|]);
        (split; [|split; [exact Hlast|split; assumption]]); intros _;
        (split; [apply (Hkill [_]); reflexivity|]);
        (split; [exact Htime|]);
        (split; [intros Hn; destruct Hn; reflexivity|]);
        (split; [intros _ e He; discriminate|]);
        intros _ j' Hj' Hnn; inversion Hj'; subst; try reflexivity;
        destruct Hnn; reflexivity.
    + do 2 eexists. split; [reflexivity|]. cbn [now trace].
      split; [apply (Hstdin [_]); reflexivity|].
      split; [discriminate|].
      split; [|split; [exact Hlast|split; assumption]]. intros _.
      split; [apply (Hkill [_]); reflexivity|]. split; [exact Htime|].
      split; [intros Hn; destruct Hn; reflexivity|].
      split; [intros _ e' He'; reflexivity|].
      intros _ j Hj. discriminate.
  - do 2 eexists. split; [reflexivity|]. cbn [now trace].
    split; [apply (Hstdin [_]); reflexivity|].
    split; [discriminate|].
    split; [|split; [exact Hlast|split; assumption]]. intros _.
    split; [apply (Hkill [_]); reflexivity|]. split; [exact Htime|].
    split; [intros _; reflexivity|].
    split; intros; discriminate.
  - do 2 eexists. split; [reflexivity|]. cbn [now trace].
    split; [apply (Hstdin [_]); reflexivity|].
    split; [discriminate|].
    split; [|split; [exact Hlast|split; assumption]]. intros _.
    split; [apply (Hkill [_]); reflexivity|]. split; [exact Htime|].
    split; [intros _; reflexivity|].
    split; intros; discriminate.
Qed.

(** The child logs two lines and answers on the third: the request that it
    was sent, and the response returned after the 1200 ms it ran. *)
Lemma crawlUrl_contract_started_witness :
  exists v w',
    crawlUrl CrawlerScenario.env CrawlerScenario.client "https://shop.example" None
      Scenario.start = (Settles (Normal v), w')
    /\ v = CrawlerScenario.response
    /\ now w' = 1200
    /\ stdinEvents (trace w')
       = [(0, EvStdinWrite ("{" +:+ doubleQuote +:+ "url" +:+ doubleQuote +:+ ":"
                            +:+ doubleQuote +:+ "https://shop.example" +:+ doubleQuote
                            +:+ "," +:+ doubleQuote +:+ "timeout" +:+ doubleQuote
                            +:+ ":30}"));
          (0, EvStdinEnd)].
Proof.
  destruct (crawlUrl_contract_started CrawlerScenario.env CrawlerScenario.client
              "https://shop.example" None Scenario.start eq_refl)
    as (v & w' & Hrun & Hin & _ & Hanswer & Hlast & _).
  exists v, w'. split; [exact Hrun|].
  destruct (Hanswer eq_refl) as (_ & Htime & _ & _ & Hparse).
  split; [|split].
  - apply Hparse; [reflexivity| |discriminate].
    rewrite (Hlast ("[INIT] crawler ready" +:+ Js.nl +:+ "[FETCH] https://shop.example")
               CrawlerScenario.answer Js.nl); reflexivity.
  - assert (Hnow : now (snd (crawlUrl CrawlerScenario.env CrawlerScenario.client
                               "https://shop.example" None Scenario.start)) = 1200)
      by (vm_compute; reflexivity).
    rewrite Hrun in Hnow. exact Hnow.
  - rewrite Hin. vm_compute. reflexivity.
Defined.
